(** * Batch sharding across processes: [accelerate/data_loader.py]

    A shallow embedding of [BatchSamplerShard], [DataLoaderShard] and
    [prepare_data_loader], followed by the properties of the sharding
    algorithm.

    Python integers are [Z]; [%] and [//] are [Z.modulo] and [Z.div] (both
    round towards minus infinity, as Python does) behind a check for a zero
    divisor.  Python lists are mutable objects: they live in a store and the
    local variables of the generators hold references, so that
    [initial_data = batch] shares one object and [initial_data += ...]
    changes it in place. *)

From stdpp Require Import base numbers list strings gmap.

Open Scope Z_scope.

(** ** Exceptions and the two monads *)

(** The exceptions the module can raise.  [NonTermination] is not a Python
    exception: it marks a [while] loop of the model that used up its fuel. *)
Inductive exn : Type :=
  | ValueError
  | ZeroDivisionError
  | TypeError
  | KeyError
  | UnboundLocalError
  | DanglingReference
  | NonTermination.

(** Pure code that may raise. *)
Definition result (A : Type) : Type := exn + A.

Definition rbind {A B : Type} (r : result A) (k : A -> result B) : result B :=
  match r with
  | inl e => inl e
  | inr a => k a
  end.

(** A reference to a list object: its position in the store. *)
Abbreviation ref := nat.

(** The state a generator runs in: the list objects allocated so far
    (a reference is a position in [heap]) and the batches handed to the
    consumer so far, oldest first, each as it was when it was yielded. *)
Record machine : Type := Machine {
  heap : list (list Z);
  yielded : list (list Z)
}.

Definition M (A : Type) : Type := machine -> result A * machine.

Definition ret {A : Type} (a : A) : M A := fun st => (inr a, st).

Definition raise {A : Type} (e : exn) : M A := fun st => (inl e, st).

Definition bind {A B : Type} (m : M A) (k : A -> M B) : M B :=
  fun st =>
    match m st with
    | (inl e, st') => (inl e, st')
    | (inr a, st') => k a st'
    end.

Notation "x <- m ;; k" := (bind m (fun x => k))
  (at level 100, m at next level, right associativity).
Notation "m ;; k" := (bind m (fun _ => k))
  (at level 100, right associativity).

Definition lift {A : Type} (r : result A) : M A := fun st => (r, st).

(** ** Python primitives *)

(** [a % b] and [a // b]. *)
Definition py_mod (a b : Z) : result Z :=
  if b =? 0 then inl ZeroDivisionError else inr (a `mod` b).

Definition py_floordiv (a b : Z) : result Z :=
  if b =? 0 then inl ZeroDivisionError else inr (a `div` b).

(** How a slice bound is read against a list of length [len]: a negative
    bound counts from the end, and every bound is clipped to [0..len]. *)
Definition clip_index (len i : Z) : Z :=
  if i <? 0 then Z.max (i + len) 0 else Z.min i len.

(** [l[a:b]]. *)
Definition py_slice (l : list Z) (a b : Z) : list Z :=
  let len := Z.of_nat (length l) in
  let lo := clip_index len a in
  let hi := clip_index len b in
  take (Z.to_nat (hi - lo)) (drop (Z.to_nat lo) l).

(** A list display or any expression that builds a new list. *)
Definition new_list (v : list Z) : M ref :=
  fun st => (inr (length (heap st)), Machine (heap st ++ [v]) (yielded st)).

(** The contents of an object. *)
Definition load (r : ref) : M (list Z) :=
  fun st =>
    match heap st !! r with
    | Some v => (inr v, st)
    | None => (inl DanglingReference, st)
    end.

(** [len(r)]. *)
Definition len (r : ref) : M Z :=
  v <- load r ;; ret (Z.of_nat (length v)).

(** [r += other]: [list.__iadd__] extends the object [r] in place. *)
Definition iadd (r other : ref) : M unit :=
  v <- load r ;;
  w <- load other ;;
  fun st => (inr tt, Machine (<[r := v ++ w]> (heap st)) (yielded st)).

(** [a + b]: a new list. *)
Definition concat_lists (a b : ref) : M ref :=
  v <- load a ;;
  w <- load b ;;
  new_list (v ++ w).

(** [r[a:b]]: a new list. *)
Definition getslice (r : ref) (a b : Z) : M ref :=
  v <- load r ;;
  new_list (py_slice v a b).

(** [yield r]: the consumer receives the object as it is now. *)
Definition yield (r : ref) : M unit :=
  v <- load r ;;
  fun st => (inr tt, Machine (heap st) (yielded st ++ [v])).

(** Reading a local variable that is bound only inside a loop body. *)
Definition read_var {A : Type} (x : option A) : M A :=
  match x with
  | Some a => ret a
  | None => raise UnboundLocalError
  end.

(** [for idx, batch in enumerate(items)] from index [idx]: the batch sampler
    builds a new list for every batch it hands out.  [body] receives the index,
    the batch, and the local variables the loop body assigns. *)
Fixpoint for_enumerate {S : Type} (idx : Z) (items : list (list Z))
    (body : Z -> ref -> S -> M S) (s : S) : M S :=
  match items with
  | [] => ret s
  | v :: rest =>
      batch <- new_list v ;;
      s' <- body idx batch s ;;
      for_enumerate (idx + 1) rest body s'
  end.

(** [while len(r) < bound: r += r].  The Python loop runs forever on an
    empty list with a positive bound. *)
Fixpoint tile_while (fuel : nat) (r : ref) (bound : Z) : M unit :=
  n <- len r ;;
  if n <? bound then
    match fuel with
    | O => raise NonTermination
    | S fuel' => iadd r r ;; tile_while fuel' r bound
    end
  else ret tt.

(** What the consumer of a generator sees: the batches it was handed, and
    the exception that ended the iteration, if one did. *)
Definition run_generator (g : M unit) : list (list Z) * option exn :=
  match g (Machine [] []) with
  | (inl e, st) => (yielded st, Some e)
  | (inr _, st) => (yielded st, None)
  end.

(** ** torch.utils.data.BatchSampler, as far as this module reads it *)

Module BatchSampler.

(** [batches] is what one pass over the sampler produces. *)
Record t : Type := Build {
  batch_size : Z;
  drop_last : bool;
  batches : list (list Z)
}.

(** [len(batch_sampler)]: the number of batches of a pass. *)
Definition __len__ (self : t) : Z := Z.of_nat (length (batches self)).

End BatchSampler.

(** ** class BatchSamplerShard *)

Module BatchSamplerShard.

Record t : Type := Build {
  batch_sampler : BatchSampler.t;
  num_processes : Z;
  process_index : Z;
  split_batches : bool;
  batch_size : Z;
  drop_last : bool
}.

Definition __init__ (batch_sampler : BatchSampler.t) (num_processes process_index : Z)
    (split_batches : bool) : result t :=
  rbind
    (if split_batches then
       rbind (py_mod (BatchSampler.batch_size batch_sampler) num_processes)
         (fun r => if negb (r =? 0) then inl ValueError else inr tt)
     else inr tt)
    (fun _ =>
       inr (Build batch_sampler num_processes process_index split_batches
              (BatchSampler.batch_size batch_sampler)
              (BatchSampler.drop_last batch_sampler))).

Definition __len__ (self : t) : result Z :=
  rbind (py_mod (BatchSampler.__len__ (batch_sampler self)) (num_processes self))
    (fun r =>
       if r =? 0 then
         py_floordiv (BatchSampler.__len__ (batch_sampler self)) (num_processes self)
       else
         rbind (py_floordiv (BatchSampler.__len__ (batch_sampler self)) (num_processes self))
           (fun length => inr (if drop_last self then length else length + 1))).

(** *** _iter_with_split *)

(** The local variables the [for] loop of [_iter_with_split] assigns. *)
Record split_locals : Type := SplitLocals {
  sl_initial_data : ref;
  sl_batch : option ref
}.

(** One turn of the loop (lines 78-82). *)
Definition split_body (self : t) (batch_length : Z) (idx : Z) (batch : ref)
    (s : split_locals) : M split_locals :=
  let initial_data := if idx =? 0 then batch else sl_initial_data s in
  n <- len batch ;;
  (if n =? batch_size self then
     piece <- getslice batch (batch_length * process_index self)
                (batch_length * (process_index self + 1)) ;;
     yield piece
   else ret tt) ;;
  ret (SplitLocals initial_data (Some batch)).

(** Lines 75-82, over the batches [items]. *)
Definition split_loop (self : t) (batch_length : Z) (items : list (list Z))
    (initial_data : ref) : M split_locals :=
  for_enumerate 0 items (split_body self batch_length) (SplitLocals initial_data None).

(** Lines 84-90. *)
Definition split_tail (self : t) (batch_length : Z) (s : split_locals) : M unit :=
  if negb (drop_last self) then
    n0 <- len (sl_initial_data s) ;;
    if 0 <? n0 then
      batch <- read_var (sl_batch s) ;;
      nb <- len batch ;;
      if nb <? batch_size self then
        tile_while (Z.to_nat (batch_size self)) (sl_initial_data s) (batch_size self) ;;
        batch <- concat_lists batch (sl_initial_data s) ;;
        piece <- getslice batch (batch_length * process_index self)
                   (batch_length * (process_index self + 1)) ;;
        yield piece
      else ret tt
    else ret tt
  else ret tt.

Definition _iter_with_split (self : t) : M unit :=
  initial_data <- new_list [] ;;
  batch_length <- lift (py_floordiv (BatchSampler.batch_size (batch_sampler self))
                          (num_processes self)) ;;
  s <- split_loop self batch_length (BatchSampler.batches (batch_sampler self))
         initial_data ;;
  split_tail self batch_length s.

(** *** _iter_with_no_split *)

(** The local variables the [for] loop of [_iter_with_no_split] assigns;
    [initial_data] is bound once, before the loop. *)
Record no_split_locals : Type := NoSplitLocals {
  ns_batch_to_yield : ref;
  ns_idx : option Z;
  ns_batch : option ref
}.

(** One turn of the loop (lines 96-105). *)
Definition no_split_body (self : t) (initial_data : ref) (idx : Z) (batch : ref)
    (s : no_split_locals) : M no_split_locals :=
  (if negb (drop_last self) && (idx <? num_processes self)
   then iadd initial_data batch else ret tt) ;;
  r <- lift (py_mod idx (num_processes self)) ;;
  let batch_to_yield := if r =? process_index self then batch else ns_batch_to_yield s in
  r' <- lift (py_mod idx (num_processes self)) ;;
  (if r' =? num_processes self - 1 then
     nb <- len batch ;;
     if nb =? batch_size self then
       yield batch_to_yield ;;
       fresh <- new_list [] ;;
       ret (NoSplitLocals fresh (Some idx) (Some batch))
     else ret (NoSplitLocals batch_to_yield (Some idx) (Some batch))
   else ret (NoSplitLocals batch_to_yield (Some idx) (Some batch))).

(** Lines 95-105, over the batches [items]. *)
Definition no_split_loop (self : t) (items : list (list Z))
    (initial_data batch_to_yield : ref) : M no_split_locals :=
  for_enumerate 0 items (no_split_body self initial_data)
    (NoSplitLocals batch_to_yield None None).

(** The loop of lines 124-131. *)
Fixpoint wrap_while (fuel : nat) (self : t) (initial_data : ref) (idx : Z)
    (batch : ref) (cycle_index : Z) : M unit :=
  r <- lift (py_mod idx (num_processes self)) ;;
  again <- (if negb (r =? 0) then ret true
            else nb <- len batch ;; ret (0 <? nb)) ;;
  if again : bool then
    match fuel with
    | O => raise NonTermination
    | S fuel' =>
        nb <- len batch ;;
        let end_index := cycle_index + batch_size self - nb in
        piece <- getslice initial_data cycle_index end_index ;;
        iadd batch piece ;;
        r' <- lift (py_mod idx (num_processes self)) ;;
        (if r' =? process_index self then yield batch else ret tt) ;;
        batch' <- new_list [] ;;
        wrap_while fuel' self initial_data (idx + 1) batch' end_index
    end
  else ret tt.

(** Lines 107-131. *)
Definition no_split_tail (self : t) (initial_data : ref) (s : no_split_locals) : M unit :=
  if negb (drop_last self) then
    n0 <- len initial_data ;;
    if 0 <? n0 then
      nb <- len (ns_batch_to_yield s) ;;
      (if nb =? batch_size self then yield (ns_batch_to_yield s) else ret tt) ;;
      tile_while (Z.to_nat (num_processes self * batch_size self)) initial_data
        (num_processes self * batch_size self) ;;
      batch <- read_var (ns_batch s) ;;
      nb' <- len batch ;;
      st <- (if nb' =? batch_size self then
               fresh <- new_list [] ;;
               idx <- read_var (ns_idx s) ;;
               ret (fresh, Some (idx + 1))
             else ret (batch, ns_idx s)) ;;
      idx <- read_var (snd st) ;;
      wrap_while (S (Z.to_nat (Z.abs (num_processes self)))) self initial_data
        idx (fst st) 0
    else ret tt
  else ret tt.

Definition _iter_with_no_split (self : t) : M unit :=
  initial_data <- new_list [] ;;
  batch_to_yield <- new_list [] ;;
  s <- no_split_loop self (BatchSampler.batches (batch_sampler self))
         initial_data batch_to_yield ;;
  no_split_tail self initial_data s.

Definition __iter__ (self : t) : M unit :=
  if split_batches self then _iter_with_split self else _iter_with_no_split self.

End BatchSamplerShard.

(** What process [process_index] of [num_processes] receives from a pass:
    the shard is built by [__init__] and iterated to its end. *)
Definition shard_output (bs : BatchSampler.t) (num_processes process_index : Z)
    (split_batches : bool) : list (list Z) * option exn :=
  match BatchSamplerShard.__init__ bs num_processes process_index split_batches with
  | inl e => ([], Some e)
  | inr self => run_generator (BatchSamplerShard.__iter__ self)
  end.

(** ** Batch samplers of either kind *)

(** What a data loader draws index batches from: the batch sampler it was
    given, or a shard of it. *)
Definition sampler : Type := BatchSampler.t + BatchSamplerShard.t.

(** A pass over either kind of sampler. *)
Definition iter_sampler (s : sampler) : list (list Z) * option exn :=
  match s with
  | inl bs => (BatchSampler.batches bs, None)
  | inr shard => run_generator (BatchSamplerShard.__iter__ shard)
  end.

(** ** The options that [prepare_data_loader] forwards (lines 221-240) *)

(** The parameters that the new batch sampler takes care of (lines 227-236). *)
Definition ignore_kwargs : list string :=
  ["dataset"; "args"; "kwds"; "batch_size"; "shuffle"; "sampler"; "batch_sampler";
   "drop_last"]%string.

(** [getattr(obj, name, default)], [obj] being given by its attributes. *)
Definition getattr {V : Type} (obj : gmap string V) (name : string) (default : V) : V :=
  match obj !! name with
  | Some v => v
  | None => default
  end.

(** [pytorch_dl_params[k].default]: [pytorch_dl_params] is the ordered mapping
    [inspect.signature(DataLoader).parameters], each parameter name with its
    default; [None] is the [KeyError] of a name that is not a parameter. *)
Definition param_default {V : Type} (pytorch_dl_params : list (string * V)) (k : string)
    : option V :=
  snd <$> List.find (fun p => String.eqb (fst p) k) pytorch_dl_params.

(** The dict comprehension of lines 238-240, one parameter name at a time. *)
Definition kwargs_step {V : Type} (pytorch_dl_params : list (string * V))
    (dataloader : gmap string V) (kwargs : option (gmap string V)) (k : string)
    : option (gmap string V) :=
  match kwargs with
  | None => None
  | Some d =>
      if bool_decide (k ∈ ignore_kwargs) then Some d
      else
        match param_default pytorch_dl_params k with
        | Some dflt => Some (<[k := getattr dataloader k dflt]> d)
        | None => None
        end
  end.

(** Lines 222-240: the keyword arguments given to [DataLoaderShard] besides
    [device] and [batch_sampler]. *)
Definition forwarded_kwargs {V : Type} (pytorch_dl_params : list (string * V))
    (dataloader : gmap string V) : option (gmap string V) :=
  let pytorch_dl_kwargs := map fst pytorch_dl_params in
  foldl (kwargs_step pytorch_dl_params dataloader) (Some ∅) pytorch_dl_kwargs.

(** ** torch.utils.data.DataLoader, as far as this module reads it *)

(** [T] is the type of a batch and [V] the type of the values of the
    options.  [batch_size] is [None] when the loader was built from a batch
    sampler ([DataLoader(dataset, batch_sampler=...)]): torch sets it so, also
    for every [DataLoaderShard].  [attrs] holds the attributes of the loader
    that line 239 may read, by name. *)
Module DataLoader.

Record t (T V : Type) : Type := Build {
  dataset : list Z -> T;
  batch_size : option Z;
  batch_sampler : BatchSampler.t;
  attrs : gmap string V
}.
Arguments Build {T V}.
Arguments dataset {T V}.
Arguments batch_size {T V}.
Arguments batch_sampler {T V}.
Arguments attrs {T V}.

(** One pass.  [fetch] is the work of torch: the batch it builds for an
    index batch from the dataset, under the options of the loader. *)
Definition __iter__ {T V : Type} (fetch : (list Z -> T) -> gmap string V -> list Z -> T)
    (self : t T V) : list T * option exn :=
  (map (fetch (dataset self) (attrs self)) (BatchSampler.batches (batch_sampler self)), None).

End DataLoader.

(** [a % b] where [a] may be [None] (line 203). *)
Definition py_mod_opt (a : option Z) (b : Z) : result Z :=
  match a with
  | Some a => py_mod a b
  | None => inl TypeError
  end.

(** ** class DataLoaderShard and prepare_data_loader *)

Module DataLoaderShard.

(** [device] has type [D]; [kwargs] are the options handed on to
    [DataLoader.__init__] besides the batch sampler. *)
Record t (T D V : Type) : Type := Build {
  dataset : list Z -> T;
  device : option D;
  batch_sampler : sampler;
  kwargs : gmap string V
}.
Arguments Build {T D V}.
Arguments dataset {T D V}.
Arguments device {T D V}.
Arguments batch_sampler {T D V}.
Arguments kwargs {T D V}.

(** The arguments that the call of lines 241-246 gives by itself. *)
Definition explicit_arguments : list string := ["dataset"; "device"; "batch_sampler"]%string.

(** The call [DataLoaderShard(dataset, device=device, batch_sampler=batch_sampler,
    **kwargs)] and lines 135-137: an argument given twice is a [TypeError].
    The checks that [DataLoader.__init__] of torch makes on its options are
    code of torch, and are left out. *)
Definition __init__ {T D V : Type} (dataset : list Z -> T) (device : option D)
    (batch_sampler : sampler) (kwargs : gmap string V) : result (t T D V) :=
  if existsb (fun k => bool_decide (is_Some (kwargs !! k))) explicit_arguments
  then inl TypeError
  else inr (Build dataset device batch_sampler kwargs).

(** [synchronize_rng_states()] and [xm.mark_step()] act on the random
    generators and on the accelerator, not on the batches, and are not
    modelled; [fetch] is the work of [super().__iter__()], under the options the
    loader was built with; [send_to_device] is the function of
    [accelerate.utils]. *)
Definition __iter__ {T D V : Type} (fetch : (list Z -> T) -> gmap string V -> list Z -> T)
    (send_to_device : T -> D -> T) (self : t T D V) : list T * option exn :=
  let '(index_batches, e) := iter_sampler (batch_sampler self) in
  (map (fun index_batch =>
          let batch := fetch (dataset self) (kwargs self) index_batch in
          match device self with
          | None => batch
          | Some d => send_to_device batch d
          end)
       index_batches,
   e).

End DataLoaderShard.

(** The two fields of [AcceleratorState] that [prepare_data_loader] reads. *)
Record AcceleratorState : Type := {
  state_num_processes : Z;
  state_process_index : Z
}.

(** [pytorch_dl_params] is [inspect.signature(DataLoader).parameters]: it
    depends on the version of torch. *)
Definition prepare_data_loader {T D V : Type} (state : AcceleratorState)
    (pytorch_dl_params : list (string * V))
    (dataloader : DataLoader.t T V) (device : option D)
    (num_processes process_index : option Z) (split_batches put_on_device : bool)
    : result (DataLoaderShard.t T D V) :=
  let num_processes := default (state_num_processes state) num_processes in
  let process_index := default (state_process_index state) process_index in
  rbind
    (if split_batches then
       rbind (py_mod_opt (DataLoader.batch_size dataloader) num_processes)
         (fun r => if negb (r =? 0) then inl ValueError else inr tt)
     else inr tt)
    (fun _ =>
       rbind
         (if num_processes =? 1 then inr (inl (DataLoader.batch_sampler dataloader))
          else
            rbind (BatchSamplerShard.__init__ (DataLoader.batch_sampler dataloader)
                     num_processes process_index split_batches)
              (fun shard => inr (inr shard)))
         (fun new_batch_sampler : sampler =>
            rbind
              (match forwarded_kwargs pytorch_dl_params (DataLoader.attrs dataloader) with
               | Some kwargs => inr kwargs
               | None => inl KeyError
               end)
              (fun kwargs =>
                 DataLoaderShard.__init__ (DataLoader.dataset dataloader)
                   (if put_on_device then device else None)
                   new_batch_sampler kwargs))).

(** * Specification *)

(** ** What the generators yield *)

(** A batch is full when it has exactly [B] elements (line 80, line 103). *)
Definition is_full (B : Z) (b : list Z) : bool := Z.of_nat (length b) =? B.

(** The list the loop [while len(l) < bound: l += l] leaves in [l], the
    doubling done at most [fuel] times. *)
Fixpoint tile_fuel (fuel : nat) (bound : Z) (l : list Z) : list Z :=
  if Z.of_nat (length l) <? bound then
    match fuel with
    | O => l
    | S fuel' => tile_fuel fuel' bound (l ++ l)
    end
  else l.

Definition tiled (bound : Z) (l : list Z) : list Z :=
  tile_fuel (Z.to_nat bound) bound l.

(** The piece of [b] that process [w] of [n] takes in split mode
    (lines 76, 82 and 90). *)
Definition shard_slice (B n w : Z) (b : list Z) : list Z :=
  py_slice b (B `div` n * w) (B `div` n * (w + 1)).

(** What lines 85-90 yield after a pass over [up], when [drop_last] is
    false: nothing unless the first batch is non-empty and the last batch has
    fewer than [B] elements.  When the pass had one batch only, [batch] and
    [initial_data] are the same list, so that the tiling has changed [batch]
    as well. *)
Definition split_wraparound (B bl w : Z) (up : list (list Z)) : list (list Z) :=
  match head up, last up with
  | Some first, Some final =>
      if (0 <? Z.of_nat (length first)) && (Z.of_nat (length final) <? B) then
        [py_slice ((if (length up =? 1)%nat then tiled B first else final) ++ tiled B first)
           (bl * w) (bl * (w + 1))]
      else []
  | _, _ => []
  end.

(** The batch at position [w] of round [g], when every round has [n]
    batches; the empty list when the pass has no such batch. *)
Definition round_batch (n w : Z) (up : list (list Z)) (g : Z) : list Z :=
  default [] (up !! Z.to_nat (g * n + w)).

(** The number of full batches of a pass. *)
Definition full_count (B : Z) (up : list (list Z)) : Z :=
  Z.of_nat (length (List.filter (is_full B) up)).

(** The precondition of the class: every batch but the last one is full. *)
Definition uniform (B : Z) (up : list (list Z)) : Prop :=
  Forall (fun b => is_full B b = true) (removelast up).

(** What the turns of the loop of lines 124-131 yield once [batch] is
    empty, from index [idx] and [cycle_index = c]: the loop runs up to the
    next multiple of [n], cutting one piece of [B] elements off [buf] per turn,
    and the process keeps the piece cut at its own position. *)
Definition rest_yields (B n w : Z) (buf : list Z) (idx c : Z) : list (list Z) :=
  if idx `mod` n =? 0 then []
  else if idx `mod` n <=? w then
    [py_slice buf (c + (w - idx `mod` n) * B) (c + (w - idx `mod` n) * B + B)]
  else [].

(** What lines 108-131 yield after a pass over [up], when [drop_last] is
    false.  [held] is [batch_to_yield], [carry] what [batch] holds when the
    last loop starts (the last batch of the pass unless it was full), and the
    last loop starts at the index [Lf], the number of full batches. *)
Definition no_split_wraparound (B n w : Z) (up : list (list Z)) : list (list Z) :=
  let initial := concat (take (Z.to_nat n) up) in
  if 0 <? Z.of_nat (length initial) then
    let Lf := full_count B up in
    let held := round_batch n w up (Lf `div` n) in
    let buf := tiled (n * B) initial in
    let carry := match last up with
                 | Some l => if is_full B l then [] else l
                 | None => []
                 end in
    (if is_full B held then [held] else []) ++
    (if negb (Lf `mod` n =? 0) || (0 <? Z.of_nat (length carry)) then
       (if Lf `mod` n =? w
        then [carry ++ py_slice buf 0 (0 + B - Z.of_nat (length carry))] else []) ++
       rest_yields B n w buf (Lf + 1) (0 + B - Z.of_nat (length carry))
     else [])
  else [].

(** ** Positions, rounds and totals *)

(** The batch at position [p] of a pass. *)
Definition batch_at (up : list (list Z)) (p : Z) : list Z :=
  default [] (up !! Z.to_nat p).

(** Round [g] is complete in [pre] and its last batch (the one at position
    [g * n + n - 1]) is full. *)
Definition round_is_full (B n : Z) (pre : list (list Z)) (g : Z) : bool :=
  match pre !! Z.to_nat (g * n + (n - 1)) with
  | Some b => is_full B b
  | None => false
  end.

(** Position [p] belongs to process [w], and the round of [p] is complete
    in [pre] with a full last batch. *)
Definition handed_over (B n w : Z) (pre : list (list Z)) (p : Z) : bool :=
  (p `mod` n =? w) && round_is_full B n pre (p `div` n).

(** What the consumer has received from [_iter_with_no_split] at the time
    the loop of lines 95-105 has consumed the batches [pre] of the pass. *)
Definition yielded_during_pass (self : BatchSamplerShard.t) (pre : list (list Z))
    : list (list Z) * option exn :=
  run_generator
    (initial_data <- new_list [] ;;
     batch_to_yield <- new_list [] ;;
     _ <- BatchSamplerShard.no_split_loop self pre initial_data batch_to_yield ;;
     ret tt).

(** A pass as a batch sampler of batch size [B] produces it: every batch
    has between 1 and [B] elements, and every batch but the last has [B]. *)
Definition well_formed_pass (B : Z) (up : list (list Z)) : bool :=
  forallb (is_full B) (removelast up) &&
  forallb (fun b => (0 <? Z.of_nat (length b)) && (Z.of_nat (length b) <=? B)) up.

(** The number of batches that the [n] processes receive together. *)
Definition total_batches (bs : BatchSampler.t) (n : Z) (split_batches : bool) : Z :=
  foldr Z.add 0
    (map (fun w => Z.of_nat (length (fst (shard_output bs n w split_batches)))) (seqZ 0 n)).

(** ** Assertions about generators *)

(** [wp m Q st]: run from [st], [m] returns normally and its result and
    final state satisfy [Q]. *)
Definition wp {A : Type} (m : M A) (Q : A -> machine -> Prop) (st : machine) : Prop :=
  match m st with
  | (inr a, st') => Q a st'
  | (inl _, _) => False
  end.

(** What holds in [_iter_with_split] when the batches [pre] have been
    consumed, the loop having started in [st0] with [initial_data] bound to
    [init0]: one slice was yielded per full batch, no object that existed
    before was changed, [initial_data] is the first batch and [batch] the
    last one, and they are one object exactly when one batch was seen. *)
Definition split_inv (self : BatchSamplerShard.t) (bl : Z) (init0 : ref) (st0 : machine)
    (pre : list (list Z)) (s : BatchSamplerShard.split_locals) (st : machine) : Prop :=
  yielded st =
    yielded st0 ++
    map (fun b => py_slice b (bl * BatchSamplerShard.process_index self)
                    (bl * (BatchSamplerShard.process_index self + 1)))
        (List.filter (is_full (BatchSamplerShard.batch_size self)) pre) /\
  (exists ext, heap st = heap st0 ++ ext) /\
  match BatchSamplerShard.sl_batch s with
  | None => pre = [] /\ BatchSamplerShard.sl_initial_data s = init0
  | Some rb =>
      heap st !! rb = last pre /\
      heap st !! BatchSamplerShard.sl_initial_data s = head pre /\
      pre <> [] /\
      (rb = BatchSamplerShard.sl_initial_data s <-> length pre = 1%nat)
  end.

(** What holds in [_iter_with_no_split] when the batches [pre] have been
    consumed, the loop having started in [st0]: with [c] the number of
    complete rounds of full batches, the process was handed its batch of each
    of these rounds, [initial_data] is the first [n] batches chained unless
    [drop_last] is set, [batch_to_yield] is the batch of the process in round
    [c] if it has arrived, and [batch] is the last batch. *)
Definition no_split_inv (self : BatchSamplerShard.t) (init : ref) (st0 : machine)
    (pre : list (list Z)) (s : BatchSamplerShard.no_split_locals) (st : machine) : Prop :=
  let B := BatchSamplerShard.batch_size self in
  let n := BatchSamplerShard.num_processes self in
  let w := BatchSamplerShard.process_index self in
  let c := full_count B pre `div` n in
  yielded st = yielded st0 ++ map (round_batch n w pre) (seqZ 0 c) /\
  heap st !! init =
    Some (if BatchSamplerShard.drop_last self then [] else concat (take (Z.to_nat n) pre)) /\
  BatchSamplerShard.ns_batch_to_yield s <> init /\
  heap st !! BatchSamplerShard.ns_batch_to_yield s = Some (round_batch n w pre c) /\
  match BatchSamplerShard.ns_batch s with
  | None => pre = [] /\ BatchSamplerShard.ns_idx s = None
  | Some rb =>
      rb <> init /\ heap st !! rb = last pre /\ pre <> [] /\
      BatchSamplerShard.ns_idx s = Some (Z.of_nat (length pre) - 1)
  end.

(** [m] never ends with [ValueError]. *)
Definition no_value_error {A : Type} (m : M A) : Prop :=
  forall st, fst (m st) <> inl ValueError.

(** ** Where the yielded indices come from *)

(** Every list object and every yielded batch holds elements of [U] only. *)
Definition closed (U : list Z) (st : machine) : Prop :=
  Forall (fun v => v ⊆ U) (heap st) /\ Forall (fun v => v ⊆ U) (yielded st).

(** [m] keeps the machine closed, and its result satisfies [P]. *)
Definition keeps {A : Type} (U : list Z) (m : M A) (P : A -> Prop) : Prop :=
  forall st, closed U st ->
    closed U (snd (m st)) /\ forall a, fst (m st) = inr a -> P a.

(** ** Any pass, any process index *)

(** The positions of [up] that close a round with a full batch: the turns
    of the loop of lines 95-105 at which line 104 is reached. *)
Definition closing_positions (B n : Z) (up : list (list Z)) : list Z :=
  List.filter (handed_over B n (n - 1) up) (seqZ 0 (Z.of_nat (length up))).

(** What holds in [_iter_with_no_split] when the batches [pre] have been
    consumed, whatever the sizes of the batches and the process index are:
    the local variables are bound to objects of the store, [initial_data] is
    still empty when no batch was seen, and, when the process index is not in
    [0, n), [batch_to_yield] is an empty list of its own and one empty batch
    was yielded for every round that a full batch closed. *)
Definition no_split_safe (self : BatchSamplerShard.t) (init : ref) (st0 : machine)
    (pre : list (list Z)) (s : BatchSamplerShard.no_split_locals) (st : machine) : Prop :=
  let B := BatchSamplerShard.batch_size self in
  let n := BatchSamplerShard.num_processes self in
  let w := BatchSamplerShard.process_index self in
  (init < length (heap st))%nat /\
  (pre = [] -> heap st !! init = Some []) /\
  (BatchSamplerShard.ns_batch_to_yield s < length (heap st))%nat /\
  (~ (0 <= w < n) ->
   heap st !! BatchSamplerShard.ns_batch_to_yield s = Some [] /\
   BatchSamplerShard.ns_batch_to_yield s <> init /\
   yielded st = yielded st0 ++ map (fun _ => []) (closing_positions B n pre)) /\
  match BatchSamplerShard.ns_batch s with
  | None => pre = []
  | Some rb => (rb < length (heap st))%nat /\ exists i, BatchSamplerShard.ns_idx s = Some i
  end.

(** ** The shards, read side by side *)

(** The batches number [g] of the processes [0 .. n - 1], chained in this
    order. *)
Definition round_of_shards (bs : BatchSampler.t) (n : Z) (split_batches : bool) (g : Z)
    : list Z :=
  concat (map (fun w => default [] (fst (shard_output bs n w split_batches) !! Z.to_nat g))
              (seqZ 0 n)).

(** The rounds chained, as many as process 0 receives batches. *)
Definition shards_side_by_side (bs : BatchSampler.t) (n : Z) (split_batches : bool) : list Z :=
  concat (map (round_of_shards bs n split_batches)
              (seqZ 0 (Z.of_nat (length (fst (shard_output bs n 0 split_batches)))))).

(** * Proofs *)

(** ** Rules for [wp] *)

Lemma wp_bind {A B : Type} (m : M A) (k : A -> M B) Q st :
  wp m (fun a st' => wp (k a) Q st') st -> wp (bind m k) Q st.
Proof.
  unfold wp, bind. destruct (m st) as [[e|a] st']; [tauto|]. auto.
Qed.

Lemma wp_ret {A : Type} (a : A) (Q : A -> machine -> Prop) st :
  Q a st -> wp (ret a) Q st.
Proof. auto. Qed.

Lemma wp_lift {A : Type} (a : A) (Q : A -> machine -> Prop) st :
  Q a st -> wp (lift (inr a)) Q st.
Proof. auto. Qed.

Lemma wp_mono {A : Type} (m : M A) (Q Q' : A -> machine -> Prop) st :
  wp m Q st -> (forall a st', Q a st' -> Q' a st') -> wp m Q' st.
Proof.
  unfold wp. destruct (m st) as [[e|a] st']; [tauto|]. auto.
Qed.

Lemma wp_new_list v (Q : ref -> machine -> Prop) st :
  Q (length (heap st)) (Machine (heap st ++ [v]) (yielded st)) -> wp (new_list v) Q st.
Proof. auto. Qed.

Lemma wp_load r v (Q : list Z -> machine -> Prop) st :
  heap st !! r = Some v -> Q v st -> wp (load r) Q st.
Proof. unfold wp, load. intros ->. auto. Qed.

Lemma wp_len r v (Q : Z -> machine -> Prop) st :
  heap st !! r = Some v -> Q (Z.of_nat (length v)) st -> wp (len r) Q st.
Proof.
  intros Hr HQ. unfold len. apply wp_bind. eapply wp_load; [exact Hr|]. by apply wp_ret.
Qed.

Lemma wp_iadd r o v w (Q : unit -> machine -> Prop) st :
  heap st !! r = Some v -> heap st !! o = Some w ->
  Q tt (Machine (<[r := v ++ w]> (heap st)) (yielded st)) -> wp (iadd r o) Q st.
Proof.
  intros Hr Ho HQ. unfold iadd. apply wp_bind. eapply wp_load; [exact Hr|].
  apply wp_bind. eapply wp_load; [exact Ho|]. exact HQ.
Qed.

Lemma wp_concat_lists a b v w (Q : ref -> machine -> Prop) st :
  heap st !! a = Some v -> heap st !! b = Some w ->
  Q (length (heap st)) (Machine (heap st ++ [v ++ w]) (yielded st)) ->
  wp (concat_lists a b) Q st.
Proof.
  intros Ha Hb HQ. unfold concat_lists. apply wp_bind. eapply wp_load; [exact Ha|].
  apply wp_bind. eapply wp_load; [exact Hb|]. by apply wp_new_list.
Qed.

Lemma wp_getslice r v a b (Q : ref -> machine -> Prop) st :
  heap st !! r = Some v ->
  Q (length (heap st)) (Machine (heap st ++ [py_slice v a b]) (yielded st)) ->
  wp (getslice r a b) Q st.
Proof.
  intros Hr HQ. unfold getslice. apply wp_bind. eapply wp_load; [exact Hr|].
  by apply wp_new_list.
Qed.

Lemma wp_yield r v (Q : unit -> machine -> Prop) st :
  heap st !! r = Some v ->
  Q tt (Machine (heap st) (yielded st ++ [v])) -> wp (yield r) Q st.
Proof.
  intros Hr HQ. unfold yield. apply wp_bind. eapply wp_load; [exact Hr|]. exact HQ.
Qed.

Lemma wp_run_generator (g : M unit) ys :
  wp g (fun _ st => yielded st = ys) (Machine [] []) -> run_generator g = (ys, None).
Proof.
  unfold wp, run_generator. destruct (g (Machine [] [])) as [[e|[]] st]; [tauto|].
  by intros ->.
Qed.

(** The loop splits at any point of the sequence it runs over. *)
Lemma for_enumerate_app {S : Type} (l1 l2 : list (list Z)) body idx (s : S) st :
  for_enumerate idx (l1 ++ l2) body s st =
  bind (for_enumerate idx l1 body s)
       (fun s' => for_enumerate (idx + Z.of_nat (length l1)) l2 body s') st.
Proof.
  revert idx s st. induction l1 as [|v l1 IH]; intros idx s st.
  - simpl. unfold bind, ret. by rewrite Z.add_0_r.
  - simpl. unfold bind, new_list. simpl.
    destruct (body idx _ s _) as [[e|s'] st']; [done|].
    rewrite IH. unfold bind.
    by replace (idx + 1 + Z.of_nat (length l1)) with (idx + Z.pos (Pos.of_succ_nat (length l1))) by lia.
Qed.

(** Invariant rule for [for_enumerate]: [I pre s st] is what holds when the
    batches [pre] have been consumed. *)
Lemma wp_for_enumerate {S : Type} (I : list (list Z) -> S -> machine -> Prop)
    (items : list (list Z)) (body : Z -> ref -> S -> M S) (s0 : S) st0 :
  I [] s0 st0 ->
  (forall pre b suf s st,
     items = pre ++ b :: suf -> I pre s st ->
     wp (batch <- new_list b ;; body (Z.of_nat (length pre)) batch s) (I (pre ++ [b])) st) ->
  wp (for_enumerate 0 items body s0) (I items) st0.
Proof.
  intros H0 Hstep.
  assert (forall pre, (exists suf, items = pre ++ suf) ->
            wp (for_enumerate 0 pre body s0) (I pre) st0) as Hall.
  { induction pre as [|b pre IH] using rev_ind; intros [suf Hsuf].
    - simpl. by apply wp_ret.
    - rewrite <- app_assoc in Hsuf. simpl in Hsuf.
      unfold wp. rewrite for_enumerate_app. fold (wp (bind (for_enumerate 0 pre body s0)
        (fun s' => for_enumerate (0 + Z.of_nat (length pre)) [b] body s')) (I (pre ++ [b])) st0).
      apply wp_bind. eapply wp_mono; [apply IH; eauto|].
      intros s st HI. simpl.
      specialize (Hstep pre b suf s st Hsuf HI).
      unfold wp, bind in *. simpl in *.
      destruct (body _ _ s _) as [[e|s'] st']; [done|]. done. }
  apply Hall. exists []. by rewrite app_nil_r.
Qed.

(** ** Tiling *)

Lemma tile_fuel_length fuel bound l :
  bound <= Z.of_nat (length l) \/
    (0 < Z.of_nat (length l) /\ bound - Z.of_nat (length l) <= Z.of_nat fuel) ->
  bound <= Z.of_nat (length (tile_fuel fuel bound l)).
Proof.
  revert l. induction fuel as [|fuel IH]; intros l H; simpl.
  - destruct (Z.ltb_spec (Z.of_nat (length l)) bound); lia.
  - destruct (Z.ltb_spec (Z.of_nat (length l)) bound); [|lia].
    apply IH. rewrite length_app. lia.
Qed.

Lemma tiled_length bound l : l <> [] -> bound <= Z.of_nat (length (tiled bound l)).
Proof.
  intros Hl. apply tile_fuel_length. destruct l; [done|]. simpl length. lia.
Qed.

(** Doubling keeps the list a repetition of the one it started from. *)
Lemma tile_fuel_commutes fuel bound l s :
  s ++ l = l ++ s -> s ++ tile_fuel fuel bound l = tile_fuel fuel bound l ++ s.
Proof.
  revert l. induction fuel as [|fuel IH]; intros l H; simpl.
  - by destruct (_ <? _).
  - destruct (_ <? _); [|done]. apply IH.
    by rewrite app_assoc, H, <- app_assoc, H, app_assoc.
Qed.

Lemma mod_double (i m : nat) :
  (0 < m)%nat ->
  (i mod (m + m) = i mod m \/ i mod (m + m) = m + i mod m)%nat.
Proof.
  intros Hm. replace (m + m)%nat with (m * 2)%nat by lia.
  rewrite Nat.Div0.mod_mul_r.
  pose proof (Nat.mod_upper_bound (i / m) 2).
  destruct ((i / m) mod 2)%nat as [|[|c]]; lia.
Qed.

Lemma tile_fuel_cycles fuel bound l (i : nat) :
  (i < length (tile_fuel fuel bound l))%nat ->
  tile_fuel fuel bound l !! i = l !! (i mod length l)%nat.
Proof.
  revert l i. induction fuel as [|fuel IH]; intros l i Hi; simpl in *.
  - destruct (_ <? _); by rewrite Nat.mod_small.
  - destruct (_ <? _); [|by rewrite Nat.mod_small].
    rewrite IH by done. rewrite length_app.
    destruct l as [|x l']; [done|].
    set (l := x :: l') in *.
    assert (0 < length l)%nat as Hpos by (simpl; lia).
    pose proof (Nat.mod_upper_bound i (length l)).
    destruct (mod_double i (length l) Hpos) as [-> | ->].
    + rewrite lookup_app_l by lia. done.
    + rewrite lookup_app_r by lia. f_equal. lia.
Qed.

Lemma wp_tile_while fuel r bound v (Q : unit -> machine -> Prop) st :
  heap st !! r = Some v ->
  bound <= Z.of_nat (length v) \/
    (0 < Z.of_nat (length v) /\ bound - Z.of_nat (length v) <= Z.of_nat fuel) ->
  Q tt (Machine (<[r := tile_fuel fuel bound v]> (heap st)) (yielded st)) ->
  wp (tile_while fuel r bound) Q st.
Proof.
  revert v st. induction fuel as [|fuel IH]; intros v st Hr Hf HQ; simpl in *.
  - apply wp_bind. eapply wp_len; [exact Hr|].
    destruct (Z.ltb_spec (Z.of_nat (length v)) bound); [lia|].
    apply wp_ret. rewrite list_insert_id in HQ by done. by destruct st.
  - apply wp_bind. eapply wp_len; [exact Hr|].
    destruct (Z.ltb_spec (Z.of_nat (length v)) bound).
    + apply wp_bind. eapply wp_iadd; [exact Hr|exact Hr|].
      assert (r < length (heap st))%nat by (by eapply lookup_lt_Some).
      eapply IH; simpl.
      * by apply list_lookup_insert_eq.
      * rewrite length_app. lia.
      * by rewrite list_insert_insert_eq.
    + apply wp_ret. rewrite list_insert_id in HQ by done. by destruct st.
Qed.

(** ** [_iter_with_split] *)

Lemma wp_split_loop self bl items init0 st0 :
  wp (BatchSamplerShard.split_loop self bl items init0)
     (split_inv self bl init0 st0 items) st0.
Proof.
  unfold BatchSamplerShard.split_loop. apply wp_for_enumerate.
  - repeat split; simpl; [by rewrite app_nil_r | by exists []; rewrite app_nil_r].
  - intros pre b suf s st _ (Hy & [ext Hext] & Hloc).
    apply wp_bind, wp_new_list. unfold BatchSamplerShard.split_body.
    set (r := length (heap st)).
    assert (forall q v, heap st !! q = Some v -> (heap st ++ [b]) !! q = Some v) as Hold.
    { intros q v Hq. rewrite lookup_app_l; [done|]. by eapply lookup_lt_Some. }
    assert ((heap st ++ [b]) !! r = Some b) as Hr.
    { rewrite lookup_app_r by done. by replace (r - length (heap st))%nat with 0%nat by lia. }
    assert (match pre with
            | [] => (Z.of_nat (length pre) =? 0) = true
            | f :: _ => (Z.of_nat (length pre) =? 0) = false /\
                        heap st !! BatchSamplerShard.sl_initial_data s = Some f
            end) as Hfirst.
    { destruct pre as [|f pre']; [done|]. split; [simpl; lia|].
      destruct (BatchSamplerShard.sl_batch s); [|by destruct Hloc]. by destruct Hloc as (_ & -> & _). }
    apply wp_bind. eapply wp_len; [exact Hr|]. fold (is_full (BatchSamplerShard.batch_size self) b).
    assert (forall st', heap st' = heap st ++ [b] ++ (if is_full (BatchSamplerShard.batch_size self) b
                                     then [py_slice b (bl * BatchSamplerShard.process_index self)
                                             (bl * (BatchSamplerShard.process_index self + 1))] else []) ->
              yielded st' = yielded st0 ++
                map (fun b => py_slice b (bl * BatchSamplerShard.process_index self)
                                (bl * (BatchSamplerShard.process_index self + 1)))
                    (List.filter (is_full (BatchSamplerShard.batch_size self)) (pre ++ [b])) ->
              split_inv self bl init0 st0 (pre ++ [b])
                (BatchSamplerShard.SplitLocals
                   (if Z.of_nat (length pre) =? 0 then r else BatchSamplerShard.sl_initial_data s)
                   (Some r)) st') as Hpost.
    { intros st' Hh Hy'. split; [done|]. split.
      { rewrite Hh, Hext, <- app_assoc. eauto. }
      simpl. rewrite Hh, last_snoc, length_app. simpl length.
      assert ((heap st ++ [b] ++ (if is_full (BatchSamplerShard.batch_size self) b
                                     then [py_slice b (bl * BatchSamplerShard.process_index self)
                                             (bl * (BatchSamplerShard.process_index self + 1))] else [])) !! r
              = Some b) as Hr'.
      { rewrite app_assoc. rewrite lookup_app_l; [done|]. rewrite length_app. simpl. lia. }
      split; [done|]. destruct pre as [|f pre'].
      - rewrite Hfirst. simpl. repeat split; done.
      - destruct Hfirst as [-> Hf]. simpl head. split.
        + rewrite lookup_app_l; [done|]. by eapply lookup_lt_Some.
        + split; [done|]. apply lookup_lt_Some in Hf. simpl length. subst r. lia. }
    destruct (is_full (BatchSamplerShard.batch_size self) b) eqn:Hfull.
    + apply wp_bind. apply wp_bind. eapply wp_getslice; [exact Hr|]. simpl.
      eapply wp_yield; simpl.
      { rewrite lookup_app_r; rewrite length_app; simpl; [|lia].
        by rewrite Nat.sub_diag. }
      apply wp_ret. apply Hpost; simpl.
      * by rewrite <- app_assoc.
      * rewrite Hy, List.filter_app, map_app. simpl. rewrite Hfull. simpl.
        by rewrite <- app_assoc.
    + apply wp_bind, wp_ret, wp_ret. apply Hpost; simpl.
      * done.
      * rewrite Hy, List.filter_app, map_app. simpl. rewrite Hfull. simpl.
        by rewrite app_nil_r.
Qed.

Lemma wp_split_tail self bl items init0 st0 s st :
  heap st0 !! init0 = Some [] ->
  split_inv self bl init0 st0 items s st ->
  wp (BatchSamplerShard.split_tail self bl s)
     (fun _ st' =>
        yielded st' =
          yielded st ++
          (if BatchSamplerShard.drop_last self then []
           else split_wraparound (BatchSamplerShard.batch_size self) bl
                  (BatchSamplerShard.process_index self) items)) st.
Proof.
  intros Hinit0 (Hy & [ext Hext] & Hloc).
  unfold BatchSamplerShard.split_tail, split_wraparound.
  destruct (BatchSamplerShard.drop_last self); simpl.
  { apply wp_ret. by rewrite app_nil_r. }
  destruct (BatchSamplerShard.sl_batch s) as [rb|] eqn:Hb.
  - destruct Hloc as (Hlast & Hhead & Hne & Halias).
    destruct (head items) as [first|] eqn:Hfirst; [|by destruct items].
    destruct (last items) as [final|] eqn:Hfinal; [|by apply last_None in Hfinal].
    apply wp_bind. eapply wp_len; [exact Hhead|].
    destruct (0 <? Z.of_nat (length first)) eqn:Hpos; simpl;
      [|apply wp_ret; by rewrite app_nil_r].
    apply wp_bind, wp_ret. apply wp_bind. eapply wp_len; [exact Hlast|].
    destruct (Z.of_nat (length final) <? BatchSamplerShard.batch_size self) eqn:Hshort;
      [|apply wp_ret; by rewrite app_nil_r].
    apply wp_bind. eapply wp_tile_while; [exact Hhead|lia|].
    fold (tiled (BatchSamplerShard.batch_size self) first).
    set (T := tiled (BatchSamplerShard.batch_size self) first).
    pose proof (lookup_lt_Some _ _ _ Hhead) as Hlt.
    apply wp_bind.
    eapply (wp_concat_lists _ _ (if (length items =? 1)%nat then T else final) T);
      simpl.
    { destruct (Nat.eqb_spec (length items) 1) as [E|E].
      - apply Halias in E. subst rb. by apply list_lookup_insert_eq.
      - rewrite list_lookup_insert_ne; [done|]. intros E'. apply E, Halias. done. }
    { by apply list_lookup_insert_eq. }
    apply wp_bind. eapply wp_getslice; simpl.
    { rewrite lookup_app_r by done. by rewrite Nat.sub_diag. }
    eapply wp_yield; simpl.
    { rewrite lookup_app_r; rewrite length_app; simpl; [|lia]. by rewrite Nat.sub_diag. }
    done.
  - destruct Hloc as [-> Hi]. simpl. rewrite Hi.
    apply wp_bind. eapply wp_len.
    { rewrite Hext. rewrite lookup_app_l; [exact Hinit0|]. by eapply lookup_lt_Some. }
    simpl. apply wp_ret. by rewrite app_nil_r.
Qed.

(** The whole of [_iter_with_split], for a shard as [__init__] builds it. *)
Lemma iter_with_split_spec bs n w :
  n <> 0 ->
  run_generator
    (BatchSamplerShard._iter_with_split
       (BatchSamplerShard.Build bs n w true (BatchSampler.batch_size bs)
          (BatchSampler.drop_last bs))) =
  (map (shard_slice (BatchSampler.batch_size bs) n w)
       (List.filter (is_full (BatchSampler.batch_size bs)) (BatchSampler.batches bs)) ++
   (if BatchSampler.drop_last bs then []
    else split_wraparound (BatchSampler.batch_size bs) (BatchSampler.batch_size bs `div` n) w
           (BatchSampler.batches bs)),
   None).
Proof.
  intros Hn. apply wp_run_generator. unfold BatchSamplerShard._iter_with_split.
  apply wp_bind, wp_new_list. simpl.
  unfold py_floordiv. destruct (Z.eqb_spec n 0) as [|_]; [done|].
  apply wp_bind, wp_lift. apply wp_bind.
  eapply wp_mono; [apply wp_split_loop|].
  intros s st Hinv. eapply wp_mono; [eapply wp_split_tail; [|exact Hinv]; done|].
  simpl. intros _ st' ->. destruct Hinv as (-> & _). simpl. done.
Qed.

(** ** The first loop of [_iter_with_no_split] *)

Lemma uniform_prefix B pre b suf :
  uniform B (pre ++ b :: suf) -> Forall (fun b => is_full B b = true) pre.
Proof.
  unfold uniform. rewrite removelast_app by done. by intros [H _]%Forall_app.
Qed.

Lemma full_count_all B pre :
  Forall (fun b => is_full B b = true) pre -> full_count B pre = Z.of_nat (length pre).
Proof.
  unfold full_count. induction 1 as [|b pre Hb _ IH]; [done|].
  simpl. rewrite Hb. simpl. lia.
Qed.

Lemma full_count_snoc B pre b :
  full_count B (pre ++ [b]) = full_count B pre + (if is_full B b then 1 else 0).
Proof.
  unfold full_count. rewrite List.filter_app, length_app. simpl.
  destruct (is_full B b); simpl; lia.
Qed.

Lemma div_succ (k n : Z) :
  0 < n -> (k + 1) `div` n = if k `mod` n =? n - 1 then k `div` n + 1 else k `div` n.
Proof.
  intros Hn. pose proof (Z.div_mod k n ltac:(lia)) as Hk.
  pose proof (Z.mod_pos_bound k n Hn) as Hr.
  destruct (Z.eqb_spec (k `mod` n) (n - 1)) as [E|E]; symmetry.
  - apply (Z.div_unique _ _ _ 0); lia.
  - apply (Z.div_unique _ _ _ (k `mod` n + 1)); lia.
Qed.

Lemma round_batch_snoc_old n w pre b g :
  0 <= g * n + w < Z.of_nat (length pre) ->
  round_batch n w (pre ++ [b]) g = round_batch n w pre g.
Proof. intros H. unfold round_batch. rewrite lookup_app_l by lia. done. Qed.

Lemma round_batch_snoc_new n w pre b g :
  g * n + w = Z.of_nat (length pre) -> round_batch n w (pre ++ [b]) g = b.
Proof.
  intros H. unfold round_batch. rewrite lookup_app_r by lia.
  by replace (Z.to_nat (g * n + w) - length pre)%nat with 0%nat by lia.
Qed.

Lemma round_batch_beyond n w pre g :
  Z.of_nat (length pre) <= g * n + w -> round_batch n w pre g = [].
Proof. intros H. unfold round_batch. rewrite lookup_ge_None_2 by lia. done. Qed.

Lemma wp_no_split_loop self items init bty st0 :
  let n := BatchSamplerShard.num_processes self in
  let w := BatchSamplerShard.process_index self in
  1 <= n -> 0 <= w < n ->
  uniform (BatchSamplerShard.batch_size self) items ->
  heap st0 !! init = Some [] -> heap st0 !! bty = Some [] -> bty <> init ->
  wp (BatchSamplerShard.no_split_loop self items init bty)
     (no_split_inv self init st0 items) st0.
Proof.
  intros n w Hn Hw Hun Hinit Hbty Hne.
  unfold BatchSamplerShard.no_split_loop. apply wp_for_enumerate.
  - unfold no_split_inv. fold n w. simpl.
    change (full_count (BatchSamplerShard.batch_size self) []) with 0.
    rewrite Z.div_0_l by lia. simpl.
    rewrite app_nil_r, take_nil. simpl.
    destruct (BatchSamplerShard.drop_last self); done.
  - intros pre b suf s st Hitems (Hy & Hi & Hbne & Hb & Hloc).
    fold n w in Hy, Hi, Hb.
    subst items. apply uniform_prefix in Hun.
    pose proof (full_count_all _ _ Hun) as Hfc. rewrite Hfc in Hy, Hb.
    set (B := BatchSamplerShard.batch_size self) in *.
    set (k := Z.of_nat (length pre)) in *.
    assert (k = Z.of_nat (length pre)) as Hkk by done.
    pose proof (Z.div_mod k n ltac:(lia)) as Hk.
    pose proof (Z.mod_pos_bound k n ltac:(lia)) as Hr.
    assert (0 <= k `div` n) as Hq0 by (apply Z.div_pos; lia).
    set (q := k `div` n) in *. set (r := k `mod` n) in *.
    apply wp_bind, wp_new_list. unfold BatchSamplerShard.no_split_body.
    fold n w B k. set (rb := length (heap st)).
    pose proof (lookup_lt_Some _ _ _ Hi) as Hilt.
    pose proof (lookup_lt_Some _ _ _ Hb) as Hblt.
    (* the accumulation of [initial_data] *)
    set (I := if BatchSamplerShard.drop_last self then []
              else concat (take (Z.to_nat n) pre)) in *.
    set (I' := if BatchSamplerShard.drop_last self then []
               else concat (take (Z.to_nat n) (pre ++ [b]))).
    apply wp_bind.
    apply (wp_mono _ (fun _ st1 =>
             yielded st1 = yielded st /\ length (heap st1) = S rb /\
             heap st1 !! init = Some I' /\ heap st1 !! rb = Some b /\
             heap st1 !! BatchSamplerShard.ns_batch_to_yield s = Some (round_batch n w pre q))).
    { destruct (negb (BatchSamplerShard.drop_last self) && (k <? n)) eqn:Hacc.
      - apply andb_prop in Hacc as [Hd Hlt]. apply Z.ltb_lt in Hlt.
        eapply (wp_iadd _ _ I b); simpl.
        + rewrite lookup_app_l by done. done.
        + rewrite lookup_app_r by done. by rewrite Nat.sub_diag.
        + rewrite length_insert, length_app. simpl. split; [done|]. split; [lia|]. split.
          * rewrite list_lookup_insert_eq by (rewrite length_app; lia). f_equal.
            subst I I'. destruct (BatchSamplerShard.drop_last self); [done|].
            rewrite take_app_ge by lia. rewrite take_ge by lia.
            rewrite (take_ge [b]) by (simpl; lia).
            rewrite concat_app. simpl. by rewrite app_nil_r.
          * rewrite !list_lookup_insert_ne by (subst rb; lia).
            rewrite lookup_app_r by done. rewrite Nat.sub_diag.
            rewrite lookup_app_l by done. done.
      - apply wp_ret. simpl. rewrite length_app. simpl. split; [done|]. split; [lia|]. split.
        + rewrite lookup_app_l by done. rewrite Hi. f_equal. subst I I'.
          destruct (BatchSamplerShard.drop_last self); [done|]. simpl in Hacc.
          apply Z.ltb_ge in Hacc. by rewrite take_app_le by lia.
        + rewrite lookup_app_r by done. rewrite Nat.sub_diag.
          rewrite lookup_app_l by done. done. }
    intros _ st1 (Hy1 & Hlen1 & Hi1 & Hrb1 & Hb1).
    unfold py_mod. destruct (Z.eqb_spec n 0) as [|_]; [lia|].
    apply wp_bind, wp_lift. apply wp_bind, wp_lift. fold r.
    set (bty1 := if r =? w then rb else BatchSamplerShard.ns_batch_to_yield s).
    assert (bty1 <> init) as Hne1 by (subst bty1; destruct (r =? w); lia).
    assert (heap st1 !! bty1 = Some (round_batch n w (pre ++ [b]) q)) as Hbty1.
    { subst bty1. destruct (Z.eqb_spec r w) as [E|E].
      - rewrite round_batch_snoc_new by lia. done.
      - rewrite Hb1. f_equal. destruct (decide (w < r)).
        + by rewrite round_batch_snoc_old by lia.
        + rewrite !round_batch_beyond; [done| |]; rewrite ?length_app; simpl; lia. }
    assert (forall st2 bty2 ys,
              yielded st2 = yielded st ++ ys ->
              (exists ext, heap st2 = heap st1 ++ ext) ->
              heap st2 !! bty2 = Some (round_batch n w (pre ++ [b])
                                         (full_count B (pre ++ [b]) `div` n)) ->
              bty2 <> init ->
              map (round_batch n w (pre ++ [b])) (seqZ 0 (full_count B (pre ++ [b]) `div` n)) =
                map (round_batch n w pre) (seqZ 0 q) ++ ys ->
              no_split_inv self init st0 (pre ++ [b])
                (BatchSamplerShard.NoSplitLocals bty2 (Some k) (Some rb)) st2) as Hpost.
    { intros st2 bty2 ys Hy2 [ext Hext] Hb2 Hne2 Hmap. unfold no_split_inv. fold B n w. simpl.
      split; [by rewrite Hy2, Hy, Hmap, app_assoc|].
      split; [rewrite Hext, lookup_app_l by (by eapply lookup_lt_Some); done|].
      split; [done|]. split; [done|]. split; [subst rb; lia|].
      split; [rewrite Hext, lookup_app_l by (by eapply lookup_lt_Some); by rewrite last_snoc|].
      split; [by destruct pre|]. rewrite length_app. simpl. f_equal. lia. }
    assert (map (round_batch n w (pre ++ [b])) (seqZ 0 q) =
            map (round_batch n w pre) (seqZ 0 q)) as Hmapq.
    { apply map_ext_in. intros g Hg%list_elem_of_In%elem_of_seqZ.
      apply round_batch_snoc_old. nia. }
    rewrite full_count_snoc, Hfc in Hpost. fold k in Hpost.
    destruct (Z.eqb_spec r (n - 1)) as [Hend|Hend].
    + apply wp_bind. eapply wp_len; [exact Hrb1|]. fold (is_full B b).
      destruct (is_full B b) eqn:Hfull.
      * rewrite div_succ in Hpost by lia. fold r q in Hpost.
        rewrite (proj2 (Z.eqb_eq r (n - 1)) Hend) in Hpost.
        apply wp_bind. eapply wp_yield; [exact Hbty1|].
        apply wp_bind, wp_new_list, wp_ret. simpl.
        apply (Hpost _ _ [round_batch n w (pre ++ [b]) q]); simpl.
        -- by rewrite Hy1.
        -- eauto.
        -- rewrite lookup_app_r by done. rewrite Nat.sub_diag. simpl. f_equal.
           symmetry. apply round_batch_beyond. rewrite length_app. simpl. lia.
        -- lia.
        -- replace (q + 1) with (Z.of_nat (S (Z.to_nat q))) by lia.
           rewrite seqZ_S, map_app. replace (Z.of_nat (Z.to_nat q)) with q by lia.
           simpl. by rewrite Hmapq.
      * apply wp_ret. rewrite Z.add_0_r in Hpost. fold q in Hpost.
        apply (Hpost _ _ []); rewrite ?app_nil_r; try done.
        by exists []; rewrite app_nil_r.
    + apply wp_ret.
      assert ((k + (if is_full B b then 1 else 0)) `div` n = q) as Hq.
      { destruct (is_full B b); [|by rewrite Z.add_0_r].
        rewrite div_succ by lia. fold r q. by destruct (Z.eqb_spec r (n - 1)). }
      rewrite Hq in Hpost.
      apply (Hpost _ _ []); rewrite ?app_nil_r; try done.
      by exists []; rewrite app_nil_r.
Qed.

(** ** The last loop of [_iter_with_no_split] *)

Lemma mod_succ (k n : Z) :
  0 < n -> (k + 1) `mod` n = if k `mod` n =? n - 1 then 0 else k `mod` n + 1.
Proof.
  intros Hn. pose proof (Z.div_mod k n ltac:(lia)) as Hk.
  pose proof (Z.mod_pos_bound k n Hn) as Hr.
  destruct (Z.eqb_spec (k `mod` n) (n - 1)) as [E|E]; symmetry.
  - apply (Z.mod_unique _ _ (k `div` n + 1)); lia.
  - apply (Z.mod_unique _ _ (k `div` n)); lia.
Qed.

(** One turn of the loop. *)
Lemma wp_wrap_step self init buf fuel idx batch bv c (Q : unit -> machine -> Prop) st :
  let B := BatchSamplerShard.batch_size self in
  let n := BatchSamplerShard.num_processes self in
  let w := BatchSamplerShard.process_index self in
  1 <= n ->
  heap st !! init = Some buf -> heap st !! batch = Some bv -> batch <> init ->
  negb (idx `mod` n =? 0) || (0 <? Z.of_nat (length bv)) = true ->
  (forall st1 batch',
     heap st1 !! init = Some buf -> heap st1 !! batch' = Some [] -> batch' <> init ->
     yielded st1 =
       yielded st ++
       (if idx `mod` n =? w
        then [bv ++ py_slice buf c (c + B - Z.of_nat (length bv))] else []) ->
     wp (BatchSamplerShard.wrap_while fuel self init (idx + 1) batch'
           (c + B - Z.of_nat (length bv))) Q st1) ->
  wp (BatchSamplerShard.wrap_while (S fuel) self init idx batch c) Q st.
Proof.
  intros B n w Hn Hi Hb Hne Hagain Hnext. simpl. fold B n w.
  unfold py_mod. destruct (Z.eqb_spec n 0) as [|_]; [lia|].
  apply wp_bind, wp_lift. apply wp_bind.
  apply (wp_mono _ (fun again st1 => again = true /\ st1 = st)).
  { destruct (negb (idx `mod` n =? 0)); [by apply wp_ret|].
    apply wp_bind. eapply wp_len; [exact Hb|]. by apply wp_ret. }
  intros _ _ [-> ->].
  pose proof (lookup_lt_Some _ _ _ Hi) as Hilt.
  pose proof (lookup_lt_Some _ _ _ Hb) as Hblt.
  apply wp_bind. eapply wp_len; [exact Hb|].
  apply wp_bind. eapply wp_getslice; [exact Hi|].
  apply wp_bind. eapply (wp_iadd _ _ bv (py_slice buf c (c + B - Z.of_nat (length bv)))); simpl.
  { by rewrite lookup_app_l. }
  { rewrite lookup_app_r by done. by rewrite Nat.sub_diag. }
  apply wp_bind, wp_lift. apply wp_bind.
  set (h2 := <[batch := bv ++ py_slice buf c (c + B - Z.of_nat (length bv))]>
               (heap st ++ [py_slice buf c (c + B - Z.of_nat (length bv))])).
  assert (length h2 = S (length (heap st))) as Hlen2.
  { subst h2. rewrite length_insert, length_app. simpl. lia. }
  assert (h2 !! batch = Some (bv ++ py_slice buf c (c + B - Z.of_nat (length bv)))) as Hb2.
  { subst h2. apply list_lookup_insert_eq. rewrite length_app. lia. }
  assert (h2 !! init = Some buf) as Hi2.
  { subst h2. rewrite list_lookup_insert_ne by done. by rewrite lookup_app_l. }
  apply (wp_mono _ (fun _ st1 =>
           heap st1 = h2 /\
           yielded st1 = yielded st ++
             (if idx `mod` n =? w
              then [bv ++ py_slice buf c (c + B - Z.of_nat (length bv))] else []))).
  { destruct (idx `mod` n =? w).
    - eapply wp_yield; [exact Hb2|]. done.
    - apply wp_ret. simpl. by rewrite app_nil_r. }
  intros _ st1 [Hh1 Hy1]. apply wp_bind, wp_new_list. apply Hnext; simpl.
  - rewrite Hh1, lookup_app_l by lia. done.
  - rewrite Hh1, lookup_app_r by lia. by rewrite Nat.sub_diag.
  - rewrite Hh1. lia.
  - done.
Qed.

(** The turns that follow the first one. *)
Lemma wp_wrap_rest self init buf fuel idx batch c (Q : unit -> machine -> Prop) st :
  let B := BatchSamplerShard.batch_size self in
  let n := BatchSamplerShard.num_processes self in
  let w := BatchSamplerShard.process_index self in
  1 <= n -> 0 <= w < n ->
  heap st !! init = Some buf -> heap st !! batch = Some [] -> batch <> init ->
  idx `mod` n = 0 \/ n - idx `mod` n <= Z.of_nat fuel ->
  (forall h, Q tt (Machine h (yielded st ++ rest_yields B n w buf idx c))) ->
  wp (BatchSamplerShard.wrap_while fuel self init idx batch c) Q st.
Proof.
  intros B n w Hn Hw. revert idx batch c st.
  induction fuel as [|fuel IH]; intros idx batch c st Hi Hb Hne Hfuel HQ.
  - pose proof (Z.mod_pos_bound idx n ltac:(lia)) as Hr.
    destruct Hfuel as [Hz|]; [|lia]. simpl. fold n.
    unfold py_mod. destruct (Z.eqb_spec n 0) as [|_]; [lia|].
    apply wp_bind, wp_lift. rewrite Hz. simpl.
    apply wp_bind, wp_bind. eapply wp_len; [exact Hb|]. apply wp_ret. simpl. apply wp_ret.
    specialize (HQ (heap st)). unfold rest_yields in HQ. rewrite Hz in HQ. simpl in HQ.
    rewrite app_nil_r in HQ. by destruct st.
  - pose proof (Z.mod_pos_bound idx n ltac:(lia)) as Hr.
    destruct (Z.eqb_spec (idx `mod` n) 0) as [Hz|Hnz].
    + simpl. fold n.
      unfold py_mod. destruct (Z.eqb_spec n 0) as [|_]; [lia|].
      apply wp_bind, wp_lift. rewrite Hz. simpl.
      apply wp_bind, wp_bind. eapply wp_len; [exact Hb|]. apply wp_ret. simpl. apply wp_ret.
      specialize (HQ (heap st)). unfold rest_yields in HQ. rewrite Hz in HQ. simpl in HQ.
      rewrite app_nil_r in HQ. by destruct st.
    + eapply wp_wrap_step; try done.
      { fold n. destruct (Z.eqb_spec (idx `mod` n) 0); done. }
      fold B n w. simpl. rewrite Z.sub_0_r.
      intros st1 batch' Hi1 Hb1 Hne1 Hy1. apply IH; try done.
      { rewrite mod_succ by lia. destruct (Z.eqb_spec (idx `mod` n) (n - 1)); lia. }
      intros h. rewrite Hy1, <- app_assoc.
      replace ((if idx `mod` n =? w then [py_slice buf c (c + B)] else []) ++
               rest_yields B n w buf (idx + 1) (c + B))
        with (rest_yields B n w buf idx c); [apply HQ|].
      unfold rest_yields. rewrite mod_succ by lia.
      destruct (Z.eqb_spec (idx `mod` n) 0) as [|_]; [done|].
      destruct (Z.eqb_spec (idx `mod` n) w) as [E|E].
      * rewrite E. destruct (Z.leb_spec w w); [|lia].
        replace (c + (w - w) * B) with c by lia.
        destruct (Z.eqb_spec w (n - 1)); [done|].
        destruct (Z.eqb_spec (w + 1) 0); [lia|].
        destruct (Z.leb_spec (w + 1) w); [lia|]. done.
      * destruct (Z.leb_spec (idx `mod` n) w).
        -- destruct (Z.eqb_spec (idx `mod` n) (n - 1)); [lia|].
           destruct (Z.eqb_spec (idx `mod` n + 1) 0); [lia|].
           destruct (Z.leb_spec (idx `mod` n + 1) w); [|lia]. simpl.
           do 2 f_equal; ring.
        -- destruct (Z.eqb_spec (idx `mod` n) (n - 1)); [done|].
           destruct (Z.eqb_spec (idx `mod` n + 1) 0); [lia|].
           destruct (Z.leb_spec (idx `mod` n + 1) w); [lia|]. done.
Qed.

Lemma full_count_uniform B up l :
  uniform B up -> last up = Some l ->
  full_count B up = Z.of_nat (length up) - (if is_full B l then 0 else 1).
Proof.
  intros Hun [pre ->]%last_Some. unfold uniform in Hun. rewrite removelast_last in Hun.
  rewrite full_count_snoc, (full_count_all _ _ Hun), length_app. simpl.
  destruct (is_full B l); lia.
Qed.

Lemma wp_no_split_tail self items init st0 s st :
  let n := BatchSamplerShard.num_processes self in
  let w := BatchSamplerShard.process_index self in
  1 <= n -> 0 <= w < n ->
  uniform (BatchSamplerShard.batch_size self) items ->
  no_split_inv self init st0 items s st ->
  wp (BatchSamplerShard.no_split_tail self init s)
     (fun _ st' =>
        yielded st' =
          yielded st ++
          (if BatchSamplerShard.drop_last self then []
           else no_split_wraparound (BatchSamplerShard.batch_size self) n w items)) st.
Proof.
  intros n w Hn Hw Hun (Hy & Hi & Hbne & Hb & Hloc).
  unfold BatchSamplerShard.no_split_tail, no_split_wraparound. fold n w in Hi, Hb |- *.
  set (B := BatchSamplerShard.batch_size self) in *.
  destruct (BatchSamplerShard.drop_last self); simpl.
  { apply wp_ret. by rewrite app_nil_r. }
  set (initial := concat (take (Z.to_nat n) items)) in *.
  apply wp_bind. eapply wp_len; [exact Hi|].
  destruct (Z.ltb_spec 0 (Z.of_nat (length initial))) as [Hpos|Hpos];
    [|apply wp_ret; by rewrite app_nil_r].
  destruct (BatchSamplerShard.ns_batch s) as [rb|] eqn:Hrb; cycle 1.
  { destruct Hloc as [-> _]. subst initial. rewrite take_nil in Hpos. simpl in Hpos. lia. }
  destruct Hloc as (Hrbne & Hlast & Hne & Hidx).
  destruct (last items) as [l|] eqn:El; [|by apply last_None in El].
  pose proof (full_count_uniform _ _ _ Hun El) as HLf. fold B in HLf.
  set (Lf := full_count B items) in *.
  set (held := round_batch n w items (Lf `div` n)) in *.
  set (buf := tiled (n * B) initial).
  apply wp_bind. eapply wp_len; [exact Hb|]. fold (is_full B held).
  apply wp_bind.
  apply (wp_mono _ (fun _ st1 =>
           heap st1 = heap st /\
           yielded st1 = yielded st ++ (if is_full B held then [held] else []))).
  { destruct (is_full B held).
    - eapply wp_yield; [exact Hb|]. done.
    - apply wp_ret. by rewrite app_nil_r. }
  intros _ st1 [Hh1 Hy1].
  pose proof (lookup_lt_Some _ _ _ Hi) as Hilt.
  apply wp_bind. eapply wp_tile_while; [by rewrite Hh1|lia|].
  fold (tiled (n * B) initial). fold buf. rewrite Hh1.
  apply wp_bind, wp_ret. apply wp_bind. eapply wp_len; simpl.
  { rewrite list_lookup_insert_ne by done. exact Hlast. }
  fold (is_full B l) in *. apply wp_bind.
  set (carry := if is_full B l then [] else l) in *.
  apply (wp_mono _ (fun '(batch, oidx) st2 =>
           oidx = Some Lf /\ batch <> init /\ yielded st2 = yielded st1 /\
           heap st2 !! init = Some buf /\ heap st2 !! batch = Some carry)).
  { subst carry. destruct (is_full B l).
    - apply wp_bind, wp_new_list. rewrite Hidx. apply wp_bind, wp_ret, wp_ret. simpl.
      rewrite length_insert.
      split; [f_equal; lia|]. split; [lia|]. split; [done|]. split.
      + rewrite lookup_app_l by (by rewrite length_insert).
        by apply list_lookup_insert_eq.
      + rewrite lookup_app_r by (by rewrite length_insert).
        by rewrite length_insert, Nat.sub_diag.
    - apply wp_ret. simpl. rewrite Hidx.
      split; [f_equal; lia|]. split; [done|]. split; [done|]. split.
      + by apply list_lookup_insert_eq.
      + by rewrite list_lookup_insert_ne by done. }
  intros [batch oidx] st2 (-> & Hbne2 & Hy2 & Hi2 & Hb2). cbn [fst snd].
  apply wp_bind, wp_ret.
  destruct (negb (Lf `mod` n =? 0) || (0 <? Z.of_nat (length carry))) eqn:Hagain.
  - eapply wp_wrap_step; try done. fold B n w.
    intros st3 batch' Hi3 Hb3 Hne3 Hy3. eapply wp_wrap_rest; try done.
    { fold n. pose proof (Z.mod_pos_bound (Lf + 1) n ltac:(lia)). lia. }
    fold B n w. intros h. simpl. by rewrite Hy3, Hy2, Hy1, <- !app_assoc.
  - apply orb_false_elim in Hagain as [Hz Hc].
    apply negb_false_iff, Z.eqb_eq in Hz. apply Z.ltb_ge in Hc.
    assert (carry = []) as Ec by (destruct carry; [done|simpl in Hc; lia]).
    rewrite Ec in Hb2.
    eapply (wp_wrap_rest self init buf (S (Z.to_nat (Z.abs n))) Lf batch 0);
      try done; [by left|].
    fold B n w. intros h. simpl. unfold rest_yields. rewrite Hz. simpl.
    by rewrite Hy2, Hy1, !app_nil_r.
Qed.

(** The whole of [_iter_with_no_split], for a shard as [__init__] builds it. *)
Lemma iter_with_no_split_spec bs n w :
  1 <= n -> 0 <= w < n ->
  uniform (BatchSampler.batch_size bs) (BatchSampler.batches bs) ->
  run_generator
    (BatchSamplerShard._iter_with_no_split
       (BatchSamplerShard.Build bs n w false (BatchSampler.batch_size bs)
          (BatchSampler.drop_last bs))) =
  (map (round_batch n w (BatchSampler.batches bs))
       (seqZ 0 (full_count (BatchSampler.batch_size bs) (BatchSampler.batches bs) `div` n)) ++
   (if BatchSampler.drop_last bs then []
    else no_split_wraparound (BatchSampler.batch_size bs) n w (BatchSampler.batches bs)),
   None).
Proof.
  intros Hn Hw Hun. apply wp_run_generator. unfold BatchSamplerShard._iter_with_no_split.
  apply wp_bind, wp_new_list. apply wp_bind, wp_new_list. simpl.
  apply wp_bind.
  eapply wp_mono; [by apply wp_no_split_loop|].
  intros s st Hinv. eapply wp_mono; [by eapply wp_no_split_tail|].
  simpl. intros _ st' ->. destruct Hinv as (-> & _). simpl. done.
Qed.

(** ** Exceptions during iteration *)

Lemma nve_ret {A : Type} (a : A) : no_value_error (ret a).
Proof. by intros st. Qed.

Lemma nve_raise {A : Type} (e : exn) : e <> ValueError -> no_value_error (@raise A e).
Proof. intros He st. simpl. congruence. Qed.

Lemma nve_bind {A B : Type} (m : M A) (k : A -> M B) :
  no_value_error m -> (forall a, no_value_error (k a)) -> no_value_error (bind m k).
Proof.
  intros Hm Hk st. unfold bind. specialize (Hm st).
  destruct (m st) as [[e|a] st']; [simpl in *; congruence|]. apply Hk.
Qed.

Lemma nve_lift_mod (a b : Z) : no_value_error (lift (py_mod a b)).
Proof. intros st. unfold lift, py_mod. by destruct (b =? 0). Qed.

Lemma nve_lift_floordiv (a b : Z) : no_value_error (lift (py_floordiv a b)).
Proof. intros st. unfold lift, py_floordiv. by destruct (b =? 0). Qed.

Lemma nve_new_list v : no_value_error (new_list v).
Proof. by intros st. Qed.

Lemma nve_load r : no_value_error (load r).
Proof. intros st. unfold load. by destruct (heap st !! r). Qed.

Lemma nve_read_var {A : Type} (x : option A) : no_value_error (read_var x).
Proof. destruct x; [apply nve_ret|by apply nve_raise]. Qed.

Ltac nve_step :=
  lazymatch goal with
  | |- no_value_error (ret _) => apply nve_ret
  | |- no_value_error (new_list _) => apply nve_new_list
  | |- no_value_error (load _) => apply nve_load
  | |- no_value_error (read_var _) => apply nve_read_var
  | |- no_value_error (lift (py_mod _ _)) => apply nve_lift_mod
  | |- no_value_error (lift (py_floordiv _ _)) => apply nve_lift_floordiv
  | |- no_value_error (raise _) => apply nve_raise; discriminate
  | |- no_value_error (bind _ _) => apply nve_bind; [|intros ?]
  | |- no_value_error (if ?c then _ else _) => destruct c
  | |- no_value_error (match ?x with O => _ | S _ => _ end) => destruct x
  | |- no_value_error (fun _ => (inr _, _)) => by intros ?
  end.

Lemma nve_len r : no_value_error (len r).
Proof. unfold len. repeat nve_step. Qed.

Lemma nve_iadd r o : no_value_error (iadd r o).
Proof. unfold iadd. repeat nve_step. Qed.

Lemma nve_concat_lists a b : no_value_error (concat_lists a b).
Proof. unfold concat_lists. repeat nve_step. Qed.

Lemma nve_getslice r a b : no_value_error (getslice r a b).
Proof. unfold getslice. repeat nve_step. Qed.

Lemma nve_yield r : no_value_error (yield r).
Proof. unfold yield. repeat nve_step. Qed.

Ltac nve :=
  repeat first
    [ lazymatch goal with
      | |- no_value_error (len _) => apply nve_len
      | |- no_value_error (iadd _ _) => apply nve_iadd
      | |- no_value_error (concat_lists _ _) => apply nve_concat_lists
      | |- no_value_error (getslice _ _ _) => apply nve_getslice
      | |- no_value_error (yield _) => apply nve_yield
      end
    | nve_step ].

Lemma nve_for_enumerate {S : Type} idx items (body : Z -> ref -> S -> M S) s :
  (forall i b s', no_value_error (body i b s')) ->
  no_value_error (for_enumerate idx items body s).
Proof.
  intros Hbody. revert idx s. induction items as [|v items IH]; intros idx s; simpl.
  - apply nve_ret.
  - apply nve_bind; [apply nve_new_list|intros r].
    apply nve_bind; [apply Hbody|intros s']. apply IH.
Qed.

Lemma nve_tile_while fuel r bound : no_value_error (tile_while fuel r bound).
Proof. induction fuel as [|fuel IH]; simpl; nve. apply IH. Qed.

Lemma nve_wrap_while fuel self init idx batch c :
  no_value_error (BatchSamplerShard.wrap_while fuel self init idx batch c).
Proof.
  revert idx batch c. induction fuel as [|fuel IH]; intros idx batch c; simpl; nve.
  apply IH.
Qed.

Lemma nve_iter self : no_value_error (BatchSamplerShard.__iter__ self).
Proof.
  unfold BatchSamplerShard.__iter__. destruct (BatchSamplerShard.split_batches self).
  - unfold BatchSamplerShard._iter_with_split. nve.
    + unfold BatchSamplerShard.split_loop. apply nve_for_enumerate. intros i b s'.
      unfold BatchSamplerShard.split_body. nve.
    + unfold BatchSamplerShard.split_tail. nve. apply nve_tile_while.
  - unfold BatchSamplerShard._iter_with_no_split. nve.
    + unfold BatchSamplerShard.no_split_loop. apply nve_for_enumerate. intros i b s'.
      unfold BatchSamplerShard.no_split_body. nve.
    + unfold BatchSamplerShard.no_split_tail. nve.
      * apply nve_tile_while.
      * apply nve_wrap_while.
Qed.

Lemma run_generator_no_value_error (g : M unit) :
  no_value_error g -> snd (run_generator g) <> Some ValueError.
Proof.
  intros Hg. unfold run_generator. specialize (Hg (Machine [] [])).
  destruct (g (Machine [] [])) as [[e|[]] st]; simpl in *; congruence.
Qed.

(** ** Slices *)

(** A slice with bounds that count from the start. *)
Lemma py_slice_nonneg (l : list Z) (a b : Z) :
  0 <= a -> 0 <= b -> py_slice l a b = take (Z.to_nat (b - a)) (drop (Z.to_nat a) l).
Proof.
  intros Ha Hb. unfold py_slice, clip_index.
  destruct (Z.ltb_spec a 0); [lia|]. destruct (Z.ltb_spec b 0); [lia|].
  destruct (decide (a <= Z.of_nat (length l))).
  - rewrite (Z.min_l a) by done. destruct (decide (b <= Z.of_nat (length l))).
    + by rewrite (Z.min_l b).
    + rewrite (Z.min_r b) by lia. rewrite !take_ge; [done| |]; rewrite length_drop; lia.
  - rewrite (Z.min_r a) by lia. rewrite !drop_ge by lia. by rewrite !take_nil.
Qed.

Lemma py_slice_length (l : list Z) (a b : Z) :
  0 <= a <= b -> b <= Z.of_nat (length l) -> Z.of_nat (length (py_slice l a b)) = b - a.
Proof.
  intros Ha Hb. rewrite py_slice_nonneg by lia. rewrite length_take, length_drop. lia.
Qed.

(** A slice that ends inside [l] does not see what follows [l]. *)
Lemma py_slice_app_l (l k : list Z) (a b : Z) :
  0 <= a <= b -> b <= Z.of_nat (length l) -> py_slice (l ++ k) a b = py_slice l a b.
Proof.
  intros Ha Hb. rewrite !py_slice_nonneg by lia.
  rewrite drop_app_le by lia. rewrite take_app_le; [done|]. rewrite length_drop. lia.
Qed.

(** Cutting a list into [i] consecutive pieces of [sl] elements and chaining
    them gives back its first [i * sl] elements. *)
Lemma concat_slices (l : list Z) (sl : Z) (i : nat) :
  0 <= sl ->
  concat (map (fun w => take (Z.to_nat sl) (drop (Z.to_nat (w * sl)) l)) (seqZ 0 (Z.of_nat i)))
  = take (Z.to_nat (Z.of_nat i * sl)) l.
Proof.
  intros Hsl. induction i as [|i IH].
  - simpl. by rewrite take_0.
  - rewrite seqZ_S, map_app, concat_app, IH. simpl. rewrite app_nil_r.
    rewrite take_take_drop. f_equal. lia.
Qed.

(** ** Split mode *)

Lemma shard_output_split bs n w :
  n <> 0 -> BatchSampler.batch_size bs `mod` n = 0 ->
  shard_output bs n w true =
  (map (shard_slice (BatchSampler.batch_size bs) n w)
       (List.filter (is_full (BatchSampler.batch_size bs)) (BatchSampler.batches bs)) ++
   (if BatchSampler.drop_last bs then []
    else split_wraparound (BatchSampler.batch_size bs) (BatchSampler.batch_size bs `div` n) w
           (BatchSampler.batches bs)),
   None).
Proof.
  intros Hn Hdiv. unfold shard_output, BatchSamplerShard.__init__, py_mod.
  destruct (Z.eqb_spec n 0) as [|_]; [done|]. simpl. rewrite Hdiv. simpl.
  unfold BatchSamplerShard.__iter__. simpl. by apply iter_with_split_spec.
Qed.

Lemma shard_slice_take_drop B n w b :
  1 <= n -> 0 <= w -> 0 <= B ->
  shard_slice B n w b =
  take (Z.to_nat (B `div` n)) (drop (Z.to_nat (w * (B `div` n))) b).
Proof.
  intros Hn Hw HB. unfold shard_slice.
  assert (0 <= B `div` n) by (apply Z.div_pos; lia).
  rewrite py_slice_nonneg by nia. do 2 f_equal; lia.
Qed.

(** C3.  In split mode with [n >= 1] processes and a batch size [B] that
    [n] divides, for the [k]-th full batch [b] of a pass: the [k]-th batch
    that process [w] receives is the [B / n] elements of [b] from position
    [w * (B / n)] on, and chaining the [k]-th batches of processes
    [0 .. n - 1] in this order gives [b] back. *)
Theorem split_slices_rebuild_full_batch (bs : BatchSampler.t) (n : Z) (k : nat) (b : list Z) :
  let B := BatchSampler.batch_size bs in
  let slice_len := B `div` n in
  1 <= n -> B `mod` n = 0 ->
  List.filter (is_full B) (BatchSampler.batches bs) !! k = Some b ->
  (forall w, 0 <= w < n ->
     fst (shard_output bs n w true) !! k =
       Some (take (Z.to_nat slice_len) (drop (Z.to_nat (w * slice_len)) b)) /\
     Z.of_nat (length (take (Z.to_nat slice_len) (drop (Z.to_nat (w * slice_len)) b)))
       = slice_len) /\
  concat (map (fun w => default [] (fst (shard_output bs n w true) !! k)) (seqZ 0 n)) = b.
Proof.
  intros B sl Hn Hdiv Hk.
  assert (is_full B b = true) as Hfull.
  { apply list_elem_of_lookup_2, list_elem_of_In, List.filter_In in Hk. tauto. }
  unfold is_full in Hfull. apply Z.eqb_eq in Hfull.
  assert (0 <= sl) as Hsl by (apply Z.div_pos; lia).
  assert (B = n * sl) as HB by (subst sl; rewrite (Z.div_mod B n) at 1 by lia; lia).
  assert (forall w, 0 <= w < n ->
            fst (shard_output bs n w true) !! k =
              Some (take (Z.to_nat sl) (drop (Z.to_nat (w * sl)) b))) as Hout.
  { intros w Hw. rewrite shard_output_split by (done || lia). simpl.
    rewrite lookup_app_l.
    - rewrite list_lookup_fmap. fold B. rewrite Hk. simpl. f_equal.
      apply shard_slice_take_drop; lia.
    - rewrite length_map. by eapply lookup_lt_Some. }
  split.
  - intros w Hw. split; [by apply Hout|].
    rewrite length_take, length_drop. nia.
  - rewrite (map_ext_in _ (fun w => take (Z.to_nat sl) (drop (Z.to_nat (w * sl)) b))).
    + replace n with (Z.of_nat (Z.to_nat n)) at 1 by lia.
      rewrite concat_slices by done. apply take_ge. nia.
    + intros w Hw%list_elem_of_In%elem_of_seqZ. by rewrite Hout by lia.
Qed.

Lemma split_slices_rebuild_full_batch_witness :
  (forall w, 0 <= w < 2 ->
     fst (shard_output (BatchSampler.Build 4 false [[0;1;2;3];[4;5;6;7];[8;9]]) 2 w true) !! 1%nat =
       Some (take (Z.to_nat (4 `div` 2)) (drop (Z.to_nat (w * (4 `div` 2))) [4;5;6;7])) /\
     Z.of_nat (length (take (Z.to_nat (4 `div` 2)) (drop (Z.to_nat (w * (4 `div` 2))) [4;5;6;7])))
       = 4 `div` 2) /\
  concat (map (fun w => default []
                 (fst (shard_output (BatchSampler.Build 4 false [[0;1;2;3];[4;5;6;7];[8;9]])
                         2 w true) !! 1%nat))
            (seqZ 0 2)) = [4;5;6;7].
Proof.
  apply (split_slices_rebuild_full_batch
           (BatchSampler.Build 4 false [[0;1;2;3];[4;5;6;7];[8;9]]) 2 1 [4;5;6;7]).
  - lia.
  - reflexivity.
  - reflexivity.
Defined.

Lemma filter_all_full B (pre : list (list Z)) :
  Forall (fun b => is_full B b = true) pre -> List.filter (is_full B) pre = pre.
Proof.
  intros H. apply forallb_filter_id, forallb_forall. intros b Hb%list_elem_of_In.
  by eapply Forall_forall in H.
Qed.

Lemma filter_full_snoc_short B (pre : list (list Z)) (sh : list Z) :
  Forall (fun b => is_full B b = true) pre -> is_full B sh = false ->
  List.filter (is_full B) (pre ++ [sh]) = pre.
Proof.
  intros Hpre Hsh. rewrite List.filter_app, (filter_all_full _ _ Hpre). simpl.
  rewrite Hsh. by rewrite app_nil_r.
Qed.

(** The output of a process in split mode over a pass that ends with a
    short batch. *)
Lemma shard_output_split_short (bs : BatchSampler.t) (n w : Z)
    (pre : list (list Z)) (sh first : list Z) :
  let B := BatchSampler.batch_size bs in
  1 <= n -> 0 <= w < n -> B `mod` n = 0 ->
  BatchSampler.batches bs = pre ++ [sh] ->
  Forall (fun b => is_full B b = true) pre ->
  0 < Z.of_nat (length sh) < B ->
  head (pre ++ [sh]) = Some first ->
  shard_output bs n w true =
    (map (shard_slice B n w) pre ++
     (if BatchSampler.drop_last bs then []
      else [shard_slice B n w (sh ++ tiled B first)]),
     None) /\
  Z.of_nat (length (shard_slice B n w (sh ++ tiled B first))) = B `div` n /\
  first <> [].
Proof.
  intros B Hn Hw Hdiv Hup Hpre Hsh Hfirst.
  assert (is_full B sh = false) as Hshort by (unfold is_full; lia).
  assert (0 < Z.of_nat (length first)) as Hfpos.
  { destruct pre as [|f pre']; simpl in Hfirst; injection Hfirst as <-; [lia|].
    apply Forall_cons in Hpre as [Hf _]. unfold is_full in Hf. lia. }
  assert (first <> []) as Hfne by (intros ->; simpl in Hfpos; lia).
  pose proof (tiled_length B first Hfne) as HT.
  assert (0 <= B `div` n) as Hsl by (apply Z.div_pos; lia).
  assert (B = n * (B `div` n)) as HB by (rewrite (Z.div_mod B n) at 1 by lia; lia).
  assert (0 <= B `div` n * w <= B `div` n * (w + 1)) as Hab by nia.
  assert (B `div` n * (w + 1) <= B) as Hb by nia.
  split; [|split; [|done]].
  - rewrite shard_output_split by (done || lia). fold B. rewrite Hup.
    rewrite filter_full_snoc_short by done. f_equal. f_equal.
    destruct (BatchSampler.drop_last bs); [done|].
    unfold split_wraparound. rewrite Hfirst, last_snoc.
    destruct (Z.ltb_spec 0 (Z.of_nat (length first))); [|lia].
    destruct (Z.ltb_spec (Z.of_nat (length sh)) B); [|lia]. simpl.
    f_equal. unfold shard_slice.
    destruct (Nat.eqb_spec (length (pre ++ [sh])) 1) as [E|E]; [|done].
    destruct pre as [|f pre']; [|rewrite length_app in E; simpl in E; lia].
    simpl in Hfirst. injection Hfirst as <-.
    rewrite py_slice_app_l by lia.
    replace (sh ++ tiled B sh) with (tiled B sh ++ sh)
      by (symmetry; by apply tile_fuel_commutes).
    by rewrite py_slice_app_l by lia.
  - unfold shard_slice. rewrite py_slice_length; [lia|lia|].
    rewrite length_app. lia.
Qed.

(** C4.  In split mode with [n >= 1] processes and a batch size [B] that
    [n] divides, over a pass [pre ++ [sh]] whose batches [pre] are full and
    whose last batch [sh] is short (and not empty), [first] being the first
    batch of the pass: process [w] receives its slice of every batch of [pre]
    and then, unless [drop_last] is set, one more batch: its slice of [sh]
    followed by [tiled B first], a slice of exactly [B / n] elements.
    [tiled B first] has at least [B] elements and repeats [first]: its element
    [i] is the element [i mod len(first)] of [first].  When [drop_last] is set
    nothing is yielded for [sh]. *)
Theorem split_short_final_batch_wraps (bs : BatchSampler.t) (n w : Z)
    (pre : list (list Z)) (sh first : list Z) :
  let B := BatchSampler.batch_size bs in
  1 <= n -> 0 <= w < n -> B `mod` n = 0 ->
  BatchSampler.batches bs = pre ++ [sh] ->
  Forall (fun b => is_full B b = true) pre ->
  0 < Z.of_nat (length sh) < B ->
  head (pre ++ [sh]) = Some first ->
  shard_output bs n w true =
    (map (shard_slice B n w) pre ++
     (if BatchSampler.drop_last bs then []
      else [shard_slice B n w (sh ++ tiled B first)]),
     None) /\
  Z.of_nat (length (shard_slice B n w (sh ++ tiled B first))) = B `div` n /\
  B <= Z.of_nat (length (tiled B first)) /\
  (forall i : nat, (i < length (tiled B first))%nat ->
     tiled B first !! i = first !! (i mod length first)%nat).
Proof.
  intros B Hn Hw Hdiv Hup Hpre Hsh Hfirst.
  destruct (shard_output_split_short bs n w pre sh first) as (Hout & Hlen & Hfne); try done.
  split; [done|]. split; [done|]. split.
  - by apply tiled_length.
  - intros i Hi. by apply tile_fuel_cycles.
Qed.

Lemma split_short_final_batch_wraps_witness :
  shard_output (BatchSampler.Build 4 false [[0;1;2;3];[4;5;6;7];[8;9]]) 2 1 true =
    (map (shard_slice 4 2 1) [[0;1;2;3];[4;5;6;7]] ++
     (if false then [] else [shard_slice 4 2 1 ([8;9] ++ tiled 4 [0;1;2;3])]),
     None) /\
  Z.of_nat (length (shard_slice 4 2 1 ([8;9] ++ tiled 4 [0;1;2;3]))) = 4 `div` 2 /\
  4 <= Z.of_nat (length (tiled 4 [0;1;2;3])) /\
  (forall i : nat, (i < length (tiled 4%Z [0%Z;1%Z;2%Z;3%Z]))%nat ->
     tiled 4 [0;1;2;3] !! i = [0;1;2;3] !! (i mod 4)%nat).
Proof.
  apply (split_short_final_batch_wraps
           (BatchSampler.Build 4 false [[0;1;2;3];[4;5;6;7];[8;9]]) 2 1
           [[0;1;2;3];[4;5;6;7]] [8;9] [0;1;2;3]).
  - lia.
  - lia.
  - reflexivity.
  - reflexivity.
  - repeat constructor.
  - simpl. lia.
  - reflexivity.
Defined.

(** ** Whole-batch mode *)

Lemma shard_output_no_split bs n w :
  1 <= n -> 0 <= w < n ->
  uniform (BatchSampler.batch_size bs) (BatchSampler.batches bs) ->
  shard_output bs n w false =
  (map (round_batch n w (BatchSampler.batches bs))
       (seqZ 0 (full_count (BatchSampler.batch_size bs) (BatchSampler.batches bs) `div` n)) ++
   (if BatchSampler.drop_last bs then []
    else no_split_wraparound (BatchSampler.batch_size bs) n w (BatchSampler.batches bs)),
   None).
Proof.
  intros Hn Hw Hun. unfold shard_output, BatchSamplerShard.__init__. simpl.
  unfold BatchSamplerShard.__iter__. simpl. by apply iter_with_no_split_spec.
Qed.

(** In a uniform pass the full batches come first. *)
Lemma uniform_lookup_full B up (p : nat) :
  uniform B up -> Z.of_nat p < full_count B up ->
  exists b, up !! p = Some b /\ is_full B b = true.
Proof.
  intros Hun Hp. destruct (last up) as [l|] eqn:El.
  - pose proof (full_count_uniform _ _ _ Hun El) as HLf.
    apply last_Some in El as [pre ->]. unfold uniform in Hun.
    rewrite removelast_last in Hun. rewrite length_app in HLf. simpl in HLf.
    destruct (decide (p < length pre)%nat) as [Hlt|Hge].
    + destruct (lookup_lt_is_Some_2 pre p Hlt) as [b Hb]. exists b.
      rewrite lookup_app_l by done. split; [done|].
      by eapply Forall_lookup_1 in Hun.
    + destruct (is_full B l) eqn:Hl; [|lia]. exists l. split; [|done].
      rewrite lookup_app_r by lia. by replace (p - length pre)%nat with 0%nat by lia.
  - apply last_None in El as ->. unfold full_count in Hp. simpl in Hp. lia.
Qed.

Lemma uniform_lookup_rest B up (p : nat) b :
  uniform B up -> full_count B up <= Z.of_nat p -> up !! p = Some b -> is_full B b = false.
Proof.
  intros Hun Hp Hb. destruct (last up) as [l|] eqn:El.
  - pose proof (full_count_uniform _ _ _ Hun El) as HLf.
    apply last_Some in El as [pre ->]. rewrite length_app in HLf. simpl in HLf.
    pose proof (lookup_lt_Some _ _ _ Hb) as Hlen. rewrite length_app in Hlen. simpl in Hlen.
    destruct (is_full B l) eqn:Hl; [lia|].
    rewrite lookup_app_r in Hb by lia.
    replace (p - length pre)%nat with 0%nat in Hb by lia. simpl in Hb. congruence.
  - apply last_None in El as ->. done.
Qed.

Lemma uniform_app_l B pre suf : uniform B (pre ++ suf) -> uniform B pre.
Proof.
  unfold uniform. destruct suf as [|b suf]; [by rewrite app_nil_r|].
  rewrite removelast_app by done. intros [H _]%Forall_app.
  destruct pre as [|x pre] using rev_ind; [done|].
  rewrite removelast_last. by apply Forall_app in H as [H _].
Qed.

Lemma filter_none {A : Type} (f : A -> bool) (l : list A) :
  (forall x, In x l -> f x = false) -> List.filter f l = [].
Proof.
  induction l as [|x l IH]; intros H; [done|]. simpl.
  rewrite (H x) by (by left). apply IH. intros y Hy. apply H. by right.
Qed.

Lemma filter_seqZ_initial (P : Z -> bool) (c a : Z) :
  0 <= c <= a ->
  (forall g, 0 <= g < c -> P g = true) -> (forall g, c <= g < a -> P g = false) ->
  List.filter P (seqZ 0 a) = seqZ 0 c.
Proof.
  intros Hc Ht Hf. replace a with (c + (a - c)) by lia.
  rewrite seqZ_app by lia. rewrite List.filter_app.
  rewrite forallb_filter_id, filter_none.
  - by rewrite app_nil_r.
  - intros g Hg%list_elem_of_In%elem_of_seqZ. apply Hf. lia.
  - apply forallb_forall. intros g Hg%list_elem_of_In%elem_of_seqZ. apply Ht. lia.
Qed.

(** *** Positions and rounds *)

Lemma div_mod_pos (g d n : Z) :
  0 <= d < n -> (g * n + d) `div` n = g /\ (g * n + d) `mod` n = d.
Proof.
  intros Hd. split; symmetry.
  - apply (Z.div_unique _ _ _ d); lia.
  - apply (Z.mod_unique _ _ g); lia.
Qed.

Lemma filter_round (P : Z -> bool) (n w g : Z) :
  0 <= w < n ->
  List.filter (fun p => (p `mod` n =? w) && P (p `div` n)) (seqZ (g * n) n) =
  if P g then [g * n + w] else [].
Proof.
  intros Hw.
  replace (seqZ (g * n) n) with (seqZ (g * n) (w + (n - w))) by (f_equal; lia).
  rewrite seqZ_app by lia. rewrite (seqZ_cons (g * n + w)) by lia.
  rewrite List.filter_app. simpl.
  destruct (div_mod_pos g w n Hw) as [-> ->]. rewrite Z.eqb_refl. simpl.
  rewrite !filter_none.
  - by destruct (P g).
  - intros p Hp%list_elem_of_In%elem_of_seqZ.
    destruct (div_mod_pos g (p - g * n) n ltac:(lia)) as [_ Hm].
    replace (g * n + (p - g * n)) with p in Hm by lia. rewrite Hm.
    destruct (Z.eqb_spec (p - g * n) w); [lia|done].
  - intros p Hp%list_elem_of_In%elem_of_seqZ.
    destruct (div_mod_pos g (p - g * n) n ltac:(lia)) as [_ Hm].
    replace (g * n + (p - g * n)) with p in Hm by lia. rewrite Hm.
    destruct (Z.eqb_spec (p - g * n) w); [lia|done].
Qed.

Lemma filter_positions (P : Z -> bool) (n w : Z) (K : nat) :
  0 <= w < n ->
  List.filter (fun p => (p `mod` n =? w) && P (p `div` n)) (seqZ 0 (Z.of_nat K * n)) =
  map (fun g => g * n + w) (List.filter P (seqZ 0 (Z.of_nat K))).
Proof.
  intros Hw. induction K as [|K IH]; [done|].
  replace (Z.of_nat (S K) * n) with (Z.of_nat K * n + n) by lia.
  rewrite seqZ_app by nia. rewrite List.filter_app, IH.
  rewrite Z.add_0_l, filter_round by done.
  rewrite seqZ_S, List.filter_app, map_app. simpl. rewrite Z.add_0_l.
  by destruct (P (Z.of_nat K)).
Qed.

Lemma filter_positions_upto (P : Z -> bool) (n w k : Z) :
  0 <= w < n -> 0 <= k -> P (k `div` n) = false ->
  List.filter (fun p => (p `mod` n =? w) && P (p `div` n)) (seqZ 0 k) =
  map (fun g => g * n + w) (List.filter P (seqZ 0 (k `div` n))).
Proof.
  intros Hw Hk HP.
  pose proof (Z.div_mod k n ltac:(lia)) as Hkn.
  pose proof (Z.mod_pos_bound k n ltac:(lia)) as Hr.
  assert (0 <= k `div` n) as Hq by (apply Z.div_pos; lia).
  replace (seqZ 0 k) with (seqZ 0 (k `div` n * n + k `mod` n)) by (f_equal; lia).
  rewrite seqZ_app by nia. rewrite List.filter_app.
  assert (k `div` n = Z.of_nat (Z.to_nat (k `div` n))) as HK by lia.
  set (q := k `div` n) in *. set (r := k `mod` n) in *.
  rewrite HK at 1 3. rewrite filter_positions by done. rewrite <- HK.
  rewrite (filter_none _ (seqZ (0 + q * n) r)); [by rewrite app_nil_r|].
  intros p Hp%list_elem_of_In%elem_of_seqZ.
  destruct (div_mod_pos q (p - q * n) n ltac:(lia)) as [Hd _].
  replace (q * n + (p - q * n)) with p in Hd by lia.
  rewrite Hd, HP. by rewrite andb_false_r.
Qed.

(** In a uniform pass, the rounds whose last batch is full are the first
    [Lf / n] ones, [Lf] being the number of full batches. *)
Lemma full_rounds_uniform B n pre :
  1 <= n -> uniform B pre ->
  List.filter (round_is_full B n pre) (seqZ 0 (Z.of_nat (length pre) `div` n)) =
  seqZ 0 (full_count B pre `div` n).
Proof.
  intros Hn Hun.
  assert (0 <= full_count B pre <= Z.of_nat (length pre)) as HLf.
  { unfold full_count. pose proof (List.filter_length_le (is_full B) pre). lia. }
  assert (0 <= full_count B pre `div` n) by (apply Z.div_pos; lia).
  pose proof (Z.div_le_mono _ _ n ltac:(lia) (proj2 HLf)).
  pose proof (Z.div_mod (full_count B pre) n ltac:(lia)).
  pose proof (Z.mod_pos_bound (full_count B pre) n ltac:(lia)).
  apply filter_seqZ_initial; [lia| |].
  - intros g Hg. unfold round_is_full.
    destruct (uniform_lookup_full B pre (Z.to_nat (g * n + (n - 1))) Hun) as (b & -> & Hb);
      [nia|done].
  - intros g Hg. unfold round_is_full.
    destruct (pre !! Z.to_nat (g * n + (n - 1))) as [b|] eqn:Hb; [|done].
    eapply uniform_lookup_rest; [done| |done]. nia.
Qed.

Lemma round_is_full_beyond B n pre :
  1 <= n -> round_is_full B n pre (Z.of_nat (length pre) `div` n) = false.
Proof.
  intros Hn. unfold round_is_full. rewrite lookup_ge_None_2; [done|].
  pose proof (Z.div_mod (Z.of_nat (length pre)) n ltac:(lia)).
  pose proof (Z.mod_pos_bound (Z.of_nat (length pre)) n ltac:(lia)).
  assert (0 <= Z.of_nat (length pre) `div` n) by (apply Z.div_pos; lia).
  nia.
Qed.

Lemma yielded_during_pass_spec bs n w pre :
  1 <= n -> 0 <= w < n -> uniform (BatchSampler.batch_size bs) pre ->
  yielded_during_pass
    (BatchSamplerShard.Build bs n w false (BatchSampler.batch_size bs)
       (BatchSampler.drop_last bs)) pre =
  (map (round_batch n w pre) (seqZ 0 (full_count (BatchSampler.batch_size bs) pre `div` n)),
   None).
Proof.
  intros Hn Hw Hun. apply wp_run_generator.
  apply wp_bind, wp_new_list. apply wp_bind, wp_new_list. simpl. apply wp_bind.
  eapply wp_mono; [by apply wp_no_split_loop|].
  intros s st (Hy & _). by apply wp_ret.
Qed.

(** C1, as the code has it.  In whole-batch mode, for [n >= 1] processes,
    a process index [w] in [0, n) and a pass whose batches are all full except
    possibly the last: at the time the loop has consumed the batches [pre] of
    the pass, process [w] has received exactly the batches at the positions
    [p] of [pre], in increasing order, with [p mod n = w] and such that the
    last batch of the round of [p] (position [(p / n) * n + n - 1]) is in [pre]
    and has [B] elements; the batches received by then open the list of the
    batches the process receives in all.  Over the whole pass, the iteration
    yields the batches of the loop and then, unless [drop_last] is set, what
    lines 108-131 add: a full batch that the process still holds from an
    incomplete last round, and rebuilt batches.  For the sampler
    [[0,1,2,3],[4,5,6,7]] on two processes, process 0 receives [[0,1,2,3]] and
    process 1 receives [[4,5,6,7]], whatever [drop_last] is. *)
Theorem whole_batches_go_round_robin (bs : BatchSampler.t) (n w : Z)
    (pre suf : list (list Z)) :
  let B := BatchSampler.batch_size bs in
  let self := BatchSamplerShard.Build bs n w false B (BatchSampler.drop_last bs) in
  1 <= n -> 0 <= w < n ->
  BatchSampler.batches bs = pre ++ suf -> uniform B (pre ++ suf) ->
  yielded_during_pass self pre =
    (map (batch_at pre) (List.filter (handed_over B n w pre) (seqZ 0 (Z.of_nat (length pre)))),
     None) /\
  (exists later,
     shard_output bs n w false = (fst (yielded_during_pass self pre) ++ later, None)) /\
  shard_output bs n w false =
    (fst (yielded_during_pass self (pre ++ suf)) ++
     (if BatchSampler.drop_last bs then [] else no_split_wraparound B n w (pre ++ suf)),
     None) /\
  (forall d,
     shard_output (BatchSampler.Build 4 d [[0;1;2;3];[4;5;6;7]]) 2 0 false
       = ([[0;1;2;3]], None) /\
     shard_output (BatchSampler.Build 4 d [[0;1;2;3];[4;5;6;7]]) 2 1 false
       = ([[4;5;6;7]], None)).
Proof.
  intros B self Hn Hw Hup Hun.
  assert (uniform B pre) as Hpre by (by eapply uniform_app_l).
  split; [|split; [|split]].
  - subst self. rewrite yielded_during_pass_spec by done.
    f_equal. fold B. unfold handed_over.
    rewrite (filter_positions_upto (round_is_full B n pre)), map_map;
      [|lia|lia|by apply round_is_full_beyond].
    by rewrite full_rounds_uniform.
  - subst self. rewrite yielded_during_pass_spec by done.
    rewrite shard_output_no_split by (done || by rewrite Hup). fold B. rewrite Hup. simpl.
    assert (0 <= full_count B pre <= Z.of_nat (length pre)) as HLf.
    { unfold full_count. pose proof (List.filter_length_le (is_full B) pre). lia. }
    assert (full_count B pre <= full_count B (pre ++ suf)) as Hmono.
    { unfold full_count. rewrite List.filter_app, length_app. lia. }
    pose proof (Z.div_le_mono _ _ n ltac:(lia) Hmono) as Hc.
    assert (0 <= full_count B pre `div` n) as Hc0 by (apply Z.div_pos; lia).
    pose proof (Z.div_mod (full_count B pre) n ltac:(lia)).
    pose proof (Z.mod_pos_bound (full_count B pre) n ltac:(lia)).
    replace (full_count B (pre ++ suf) `div` n)
      with (full_count B pre `div` n +
            (full_count B (pre ++ suf) `div` n - full_count B pre `div` n)) by lia.
    rewrite seqZ_app, map_app by lia.
    rewrite (map_ext_in (round_batch n w (pre ++ suf)) (round_batch n w pre)
               (seqZ 0 (full_count B pre `div` n))).
    + rewrite <- app_assoc. eauto.
    + intros g Hg%list_elem_of_In%elem_of_seqZ. unfold round_batch.
      rewrite lookup_app_l by nia. done.
  - subst self. rewrite yielded_during_pass_spec by done.
    rewrite shard_output_no_split by (done || by rewrite Hup). by rewrite Hup.
  - intros d. by destruct d.
Qed.

Lemma whole_batches_go_round_robin_witness :
  yielded_during_pass
    (BatchSamplerShard.Build (BatchSampler.Build 4 false [[0;1;2;3];[4;5;6;7];[8;9]])
       2 0 false 4 false) [[0;1;2;3];[4;5;6;7]] =
    (map (batch_at [[0;1;2;3];[4;5;6;7]])
       (List.filter (handed_over 4 2 0 [[0;1;2;3];[4;5;6;7]]) (seqZ 0 2)),
     None) /\
  (exists later,
     shard_output (BatchSampler.Build 4 false [[0;1;2;3];[4;5;6;7];[8;9]]) 2 0 false =
       (fst (yielded_during_pass
               (BatchSamplerShard.Build (BatchSampler.Build 4 false [[0;1;2;3];[4;5;6;7];[8;9]])
                  2 0 false 4 false) [[0;1;2;3];[4;5;6;7]]) ++ later, None)) /\
  shard_output (BatchSampler.Build 4 false [[0;1;2;3];[4;5;6;7];[8;9]]) 2 0 false =
    (fst (yielded_during_pass
            (BatchSamplerShard.Build (BatchSampler.Build 4 false [[0;1;2;3];[4;5;6;7];[8;9]])
               2 0 false 4 false) ([[0;1;2;3];[4;5;6;7]] ++ [[8;9]])) ++
     (if false then [] else no_split_wraparound 4 2 0 ([[0;1;2;3];[4;5;6;7]] ++ [[8;9]])),
     None) /\
  (forall d,
     shard_output (BatchSampler.Build 4 d [[0;1;2;3];[4;5;6;7]]) 2 0 false
       = ([[0;1;2;3]], None) /\
     shard_output (BatchSampler.Build 4 d [[0;1;2;3];[4;5;6;7]]) 2 1 false
       = ([[4;5;6;7]], None)).
Proof.
  apply (whole_batches_go_round_robin
           (BatchSampler.Build 4 false [[0;1;2;3];[4;5;6;7];[8;9]]) 2 0
           [[0;1;2;3];[4;5;6;7]] [[8;9]]).
  - lia.
  - lia.
  - reflexivity.
  - repeat constructor.
Defined.

(** C1 as it was claimed fails once the pass has ended.  Over the sampler
    [[0,1,2,3],[4,5,6,7],[8,9,10,11]] on two processes without [drop_last],
    process 0 receives the batch at position 2 although the last batch of its
    round, at position 3, never arrives. *)
Lemma held_batch_is_yielded_after_the_pass :
  shard_output (BatchSampler.Build 4 false [[0;1;2;3];[4;5;6;7];[8;9;10;11]]) 2 0 false =
    ([[0;1;2;3];[8;9;10;11]], None) /\
  batch_at [[0;1;2;3];[4;5;6;7];[8;9;10;11]] 2 = [8;9;10;11] /\
  2 `mod` 2 = 0 /\
  [[0;1;2;3];[4;5;6;7];[8;9;10;11]] !! Z.to_nat (2 `div` 2 * 2 + 2 - 1) = None /\
  handed_over 4 2 0 [[0;1;2;3];[4;5;6;7];[8;9;10;11]] 2 = false.
Proof. repeat split; reflexivity. Qed.

(** *** The end of the pass *)

Lemma sum_const (f : Z -> Z) (n c : Z) :
  0 <= n -> (forall w, 0 <= w < n -> f w = c) ->
  foldr Z.add 0 (map f (seqZ 0 n)) = n * c.
Proof.
  intros Hn Hf.
  assert (forall l : list Z, (forall w, In w l -> f w = c) ->
            foldr Z.add 0 (map f l) = Z.of_nat (length l) * c) as Hl.
  { induction l as [|x l IH]; intros H; [done|]. simpl foldr. rewrite (H x) by (by left).
    rewrite IH by (intros y Hy; apply H; by right). simpl length. lia. }
  rewrite Hl.
  - rewrite length_seqZ. by rewrite Z2Nat.id.
  - intros w Hw%list_elem_of_In%elem_of_seqZ. apply Hf. lia.
Qed.

Lemma initial_data_not_empty (n : Z) (up : list (list Z)) (first : list Z) :
  1 <= n -> head up = Some first -> first <> [] ->
  concat (take (Z.to_nat n) up) <> [].
Proof.
  intros Hn Hhead Hne. destruct up as [|f up]; [done|]. simpl in Hhead.
  injection Hhead as ->. replace (Z.to_nat n) with (S (Z.to_nat (n - 1))) by lia.
  simpl. by destruct first.
Qed.

(** What lines 108-131 yield when the last batch [sh] of the pass is not
    full and not empty, the batches [pre] before it being full. *)
Lemma no_split_wraparound_short B n w pre sh :
  1 <= n -> 0 <= w < n ->
  Forall (fun b => is_full B b = true) pre -> 0 < Z.of_nat (length sh) < B ->
  let k := Z.of_nat (length pre) in
  let buf := tiled (n * B) (concat (take (Z.to_nat n) (pre ++ [sh]))) in
  no_split_wraparound B n w (pre ++ [sh]) =
  [if w <? k `mod` n then round_batch n w pre (k `div` n)
   else if w =? k `mod` n then sh ++ py_slice buf 0 (B - Z.of_nat (length sh))
   else py_slice buf ((w - k `mod` n) * B - Z.of_nat (length sh))
          ((w - k `mod` n) * B - Z.of_nat (length sh) + B)].
Proof.
  intros Hn Hw Hpre Hsh k buf.
  assert (is_full B sh = false) as Hshort by (unfold is_full; lia).
  assert (uniform B (pre ++ [sh])) as Hun by (unfold uniform; by rewrite removelast_last).
  assert (full_count B (pre ++ [sh]) = k) as HLf.
  { unfold full_count. by rewrite filter_full_snoc_short. }
  pose proof (Z.div_mod k n ltac:(lia)) as Hk.
  pose proof (Z.mod_pos_bound k n ltac:(lia)) as Hj.
  assert (0 <= k `div` n) as Hq by (apply Z.div_pos; lia).
  assert (k = Z.of_nat (length pre)) as Hkk by done.
  unfold no_split_wraparound. fold buf. rewrite HLf, last_snoc, Hshort.
  set (q := k `div` n) in *. set (j := k `mod` n) in *.
  assert (concat (take (Z.to_nat n) (pre ++ [sh])) <> []) as Hinit.
  { destruct (head (pre ++ [sh])) as [first|] eqn:Hfirst; [|by destruct pre].
    eapply initial_data_not_empty; [done|done|].
    destruct pre as [|f pre']; simpl in Hfirst; injection Hfirst as <-.
    - intros ->. simpl in Hsh. lia.
    - apply Forall_cons in Hpre as [Hf _]. unfold is_full in Hf. apply Z.eqb_eq in Hf.
      intros ->. simpl in Hf. lia. }
  destruct (Z.ltb_spec 0 (Z.of_nat (length (concat (take (Z.to_nat n) (pre ++ [sh]))))))
    as [_|Hlen]; [|destruct (concat _); [done|simpl in Hlen; lia]].
  destruct (Z.ltb_spec 0 (Z.of_nat (length sh))); [|lia]. rewrite orb_true_r.
  unfold rest_yields. rewrite mod_succ by lia. fold j.
  destruct (Z.ltb_spec w j) as [Hlt|Hge].
  - (* the process holds a full batch of the last round *)
    rewrite round_batch_snoc_old by lia.
    destruct (uniform_lookup_full B (pre ++ [sh]) (Z.to_nat (q * n + w)) Hun ltac:(lia))
      as (b & Hb & Hfull).
    rewrite lookup_app_l in Hb by lia.
    unfold round_batch at 1. rewrite Hb. simpl. rewrite Hfull.
    destruct (Z.eqb_spec j w); [lia|].
    destruct (Z.eqb_spec j (n - 1)); simpl.
    + unfold round_batch. by rewrite Hb.
    + destruct (Z.eqb_spec (j + 1) 0); [lia|].
      destruct (Z.leb_spec (j + 1) w); [lia|]. unfold round_batch. by rewrite Hb.
  - destruct (Z.eqb_spec w j) as [->|Hne].
    + (* the process holds the short batch *)
      rewrite round_batch_snoc_new by lia. rewrite Hshort, Z.eqb_refl. simpl.
      destruct (Z.eqb_spec j (n - 1)); simpl; [done|].
      destruct (Z.eqb_spec (j + 1) 0); [lia|].
      destruct (Z.leb_spec (j + 1) j); [lia|]. done.
    + (* the process holds nothing *)
      rewrite round_batch_beyond by (rewrite length_app; simpl; lia).
      assert (is_full B [] = false) as -> by (apply Z.eqb_neq; simpl; lia).
      destruct (Z.eqb_spec j w); [lia|]. simpl.
      destruct (Z.eqb_spec j (n - 1)); [lia|].
      destruct (Z.eqb_spec (j + 1) 0); [lia|].
      destruct (Z.leb_spec (j + 1) w); [|lia].
      do 2 f_equal; ring.
Qed.

Lemma rounds_of_prefix n w pre sh q :
  1 <= n -> 0 <= w < n -> q * n <= Z.of_nat (length pre) ->
  map (round_batch n w (pre ++ [sh])) (seqZ 0 q) = map (round_batch n w pre) (seqZ 0 q).
Proof.
  intros Hn Hw Hq. apply map_ext_in. intros g Hg%list_elem_of_In%elem_of_seqZ.
  apply round_batch_snoc_old. nia.
Qed.

(** The output of a process in whole-batch mode over a pass that ends with
    a short batch. *)
Lemma shard_output_no_split_short (bs : BatchSampler.t) (n w : Z)
    (pre : list (list Z)) (sh : list Z) :
  let B := BatchSampler.batch_size bs in
  let k := Z.of_nat (length pre) in
  let q := k `div` n in
  let j := k `mod` n in
  let initial := concat (take (Z.to_nat n) (pre ++ [sh])) in
  let buf := tiled (n * B) initial in
  let earlier := map (round_batch n w pre) (seqZ 0 q) in
  let final :=
    if w <? j then round_batch n w pre q
    else if w =? j then sh ++ py_slice buf 0 (B - Z.of_nat (length sh))
    else py_slice buf ((w - j) * B - Z.of_nat (length sh))
           ((w - j) * B - Z.of_nat (length sh) + B) in
  1 <= n -> 0 <= w < n ->
  BatchSampler.batches bs = pre ++ [sh] ->
  Forall (fun b => is_full B b = true) pre ->
  0 < Z.of_nat (length sh) < B ->
  shard_output bs n w false =
    (if BatchSampler.drop_last bs then earlier else earlier ++ [final], None) /\
  Z.of_nat (length final) = B /\
  initial <> [].
Proof.
  intros B k q j initial buf earlier final Hn Hw Hup Hpre Hsh.
  assert (is_full B sh = false) as Hshort by (unfold is_full; lia).
  assert (uniform B (pre ++ [sh])) as Hun by (unfold uniform; by rewrite removelast_last).
  assert (full_count B (pre ++ [sh]) = k) as HLf.
  { unfold full_count. by rewrite filter_full_snoc_short. }
  pose proof (Z.div_mod k n ltac:(lia)) as Hk.
  pose proof (Z.mod_pos_bound k n ltac:(lia)) as Hj.
  assert (0 <= k `div` n) as Hq by (apply Z.div_pos; lia).
  assert (k = Z.of_nat (length pre)) as Hkk by done.
  fold q j in Hk, Hj, Hq.
  assert (initial <> []) as Hinit.
  { destruct (head (pre ++ [sh])) as [first|] eqn:Hfirst; [|by destruct pre].
    eapply initial_data_not_empty; [done|done|].
    destruct pre as [|f pre']; simpl in Hfirst; injection Hfirst as <-.
    - intros ->. simpl in Hsh. lia.
    - apply Forall_cons in Hpre as [Hf _]. unfold is_full in Hf. apply Z.eqb_eq in Hf.
      intros ->. simpl in Hf. lia. }
  pose proof (tiled_length (n * B) initial Hinit) as Hbuf. fold buf in Hbuf.
  split; [|split; [|done]].
  - rewrite shard_output_no_split by (done || by rewrite Hup). fold B. rewrite Hup, HLf.
    fold q. rewrite rounds_of_prefix by (done || nia). fold earlier. f_equal.
    destruct (BatchSampler.drop_last bs); [by rewrite app_nil_r|].
    by rewrite no_split_wraparound_short.
  - subst final. destruct (Z.ltb_spec w j).
    + destruct (uniform_lookup_full B (pre ++ [sh]) (Z.to_nat (q * n + w)) Hun ltac:(lia))
        as (b & Hb & Hfull).
      rewrite lookup_app_l in Hb by lia. unfold round_batch. rewrite Hb. simpl.
      unfold is_full in Hfull. lia.
    + destruct (Z.eqb_spec w j).
      * rewrite length_app, Nat2Z.inj_add, py_slice_length; [lia|lia|nia].
      * rewrite py_slice_length; [lia|nia|nia].
Qed.

(** C2.  In whole-batch mode, for [n >= 1] processes, a process index [w]
    in [0, n) and a pass [pre ++ [sh]] whose batches [pre] are full and whose
    last batch [sh] is short (and not empty); [k] is the number of full
    batches, [q = k / n] the round of [sh] and [j = k mod n] its position in
    that round.  The process first receives its batch of each of the rounds
    before [q].  When [drop_last] is set that is all: no batch of round [q] is
    yielded.  Otherwise it receives one batch more, of exactly [B] elements:
    the full batch it holds from round [q] when [w < j]; [sh] completed with
    the first elements of [buf] when [w = j]; and when [w > j] the piece of
    [B] elements of [buf] that follows the pieces cut for the positions
    between [j] and [w].  [buf] is the chain of the first [n] batches of the
    pass, doubled until it has at least [n * B] elements, so that its element
    [i] is the element [i mod len] of that chain.  Every process thus receives
    [q + 1] batches, and the processes [n * (q + 1)] together.  For the
    sampler [[0,1,2,3],[4,5,6,7],[8,9]] on two processes without [drop_last],
    process 0 receives [[0,1,2,3],[8,9,0,1]] and process 1 receives
    [[4,5,6,7],[2,3,4,5]]. *)
Theorem short_final_round_is_dropped_or_wrapped (bs : BatchSampler.t) (n w : Z)
    (pre : list (list Z)) (sh : list Z) :
  let B := BatchSampler.batch_size bs in
  let k := Z.of_nat (length pre) in
  let q := k `div` n in
  let j := k `mod` n in
  let initial := concat (take (Z.to_nat n) (pre ++ [sh])) in
  let buf := tiled (n * B) initial in
  let earlier := map (round_batch n w pre) (seqZ 0 q) in
  let final :=
    if w <? j then round_batch n w pre q
    else if w =? j then sh ++ py_slice buf 0 (B - Z.of_nat (length sh))
    else py_slice buf ((w - j) * B - Z.of_nat (length sh))
           ((w - j) * B - Z.of_nat (length sh) + B) in
  1 <= n -> 0 <= w < n ->
  BatchSampler.batches bs = pre ++ [sh] ->
  Forall (fun b => is_full B b = true) pre ->
  0 < Z.of_nat (length sh) < B ->
  shard_output bs n w false =
    (if BatchSampler.drop_last bs then earlier else earlier ++ [final], None) /\
  Z.of_nat (length final) = B /\
  Z.of_nat (length (fst (shard_output bs n w false))) =
    (if BatchSampler.drop_last bs then q else q + 1) /\
  total_batches bs n false = n * (if BatchSampler.drop_last bs then q else q + 1) /\
  n * B <= Z.of_nat (length buf) /\
  (forall i : nat, (i < length buf)%nat -> buf !! i = initial !! (i mod length initial)%nat) /\
  shard_output (BatchSampler.Build 4 false [[0;1;2;3];[4;5;6;7];[8;9]]) 2 0 false
    = ([[0;1;2;3];[8;9;0;1]], None) /\
  shard_output (BatchSampler.Build 4 false [[0;1;2;3];[4;5;6;7];[8;9]]) 2 1 false
    = ([[4;5;6;7];[2;3;4;5]], None).
Proof.
  intros B k q j initial buf earlier final Hn Hw Hup Hpre Hsh.
  destruct (shard_output_no_split_short bs n w pre sh) as (Hout & Hfinal & Hinit); try done.
  fold B k q j initial buf earlier final in Hout, Hfinal, Hinit.
  assert (0 <= q) as Hq by (apply Z.div_pos; lia).
  assert (forall w', 0 <= w' < n ->
            Z.of_nat (length (fst (shard_output bs n w' false))) =
              (if BatchSampler.drop_last bs then q else q + 1)) as Hcount.
  { intros w' Hw'.
    destruct (shard_output_no_split_short bs n w' pre sh) as (Hout' & _ & _); try done.
    rewrite Hout'. fold B k q.
    destruct (BatchSampler.drop_last bs); simpl;
      rewrite ?length_app, length_map, length_seqZ; simpl; lia. }
  split; [done|]. split; [done|]. split; [by apply Hcount|]. split.
  { unfold total_batches. apply sum_const; [lia|done]. }
  split; [by apply tiled_length|]. split; [intros i Hi; by apply tile_fuel_cycles|].
  split; reflexivity.
Qed.

Lemma short_final_round_is_dropped_or_wrapped_witness :
  let bs := BatchSampler.Build 4 false [[0;1;2;3];[4;5;6;7];[8;9]] in
  let n := 2 in
  let w := 1 in
  let pre := [[0;1;2;3];[4;5;6;7]] in
  let sh := [8;9] in
  let B := BatchSampler.batch_size bs in
  let k := Z.of_nat (length pre) in
  let q := k `div` n in
  let j := k `mod` n in
  let initial := concat (take (Z.to_nat n) (pre ++ [sh])) in
  let buf := tiled (n * B) initial in
  let earlier := map (round_batch n w pre) (seqZ 0 q) in
  let final :=
    if w <? j then round_batch n w pre q
    else if w =? j then sh ++ py_slice buf 0 (B - Z.of_nat (length sh))
    else py_slice buf ((w - j) * B - Z.of_nat (length sh))
           ((w - j) * B - Z.of_nat (length sh) + B) in
  shard_output bs n w false =
    (if BatchSampler.drop_last bs then earlier else earlier ++ [final], None) /\
  Z.of_nat (length final) = B /\
  Z.of_nat (length (fst (shard_output bs n w false))) =
    (if BatchSampler.drop_last bs then q else q + 1) /\
  total_batches bs n false = n * (if BatchSampler.drop_last bs then q else q + 1) /\
  n * B <= Z.of_nat (length buf) /\
  (forall i : nat, (i < length buf)%nat -> buf !! i = initial !! (i mod length initial)%nat) /\
  shard_output (BatchSampler.Build 4 false [[0;1;2;3];[4;5;6;7];[8;9]]) 2 0 false
    = ([[0;1;2;3];[8;9;0;1]], None) /\
  shard_output (BatchSampler.Build 4 false [[0;1;2;3];[4;5;6;7];[8;9]]) 2 1 false
    = ([[4;5;6;7];[2;3;4;5]], None).
Proof.
  cbv zeta.
  apply (short_final_round_is_dropped_or_wrapped
           (BatchSampler.Build 4 false [[0;1;2;3];[4;5;6;7];[8;9]]) 2 1
           [[0;1;2;3];[4;5;6;7]] [8;9]).
  - lia.
  - lia.
  - reflexivity.
  - repeat constructor.
  - simpl. lia.
Defined.

(** C2 as it was claimed fails on its own scenario.  Over the sampler
    [[0,1,2,3],[4,5,6,7],[8,9]] on two processes without [drop_last], the
    buffer is [[0,1,2,3,4,5,6,7]] and its pieces of [batch_size] elements are
    [[0,1,2,3]] and [[4,5,6,7]]; the second batch of process 0 is the short
    batch completed with the first two elements of the buffer, [[8,9,0,1]],
    whose indices 8 and 9 are not in the buffer, and the second batch of
    process 1 is [[2,3,4,5]], which is cut where the completion stopped and is
    neither of the two pieces (lines 125-126). *)
Lemma short_batch_is_completed_from_the_buffer :
  shard_output (BatchSampler.Build 4 false [[0;1;2;3];[4;5;6;7];[8;9]]) 2 0 false =
    ([[0;1;2;3];[8;9;0;1]], None) /\
  shard_output (BatchSampler.Build 4 false [[0;1;2;3];[4;5;6;7];[8;9]]) 2 1 false =
    ([[4;5;6;7];[2;3;4;5]], None) /\
  tiled (2 * 4) (concat (take (Z.to_nat 2) [[0;1;2;3];[4;5;6;7];[8;9]])) =
    [0;1;2;3;4;5;6;7] /\
  py_slice [0;1;2;3;4;5;6;7] 0 4 = [0;1;2;3] /\
  py_slice [0;1;2;3;4;5;6;7] 4 8 = [4;5;6;7] /\
  existsb (Z.eqb 8) [0;1;2;3;4;5;6;7] = false /\
  existsb (fun piece => bool_decide (piece = [8;9;0;1]))
    [py_slice [0;1;2;3;4;5;6;7] 0 4; py_slice [0;1;2;3;4;5;6;7] 4 8] = false /\
  existsb (fun piece => bool_decide (piece = [2;3;4;5]))
    [py_slice [0;1;2;3;4;5;6;7] 0 4; py_slice [0;1;2;3;4;5;6;7] 4 8] = false.
Proof. repeat split; reflexivity. Qed.

(** What lines 108-131 yield when every batch of the pass is full (and the
    pass is not empty): nothing when the number [k] of batches is a multiple
    of [n]; otherwise one batch per process, the full batch the process holds
    from the last round or a piece of [B] elements of [buf]. *)
Lemma no_split_wraparound_full B n w up :
  1 <= n -> 0 <= w < n -> 0 < B -> up <> [] ->
  Forall (fun b => is_full B b = true) up ->
  let k := Z.of_nat (length up) in
  let buf := tiled (n * B) (concat (take (Z.to_nat n) up)) in
  no_split_wraparound B n w up =
  if k `mod` n =? 0 then []
  else [if w <? k `mod` n then round_batch n w up (k `div` n)
        else py_slice buf ((w - k `mod` n) * B) ((w - k `mod` n) * B + B)].
Proof.
  intros Hn Hw HB Hne Hfull k buf.
  pose proof (full_count_all _ _ Hfull) as HLf. fold k in HLf.
  assert (uniform B up) as Hun.
  { unfold uniform. destruct up as [|b up] using rev_ind; [done|].
    rewrite removelast_last. by apply Forall_app in Hfull as [? _]. }
  pose proof (Z.div_mod k n ltac:(lia)) as Hk.
  pose proof (Z.mod_pos_bound k n ltac:(lia)) as Hj.
  assert (0 <= k `div` n) as Hq by (apply Z.div_pos; lia).
  assert (k = Z.of_nat (length up)) as Hkk by done.
  unfold no_split_wraparound. fold buf. rewrite HLf.
  set (q := k `div` n) in *. set (j := k `mod` n) in *.
  destruct (last up) as [l|] eqn:El; [|by apply last_None in El].
  assert (is_full B l = true) as ->.
  { apply last_Some in El as [pre ->]. by apply Forall_app in Hfull as [_ [? _]%Forall_cons]. }
  assert (concat (take (Z.to_nat n) up) <> []) as Hinit.
  { destruct up as [|f up']; [done|]. eapply initial_data_not_empty; [done|done|].
    apply Forall_cons in Hfull as [Hf _]. unfold is_full in Hf. apply Z.eqb_eq in Hf.
    intros ->. simpl in Hf. lia. }
  destruct (Z.ltb_spec 0 (Z.of_nat (length (concat (take (Z.to_nat n) up)))))
    as [_|Hlen]; [|destruct (concat _); [done|simpl in Hlen; lia]].
  simpl length. rewrite orb_false_r.
  unfold rest_yields. rewrite mod_succ by lia. fold j.
  destruct (Z.ltb_spec w j) as [Hlt|Hge].
  - destruct (uniform_lookup_full B up (Z.to_nat (q * n + w)) Hun ltac:(lia))
      as (b & Hb & Hb').
    unfold round_batch. rewrite Hb. simpl. rewrite Hb'.
    destruct (Z.eqb_spec j 0); [lia|]. simpl.
    destruct (Z.eqb_spec j w); [lia|]. simpl.
    destruct (Z.eqb_spec j (n - 1)); simpl; [done|].
    destruct (Z.eqb_spec (j + 1) 0); [lia|].
    destruct (Z.leb_spec (j + 1) w); [lia|]. done.
  - rewrite round_batch_beyond by lia.
    assert (is_full B [] = false) as -> by (apply Z.eqb_neq; simpl; lia).
    destruct (Z.eqb_spec j 0); [done|]. simpl.
    destruct (Z.eqb_spec j w) as [->|Hne'].
    + destruct (Z.eqb_spec w (n - 1)); simpl.
      * do 2 f_equal; lia.
      * destruct (Z.eqb_spec (w + 1) 0); [lia|].
        destruct (Z.leb_spec (w + 1) w); [lia|]. do 2 f_equal; lia.
    + destruct (Z.eqb_spec j (n - 1)); [lia|].
      destruct (Z.eqb_spec (j + 1) 0); [lia|].
      destruct (Z.leb_spec (j + 1) w); [|lia]. simpl.
      do 2 f_equal; ring.
Qed.

(** ** Counting batches *)

Lemma well_formed_cases B up :
  well_formed_pass B up = true ->
  up = [] \/
  exists pre l, up = pre ++ [l] /\ Forall (fun b => is_full B b = true) pre /\
                0 < Z.of_nat (length l) <= B.
Proof.
  unfold well_formed_pass. intros [Hfull Hsize]%andb_prop.
  destruct up as [|l pre _] using rev_ind; [by left|]. right. exists pre, l.
  rewrite removelast_last in Hfull. split; [done|]. split.
  - apply Forall_forall. intros b Hb%list_elem_of_In.
    by eapply forallb_forall in Hfull.
  - rewrite forallb_app in Hsize. apply andb_prop in Hsize as [_ Hl]. simpl in Hl. lia.
Qed.

Lemma rounds_are_full B n w up :
  1 <= n -> 0 <= w < n -> uniform B up ->
  Forall (fun y => Z.of_nat (length y) = B)
    (map (round_batch n w up) (seqZ 0 (full_count B up `div` n))).
Proof.
  intros Hn Hw Hun. apply Forall_forall. intros y Hy%list_elem_of_In%in_map_iff.
  destruct Hy as (g & <- & Hg%list_elem_of_In%elem_of_seqZ).
  assert (0 <= full_count B up) by (unfold full_count; lia).
  pose proof (Z.div_mod (full_count B up) n ltac:(lia)).
  pose proof (Z.mod_pos_bound (full_count B up) n ltac:(lia)).
  destruct (uniform_lookup_full B up (Z.to_nat (g * n + w)) Hun ltac:(nia)) as (b & Hb & Hfull).
  unfold round_batch. rewrite Hb. simpl. unfold is_full in Hfull. lia.
Qed.

(** In whole-batch mode every process receives the same number of batches,
    all of [B] elements. *)
Lemma whole_mode_count bs n w :
  let B := BatchSampler.batch_size bs in
  let up := BatchSampler.batches bs in
  let Lf := full_count B up in
  1 <= n -> 0 <= w < n -> well_formed_pass B up = true ->
  snd (shard_output bs n w false) = None /\
  Forall (fun y => Z.of_nat (length y) = B) (fst (shard_output bs n w false)) /\
  Z.of_nat (length (fst (shard_output bs n w false))) =
    Lf `div` n +
    (if BatchSampler.drop_last bs then 0
     else if (Lf `mod` n =? 0) && (Lf =? Z.of_nat (length up)) then 0 else 1).
Proof.
  intros B up Lf Hn Hw Hwf.
  destruct (well_formed_cases _ _ Hwf) as [Hup|(pre & l & Hup & Hpre & Hl)].
  - (* the empty pass *)
    assert (uniform B up) as Hun by (rewrite Hup; constructor).
    rewrite shard_output_no_split by done. fold B up Lf.
    subst Lf. rewrite Hup. unfold no_split_wraparound, full_count. simpl.
    rewrite take_nil. change (Z.of_nat 0) with 0. rewrite Zdiv_0_l. simpl.
    by destruct (BatchSampler.drop_last bs).
  - destruct (is_full B l) eqn:Hfull.
    + (* every batch is full *)
      assert (Forall (fun b => is_full B b = true) up) as Hall.
      { rewrite Hup. apply Forall_app. split; [done|]. by constructor. }
      assert (uniform B up) as Hun.
      { unfold uniform. rewrite Hup. by rewrite removelast_last. }
      assert (0 < B) by (unfold is_full in Hfull; lia).
      assert (up <> []) as Hne by (rewrite Hup; by destruct pre).
      pose proof (full_count_all _ _ Hall) as HLf. fold Lf in HLf.
      pose proof (Z.mod_pos_bound Lf n ltac:(lia)) as Hj.
      assert (0 <= Lf `div` n) as Hq by (apply Z.div_pos; lia).
      pose proof (Z.div_mod Lf n ltac:(lia)) as HLfn.
      pose proof (rounds_are_full B n w up Hn Hw Hun) as Hrounds. fold Lf in Hrounds.
      rewrite shard_output_no_split by done. fold B up Lf. simpl.
      split; [done|]. rewrite HLf, Z.eqb_refl, andb_true_r. rewrite <- HLf.
      destruct (BatchSampler.drop_last bs).
      { rewrite app_nil_r. split; [done|]. rewrite length_map, length_seqZ. lia. }
      rewrite no_split_wraparound_full by done. rewrite <- HLf.
      destruct (Z.eqb_spec (Lf `mod` n) 0).
      { rewrite app_nil_r. split; [done|]. rewrite length_map, length_seqZ. lia. }
      split.
      * apply Forall_app. split; [done|]. constructor; [|done].
        destruct (Z.ltb_spec w (Lf `mod` n)).
        -- destruct (uniform_lookup_full B up (Z.to_nat (Lf `div` n * n + w)) Hun ltac:(lia))
             as (b & Hb & Hb').
           unfold round_batch. rewrite Hb. simpl. unfold is_full in Hb'. lia.
        -- assert (concat (take (Z.to_nat n) up) <> []) as Hinit.
           { destruct up as [|f up']; [done|]. eapply initial_data_not_empty; [done|done|].
             apply Forall_cons in Hall as [Hf _]. unfold is_full in Hf. apply Z.eqb_eq in Hf.
             intros ->. simpl in Hf. lia. }
           pose proof (tiled_length (n * B) _ Hinit).
           rewrite py_slice_length; [lia|nia|nia].
      * rewrite length_app, length_map, length_seqZ. simpl. lia.
    + (* the last batch is short *)
      assert (0 < Z.of_nat (length l) < B) as Hsh by (unfold is_full in Hfull; lia).
      destruct (shard_output_no_split_short bs n w pre l) as (Hout & Hfinal & _); try done.
      fold B in Hout, Hfinal.
      assert (Lf = Z.of_nat (length pre)) as HLf.
      { subst Lf. fold up. rewrite Hup. unfold full_count.
        by rewrite filter_full_snoc_short. }
      assert (uniform B pre) as Hun.
      { apply (uniform_app_l B pre [l]). unfold uniform. by rewrite removelast_last. }
      pose proof (rounds_are_full B n w pre Hn Hw Hun) as Hrounds.
      rewrite (full_count_all _ _ Hpre) in Hrounds.
      assert (0 <= Z.of_nat (length pre) `div` n) as Hq by (apply Z.div_pos; lia).
      rewrite Hout. simpl. split; [done|].
      assert ((Lf =? Z.of_nat (length up)) = false) as ->.
      { apply Z.eqb_neq. fold up. rewrite Hup, length_app. simpl. lia. }
      rewrite andb_false_r, HLf.
      destruct (BatchSampler.drop_last bs).
      * split; [done|]. rewrite length_map, length_seqZ. lia.
      * split.
        -- apply Forall_app. split; [done|]. by constructor.
        -- rewrite length_app, length_map, length_seqZ. simpl. lia.
Qed.

Lemma slices_of_full_batches B n w pre :
  1 <= n -> 0 <= w < n -> B `mod` n = 0 ->
  Forall (fun b => is_full B b = true) pre ->
  Forall (fun y => Z.of_nat (length y) = B `div` n) (map (shard_slice B n w) pre).
Proof.
  intros Hn Hw Hdiv Hpre. apply Forall_forall. intros y Hy%list_elem_of_In%in_map_iff.
  destruct Hy as (b & <- & Hb%list_elem_of_In).
  eapply Forall_forall in Hpre; [|done]. unfold is_full in Hpre. apply Z.eqb_eq in Hpre.
  assert (0 <= B `div` n) as Hsl by (apply Z.div_pos; lia).
  assert (B = n * (B `div` n)) as HB by (rewrite (Z.div_mod B n) at 1 by lia; lia).
  unfold shard_slice. rewrite py_slice_length; [lia|nia|nia].
Qed.

(** In split mode every process receives the same number of batches, all of
    [B / n] elements. *)
Lemma split_mode_count bs n w :
  let B := BatchSampler.batch_size bs in
  let up := BatchSampler.batches bs in
  1 <= n -> 0 <= w < n -> B `mod` n = 0 -> well_formed_pass B up = true ->
  snd (shard_output bs n w true) = None /\
  Forall (fun y => Z.of_nat (length y) = B `div` n) (fst (shard_output bs n w true)) /\
  Z.of_nat (length (fst (shard_output bs n w true))) =
    (if BatchSampler.drop_last bs then full_count B up else Z.of_nat (length up)).
Proof.
  intros B up Hn Hw Hdiv Hwf.
  destruct (well_formed_cases _ _ Hwf) as [Hup|(pre & l & Hup & Hpre & Hl)].
  - rewrite shard_output_split by (done || lia). fold B up. rewrite Hup. simpl.
    by destruct (BatchSampler.drop_last bs).
  - destruct (is_full B l) eqn:Hfull.
    + assert (Forall (fun b => is_full B b = true) up) as Hall.
      { rewrite Hup. apply Forall_app. split; [done|]. by constructor. }
      rewrite shard_output_split by (done || lia). fold B up.
      rewrite (filter_all_full _ _ Hall).
      assert (split_wraparound B (B `div` n) w up = []) as ->.
      { unfold split_wraparound. destruct (head up); [|done].
        rewrite Hup, last_snoc. unfold is_full in Hfull. apply Z.eqb_eq in Hfull.
        destruct (Z.ltb_spec (Z.of_nat (length l)) B); [lia|]. by rewrite andb_false_r. }
      unfold full_count. rewrite (filter_all_full _ _ Hall).
      simpl. split; [done|].
      assert (forall X : list (list Z), (if BatchSampler.drop_last bs then X else X) = X) as Hif
        by (intros X; by destruct (BatchSampler.drop_last bs)).
      rewrite Hif, app_nil_r. split; [by apply slices_of_full_batches|].
      rewrite length_map. by destruct (BatchSampler.drop_last bs).
    + assert (0 < Z.of_nat (length l) < B) as Hsh by (unfold is_full in Hfull; lia).
      destruct (head (pre ++ [l])) as [first|] eqn:Hfirst; [|by destruct pre].
      destruct (shard_output_split_short bs n w pre l first) as (Hout & Hlen & _); try done.
      fold B in Hout, Hlen. rewrite Hout. simpl. split; [done|].
      fold up. rewrite Hup. unfold full_count. rewrite filter_full_snoc_short by done.
      pose proof (slices_of_full_batches B n w pre Hn Hw Hdiv Hpre) as Hsl.
      destruct (BatchSampler.drop_last bs).
      * rewrite app_nil_r. split; [done|]. by rewrite length_map.
      * split.
        -- apply Forall_app. split; [done|]. by constructor.
        -- rewrite !length_app, length_map. simpl. lia.
Qed.

(** C5, as the code has it.  For [n >= 1] processes and a well-formed
    pass with [Lf] full batches.  In whole-batch mode every process receives
    the same number [c] of batches, each of [B] elements, so that the processes
    receive [n * c] batches together; when [drop_last] is set that total is
    [Lf - Lf mod n], which is [L - L mod n] when no batch of the pass is short.
    In split mode (with [n] dividing [B]) every process receives the same
    number [c] of batches, each of [B / n] elements, [n * c] together; when
    [drop_last] is set every process receives one batch per full batch of the
    pass, and the total is [n * Lf]. *)
Theorem shards_are_balanced (bs : BatchSampler.t) (n : Z) :
  let B := BatchSampler.batch_size bs in
  let up := BatchSampler.batches bs in
  let L := BatchSampler.__len__ bs in
  let Lf := full_count B up in
  1 <= n -> well_formed_pass B up = true ->
  (exists c,
     (forall w, 0 <= w < n ->
        snd (shard_output bs n w false) = None /\
        Forall (fun y => Z.of_nat (length y) = B) (fst (shard_output bs n w false)) /\
        Z.of_nat (length (fst (shard_output bs n w false))) = c) /\
     total_batches bs n false = n * c /\
     (BatchSampler.drop_last bs = true -> total_batches bs n false = Lf - Lf `mod` n) /\
     (BatchSampler.drop_last bs = true -> Lf = L ->
      total_batches bs n false = L - L `mod` n)) /\
  (B `mod` n = 0 ->
   exists c,
     (forall w, 0 <= w < n ->
        snd (shard_output bs n w true) = None /\
        Forall (fun y => Z.of_nat (length y) = B `div` n) (fst (shard_output bs n w true)) /\
        Z.of_nat (length (fst (shard_output bs n w true))) = c) /\
     total_batches bs n true = n * c /\
     (BatchSampler.drop_last bs = true -> total_batches bs n true = n * Lf)).
Proof.
  intros B up L Lf Hn Hwf. split.
  - set (c := Lf `div` n +
              (if BatchSampler.drop_last bs then 0
               else if (Lf `mod` n =? 0) && (Lf =? Z.of_nat (length up)) then 0 else 1)).
    assert (forall w, 0 <= w < n ->
              snd (shard_output bs n w false) = None /\
              Forall (fun y => Z.of_nat (length y) = B) (fst (shard_output bs n w false)) /\
              Z.of_nat (length (fst (shard_output bs n w false))) = c) as Hall.
    { intros w Hw. by apply whole_mode_count. }
    assert (total_batches bs n false = n * c) as Htotal.
    { unfold total_batches. apply sum_const; [lia|]. intros w Hw. by apply Hall. }
    assert (BatchSampler.drop_last bs = true -> total_batches bs n false = Lf - Lf `mod` n)
      as Hdrop.
    { intros Hd. rewrite Htotal. subst c. rewrite Hd.
      pose proof (Z.div_mod Lf n ltac:(lia)). lia. }
    exists c. split; [done|]. split; [done|]. split; [done|].
    intros Hd <-. by apply Hdrop.
  - intros Hdiv.
    set (c := if BatchSampler.drop_last bs then Lf else Z.of_nat (length up)).
    assert (forall w, 0 <= w < n ->
              snd (shard_output bs n w true) = None /\
              Forall (fun y => Z.of_nat (length y) = B `div` n)
                (fst (shard_output bs n w true)) /\
              Z.of_nat (length (fst (shard_output bs n w true))) = c) as Hall.
    { intros w Hw. by apply split_mode_count. }
    assert (total_batches bs n true = n * c) as Htotal.
    { unfold total_batches. apply sum_const; [lia|]. intros w Hw. by apply Hall. }
    exists c. split; [done|]. split; [done|].
    intros Hd. rewrite Htotal. subst c. by rewrite Hd.
Qed.

Lemma shards_are_balanced_witness :
  let bs := BatchSampler.Build 4 false [[0;1;2;3];[4;5;6;7];[8;9]] in
  let n := 2 in
  let B := BatchSampler.batch_size bs in
  let up := BatchSampler.batches bs in
  let L := BatchSampler.__len__ bs in
  let Lf := full_count B up in
  (exists c,
     (forall w, 0 <= w < n ->
        snd (shard_output bs n w false) = None /\
        Forall (fun y => Z.of_nat (length y) = B) (fst (shard_output bs n w false)) /\
        Z.of_nat (length (fst (shard_output bs n w false))) = c) /\
     total_batches bs n false = n * c /\
     (BatchSampler.drop_last bs = true -> total_batches bs n false = Lf - Lf `mod` n) /\
     (BatchSampler.drop_last bs = true -> Lf = L ->
      total_batches bs n false = L - L `mod` n)) /\
  (B `mod` n = 0 ->
   exists c,
     (forall w, 0 <= w < n ->
        snd (shard_output bs n w true) = None /\
        Forall (fun y => Z.of_nat (length y) = B `div` n) (fst (shard_output bs n w true)) /\
        Z.of_nat (length (fst (shard_output bs n w true))) = c) /\
     total_batches bs n true = n * c /\
     (BatchSampler.drop_last bs = true -> total_batches bs n true = n * Lf)).
Proof.
  cbv zeta.
  apply (shards_are_balanced (BatchSampler.Build 4 false [[0;1;2;3];[4;5;6;7];[8;9]]) 2).
  - lia.
  - reflexivity.
Defined.

(** C5 as it was claimed fails in two ways when [drop_last] is set.  In
    split mode over [[0,1,2,3],[4,5,6,7]] on two processes, the processes
    receive 4 batches together, and [L - L mod n] is 2.  In whole-batch mode
    over [[0,1,2,3],[4,5,6,7],[8,9,10,11],[12,13]] on two processes, the
    processes receive 2 batches together, and [L - L mod n] is 4. *)
Lemma total_is_not_len_minus_remainder :
  total_batches (BatchSampler.Build 4 true [[0;1;2;3];[4;5;6;7]]) 2 true = 4 /\
  BatchSampler.__len__ (BatchSampler.Build 4 true [[0;1;2;3];[4;5;6;7]]) -
    BatchSampler.__len__ (BatchSampler.Build 4 true [[0;1;2;3];[4;5;6;7]]) `mod` 2 = 2 /\
  total_batches
    (BatchSampler.Build 4 true [[0;1;2;3];[4;5;6;7];[8;9;10;11];[12;13]]) 2 false = 2 /\
  BatchSampler.__len__
    (BatchSampler.Build 4 true [[0;1;2;3];[4;5;6;7];[8;9;10;11];[12;13]]) -
    BatchSampler.__len__
      (BatchSampler.Build 4 true [[0;1;2;3];[4;5;6;7];[8;9;10;11];[12;13]]) `mod` 2 = 4.
Proof. repeat split; reflexivity. Qed.

(** In whole-batch mode the processes advance in lock step: for a pass
    whose batches are all full except possibly the last, the batch number [g]
    that process [w] receives, for each round [g] of full batches, is the batch
    at position [g * n + w] of the pass, so that the batches number [g] of the
    [n] processes are the [n] batches of round [g]. *)
Theorem processes_advance_in_lock_step (bs : BatchSampler.t) (n w g : Z) :
  let B := BatchSampler.batch_size bs in
  let up := BatchSampler.batches bs in
  1 <= n -> 0 <= w < n -> uniform B up ->
  0 <= g < full_count B up `div` n ->
  fst (shard_output bs n w false) !! Z.to_nat g = up !! Z.to_nat (g * n + w) /\
  exists b, up !! Z.to_nat (g * n + w) = Some b /\ Z.of_nat (length b) = B.
Proof.
  intros B up Hn Hw Hun Hg.
  assert (0 <= full_count B up) by (unfold full_count; lia).
  pose proof (Z.div_mod (full_count B up) n ltac:(lia)).
  pose proof (Z.mod_pos_bound (full_count B up) n ltac:(lia)).
  destruct (uniform_lookup_full B up (Z.to_nat (g * n + w)) Hun ltac:(nia)) as (b & Hb & Hfull).
  split.
  - rewrite shard_output_no_split by done. fold B up. simpl.
    rewrite lookup_app_l by (rewrite length_map, length_seqZ; lia).
    rewrite list_lookup_fmap, lookup_seqZ_lt by lia. simpl.
    unfold round_batch. rewrite Z.add_0_l, Z2Nat.id by lia. by rewrite Hb.
  - exists b. split; [done|]. unfold is_full in Hfull. lia.
Qed.

Lemma processes_advance_in_lock_step_witness :
  fst (shard_output (BatchSampler.Build 4 false [[0;1;2;3];[4;5;6;7];[8;9]]) 2 1 false)
    !! Z.to_nat 0 =
    [[0;1;2;3];[4;5;6;7];[8;9]] !! Z.to_nat (0 * 2 + 1) /\
  exists b, [[0;1;2;3];[4;5;6;7];[8;9]] !! Z.to_nat (0 * 2 + 1) = Some b /\
            Z.of_nat (length b) = 4.
Proof.
  apply (processes_advance_in_lock_step
           (BatchSampler.Build 4 false [[0;1;2;3];[4;5;6;7];[8;9]]) 2 1 0).
  - lia.
  - lia.
  - repeat constructor.
  - simpl. vm_compute. split; [discriminate|reflexivity].
Defined.

(** Two more passes of the class docstring and of its tests.  In split mode
    over [[0,1,2,3],[4,5,6,7]], process 0 receives [[0,1],[4,5]] and process 1
    receives [[2,3],[6,7]].  In whole-batch mode with [drop_last] over
    [[0,1,2,3],[4,5,6,7],[8,9]], each of the two processes receives one batch. *)
Example split_and_drop_last_passes :
  (forall d,
     shard_output (BatchSampler.Build 4 d [[0;1;2;3];[4;5;6;7]]) 2 0 true
       = ([[0;1];[4;5]], None) /\
     shard_output (BatchSampler.Build 4 d [[0;1;2;3];[4;5;6;7]]) 2 1 true
       = ([[2;3];[6;7]], None)) /\
  shard_output (BatchSampler.Build 4 true [[0;1;2;3];[4;5;6;7];[8;9]]) 2 0 false
    = ([[0;1;2;3]], None) /\
  shard_output (BatchSampler.Build 4 true [[0;1;2;3];[4;5;6;7];[8;9]]) 2 1 false
    = ([[4;5;6;7]], None).
Proof. split; [intros d; by destruct d|]. split; reflexivity. Qed.

(** ** The reported length *)

(** C6.  For a shard over a batch sampler of length [L] and [n >= 1]
    processes, [__len__] returns [L // n] when [n] divides [L]; otherwise it
    returns [L // n] when [drop_last] is set and [L // n + 1] when it is not.
    [L // n] is [L / n] rounded down: the integer [q] with
    [q * n <= L < q * n + n]. *)
Theorem len_is_floor_or_floor_plus_one (self : BatchSamplerShard.t) :
  let L := BatchSampler.__len__ (BatchSamplerShard.batch_sampler self) in
  let n := BatchSamplerShard.num_processes self in
  1 <= n ->
  exists q : Z,
    q * n <= L < q * n + n /\
    BatchSamplerShard.__len__ self =
      inr (if L `mod` n =? 0 then q
           else if BatchSamplerShard.drop_last self then q else q + 1).
Proof.
  intros L n Hn. exists (L `div` n). split.
  - pose proof (Z.div_mod L n ltac:(lia)). pose proof (Z.mod_pos_bound L n ltac:(lia)). lia.
  - unfold BatchSamplerShard.__len__, py_mod, py_floordiv. fold L n.
    destruct (Z.eqb_spec n 0) as [|_]; [lia|]. simpl.
    by destruct (L `mod` n =? 0).
Qed.

Lemma len_is_floor_or_floor_plus_one_witness :
  exists q : Z,
    q * 2 <= 3 < q * 2 + 2 /\
    BatchSamplerShard.__len__
      (BatchSamplerShard.Build (BatchSampler.Build 4 false [[0;1;2;3];[4;5;6;7];[8;9]])
         2 0 false 4 false) =
    inr (if 3 `mod` 2 =? 0 then q else if false then q else q + 1).
Proof.
  apply (len_is_floor_or_floor_plus_one
           (BatchSamplerShard.Build (BatchSampler.Build 4 false [[0;1;2;3];[4;5;6;7];[8;9]])
              2 0 false 4 false)).
  simpl. lia.
Defined.

(** In whole-batch mode [__len__] is the number of batches that the
    iteration yields: for [n >= 1] processes, a process index in [0, n) and a
    well-formed pass which, when [drop_last] is set, has no short batch (the
    batch sampler has dropped it). *)
Theorem len_counts_whole_batches (bs : BatchSampler.t) (n w : Z) :
  let B := BatchSampler.batch_size bs in
  let up := BatchSampler.batches bs in
  1 <= n -> 0 <= w < n -> well_formed_pass B up = true ->
  (BatchSampler.drop_last bs = true -> full_count B up = BatchSampler.__len__ bs) ->
  BatchSamplerShard.__len__
    (BatchSamplerShard.Build bs n w false B (BatchSampler.drop_last bs)) =
  inr (Z.of_nat (length (fst (shard_output bs n w false)))).
Proof.
  intros B up Hn Hw Hwf Hdrop.
  destruct (whole_mode_count bs n w Hn Hw Hwf) as (_ & _ & ->). fold B up.
  unfold BatchSamplerShard.__len__, py_mod, py_floordiv. simpl.
  destruct (Z.eqb_spec n 0) as [|_]; [lia|]. simpl.
  unfold BatchSampler.__len__ in *. fold up in Hdrop |- *.
  set (L := Z.of_nat (length up)) in *. set (Lf := full_count B up) in *.
  assert (Lf = L \/ Lf = L - 1 /\ 1 <= L) as HLf.
  { destruct (well_formed_cases _ _ Hwf) as [Hup|(pre & l & Hup & Hpre & Hl)].
    - left. subst Lf L. by rewrite Hup.
    - assert (uniform B up) as Hun by (unfold uniform; by rewrite Hup, removelast_last).
      assert (last up = Some l) as Hlast by (by rewrite Hup, last_snoc).
      pose proof (full_count_uniform _ _ _ Hun Hlast) as E. fold Lf L in E.
      assert (1 <= L) by (subst L; rewrite Hup, length_app; simpl; lia).
      destruct (is_full B l); [left|right]; lia. }
  pose proof (div_succ (L - 1) n ltac:(lia)) as Hdiv.
  pose proof (mod_succ (L - 1) n ltac:(lia)) as Hmod.
  replace (L - 1 + 1) with L in Hdiv, Hmod by lia.
  pose proof (Z.mod_pos_bound (L - 1) n ltac:(lia)).
  destruct (BatchSampler.drop_last bs).
  - rewrite Hdrop by done. destruct (L `mod` n =? 0); f_equal; lia.
  - destruct HLf as [->|[-> HL]].
    + rewrite Z.eqb_refl, andb_true_r. destruct (L `mod` n =? 0); f_equal; lia.
    + assert ((L - 1 =? L) = false) as -> by (apply Z.eqb_neq; lia).
      rewrite andb_false_r, Hdiv, Hmod.
      destruct (Z.eqb_spec ((L - 1) `mod` n) (n - 1)).
      * rewrite Z.eqb_refl. done.
      * destruct (Z.eqb_spec ((L - 1) `mod` n + 1) 0); [lia|]. done.
Qed.

Lemma len_counts_whole_batches_witness :
  BatchSamplerShard.__len__
    (BatchSamplerShard.Build (BatchSampler.Build 4 false [[0;1;2;3];[4;5;6;7];[8;9]])
       2 1 false 4 false) =
  inr (Z.of_nat (length (fst (shard_output
                                (BatchSampler.Build 4 false [[0;1;2;3];[4;5;6;7];[8;9]])
                                2 1 false)))).
Proof.
  apply (len_counts_whole_batches
           (BatchSampler.Build 4 false [[0;1;2;3];[4;5;6;7];[8;9]]) 2 1).
  - lia.
  - lia.
  - reflexivity.
  - discriminate.
Defined.

(** C7, at the input where it fails.  On two processes in split mode over
    the sampler [[0,1,2,3],[4,5,6,7]], [__len__] reports 1 while [__iter__]
    hands process 0 the two batches [[0,1]] and [[4,5]] (the ones the
    docstring of the class names). *)
Example len_differs_from_iter_in_split_mode :
  exists self,
    BatchSamplerShard.__init__ (BatchSampler.Build 4 false [[0;1;2;3];[4;5;6;7]]) 2 0 true
      = inr self /\
    BatchSamplerShard.__len__ self = inr 1 /\
    run_generator (BatchSamplerShard.__iter__ self) = ([[0;1];[4;5]], None).
Proof. eexists. split; [reflexivity|]. split; reflexivity. Qed.

(** ** The forwarded options *)

Lemma param_default_In {V : Type} (params : list (string * V)) (k : string) :
  k ∈ map fst params -> exists d, param_default params k = Some d.
Proof.
  unfold param_default. induction params as [|[k' d'] params IH]; simpl.
  - by intros ?%elem_of_nil.
  - intros [->|Hk]%elem_of_cons.
    + rewrite String.eqb_refl. simpl. eauto.
    + destruct (String.eqb k' k); simpl; eauto.
Qed.

Lemma param_default_not_In {V : Type} (params : list (string * V)) (k : string) :
  param_default params k = None <-> k ∉ map fst params.
Proof.
  unfold param_default. induction params as [|[k' d'] params IH]; simpl.
  - split; [intros _ ?%elem_of_nil; done|done].
  - destruct (String.eqb_spec k' k) as [->|Hne]; simpl.
    + split; [done|]. intros H. exfalso. apply H. by left.
    + rewrite IH. rewrite not_elem_of_cons. split; [|tauto]. intros ?. split; [congruence|done].
Qed.

(** What the comprehension has built after the names [ks]. *)
Lemma kwargs_fold {V : Type} (params : list (string * V)) (dl : gmap string V)
    (ks : list string) (d0 : gmap string V) :
  (forall k, k ∈ ks -> k ∈ map fst params) ->
  exists d,
    foldl (kwargs_step params dl) (Some d0) ks = Some d /\
    forall k,
      d !! k =
        if bool_decide (k ∈ ks) && negb (bool_decide (k ∈ ignore_kwargs)) then
          match param_default params k with
          | Some dflt => Some (getattr dl k dflt)
          | None => None
          end
        else d0 !! k.
Proof.
  revert d0. induction ks as [|k0 ks IH]; intros d0 Hks.
  - exists d0. split; [done|]. intros k. rewrite bool_decide_eq_false_2; [done|].
    apply not_elem_of_nil.
  - simpl. destruct (decide (k0 ∈ ignore_kwargs)) as [Hig|Hig].
    + rewrite bool_decide_eq_true_2 by done.
      destruct (IH d0) as (d & Hd & Hlook); [intros k Hk; apply Hks; by right|].
      exists d. split; [done|]. intros k. rewrite Hlook.
      destruct (decide (k = k0)) as [->|Hne].
      * rewrite (bool_decide_eq_true_2 (k0 ∈ k0 :: ks)) by (by left).
        rewrite (bool_decide_eq_true_2 (k0 ∈ ignore_kwargs)) by done.
        simpl. by rewrite andb_false_r.
      * by rewrite (bool_decide_ext (k ∈ k0 :: ks) (k ∈ ks))
          by (rewrite elem_of_cons; split; [intros [?|?]; done|by right]).
    + rewrite bool_decide_eq_false_2 by done.
      destruct (param_default_In params k0) as [dflt Hdflt]; [apply Hks; by left|].
      rewrite Hdflt.
      destruct (IH (<[k0 := getattr dl k0 dflt]> d0)) as (d & Hd & Hlook);
        [intros k Hk; apply Hks; by right|].
      exists d. split; [done|]. intros k. rewrite Hlook.
      destruct (decide (k = k0)) as [->|Hne].
      * rewrite (bool_decide_eq_true_2 (k0 ∈ k0 :: ks)) by (by left).
        rewrite (bool_decide_eq_false_2 (k0 ∈ ignore_kwargs)) by done.
        rewrite Hdflt. simpl. rewrite lookup_insert_eq.
        by destruct (bool_decide (k0 ∈ ks)).
      * rewrite lookup_insert_ne by done.
        by rewrite (bool_decide_ext (k ∈ k0 :: ks) (k ∈ ks))
          by (rewrite elem_of_cons; split; [intros [?|?]; done|by right]).
Qed.

(** The keyword arguments that [prepare_data_loader] forwards to
    [DataLoaderShard] are built without a [KeyError]; they hold none of the
    eight ignored names, hold every other parameter of the signature of
    [DataLoader] with the value of the attribute of that name of the data
    loader, or with the default of the parameter when the data loader has no
    such attribute, and hold nothing else. *)
Theorem kwargs_are_the_other_parameters {V : Type} (pytorch_dl_params : list (string * V))
    (dataloader : gmap string V) :
  exists kwargs,
    forwarded_kwargs pytorch_dl_params dataloader = Some kwargs /\
    (forall k, k ∈ ignore_kwargs -> kwargs !! k = None) /\
    (forall k dflt,
       k ∉ ignore_kwargs -> param_default pytorch_dl_params k = Some dflt ->
       kwargs !! k = Some (default dflt (dataloader !! k))) /\
    (forall k, k ∉ map fst pytorch_dl_params -> kwargs !! k = None).
Proof.
  destruct (kwargs_fold pytorch_dl_params dataloader (map fst pytorch_dl_params) ∅)
    as (d & Hd & Hlook); [done|].
  exists d. split; [done|]. split; [|split].
  - intros k Hk. rewrite Hlook. rewrite (bool_decide_eq_true_2 (k ∈ ignore_kwargs)) by done.
    simpl. by rewrite andb_false_r.
  - intros k dflt Hk Hdflt. rewrite Hlook.
    rewrite (bool_decide_eq_false_2 (k ∈ ignore_kwargs)) by done.
    rewrite bool_decide_eq_true_2.
    + rewrite Hdflt. simpl. unfold getattr. by destruct (dataloader !! k).
    + destruct (decide (k ∈ map fst pytorch_dl_params)) as [|Hn]; [done|].
      apply param_default_not_In in Hn. congruence.
  - intros k Hk. rewrite Hlook. by rewrite bool_decide_eq_false_2.
Qed.

(** The keyword arguments, name by name. *)
Lemma forwarded_kwargs_lookup {V : Type} (params : list (string * V)) (dl : gmap string V) :
  exists kwargs,
    forwarded_kwargs params dl = Some kwargs /\
    forall k,
      kwargs !! k =
        if bool_decide (k ∈ map fst params) && negb (bool_decide (k ∈ ignore_kwargs)) then
          match param_default params k with
          | Some dflt => Some (getattr dl k dflt)
          | None => None
          end
        else None.
Proof.
  destruct (kwargs_fold params dl (map fst params) ∅) as (d & Hd & Hlook); [done|].
  exists d. split; [done|]. intros k. rewrite Hlook. by rewrite lookup_empty.
Qed.

(** The call of [DataLoaderShard] either binds its arguments or raises
    [TypeError]. *)
Lemma loader_init_cases {T D V : Type} (dataset : list Z -> T) (device : option D)
    (batch_sampler : sampler) (kwargs : gmap string V) :
  DataLoaderShard.__init__ dataset device batch_sampler kwargs = inl TypeError \/
  (DataLoaderShard.__init__ dataset device batch_sampler kwargs =
     inr (DataLoaderShard.Build dataset device batch_sampler kwargs) /\
   forall k, k ∈ DataLoaderShard.explicit_arguments -> kwargs !! k = None).
Proof.
  unfold DataLoaderShard.__init__.
  destruct (existsb _ _) eqn:E; [by left|right]. split; [done|].
  intros k Hk. destruct (kwargs !! k) as [v|] eqn:Hv; [|done].
  assert (existsb (fun k => bool_decide (is_Some (kwargs !! k)))
            DataLoaderShard.explicit_arguments = true) as E'; [|congruence].
  apply existsb_exists. exists k. split; [by apply list_elem_of_In|].
  apply bool_decide_eq_true_2. by rewrite Hv.
Qed.

(** When the signature of [DataLoader] has no parameter [device], lines
    221-246 return a loader with the forwarded options. *)
Lemma loader_call_returns {T D V : Type} (params : list (string * V))
    (attrs : gmap string V) (dataset : list Z -> T) (device : option D)
    (new_batch_sampler : sampler) :
  "device"%string ∉ map fst params ->
  exists kw,
    forwarded_kwargs params attrs = Some kw /\
    rbind
      (match forwarded_kwargs params attrs with
       | Some kwargs => inr kwargs
       | None => inl KeyError
       end)
      (fun kwargs => DataLoaderShard.__init__ dataset device new_batch_sampler kwargs)
    = inr (DataLoaderShard.Build dataset device new_batch_sampler kw).
Proof.
  intros Hdev. destruct (forwarded_kwargs_lookup params attrs) as (kw & Hkw & Hlook).
  exists kw. split; [done|]. rewrite Hkw. simpl.
  destruct (loader_init_cases dataset device new_batch_sampler kw) as [E|[E _]]; [|done].
  exfalso. unfold DataLoaderShard.__init__ in E.
  destruct (existsb _ _) eqn:Ex; [|done].
  apply existsb_exists in Ex as (k & Hk & Hsome%bool_decide_eq_true_1).
  rewrite Hlook in Hsome.
  assert (bool_decide (k ∈ map fst params) && negb (bool_decide (k ∈ ignore_kwargs)) = false)
    as Hno; [|rewrite Hno in Hsome; by destruct Hsome].
  simpl in Hk. destruct Hk as [<-|[<-|[<-|[]]]].
  - by rewrite andb_false_r.
  - by rewrite (bool_decide_eq_false_2 _ Hdev).
  - by rewrite andb_false_r.
Qed.

(** What a returned loader is made of. *)
Lemma prepare_data_loader_returned {T D V : Type} (state : AcceleratorState)
    (params : list (string * V)) (dataloader : DataLoader.t T V) (device : option D)
    (num_processes process_index : option Z) (split_batches put_on_device : bool)
    (loader : DataLoaderShard.t T D V) :
  let n := default (state_num_processes state) num_processes in
  let w := default (state_process_index state) process_index in
  prepare_data_loader state params dataloader device num_processes process_index
    split_batches put_on_device = inr loader ->
  exists new_batch_sampler kw,
    loader = DataLoaderShard.Build (DataLoader.dataset dataloader)
               (if put_on_device then device else None) new_batch_sampler kw /\
    forwarded_kwargs params (DataLoader.attrs dataloader) = Some kw /\
    (n = 1 -> new_batch_sampler = inl (DataLoader.batch_sampler dataloader)) /\
    (n <> 1 ->
     exists shard,
       BatchSamplerShard.__init__ (DataLoader.batch_sampler dataloader) n w split_batches
         = inr shard /\
       new_batch_sampler = inr shard).
Proof.
  intros n w Hprep. unfold prepare_data_loader in Hprep. fold n w in Hprep.
  destruct (if split_batches then _ else _) as [e|[]]; [done|]. simpl in Hprep.
  destruct (forwarded_kwargs params (DataLoader.attrs dataloader)) as [kw|] eqn:Hkw; cycle 1.
  { by destruct (if n =? 1 then _ else _). }
  destruct (Z.eqb_spec n 1) as [E|E]; simpl in Hprep.
  - destruct (loader_init_cases (DataLoader.dataset dataloader)
                (if put_on_device then device else None)
                (inl (DataLoader.batch_sampler dataloader) : sampler) kw) as [E'|[E' _]];
      rewrite E' in Hprep; [done|]. injection Hprep as <-.
    eexists _, kw. split; [done|]. split; [done|]. split; [done|]. done.
  - destruct (BatchSamplerShard.__init__ _ n w split_batches) as [e|shard] eqn:Hinit; [done|].
    simpl in Hprep.
    destruct (loader_init_cases (DataLoader.dataset dataloader)
                (if put_on_device then device else None)
                (inr shard : sampler) kw) as [E'|[E' _]];
      rewrite E' in Hprep; [done|]. injection Hprep as <-.
    eexists _, kw. split; [done|]. split; [done|]. split; [done|]. intros _. by exists shard.
Qed.

(** ** ValueError *)

(** What follows the sanity check and the choice of the batch sampler does
    not raise [ValueError]. *)
Lemma loader_call_no_value_error {T D V : Type} (params : list (string * V))
    (attrs : gmap string V) (dataset : list Z -> T) (device : option D)
    (new_batch_sampler : sampler) :
  rbind
    (match forwarded_kwargs params attrs with
     | Some kwargs => inr kwargs
     | None => inl KeyError
     end)
    (fun kwargs => DataLoaderShard.__init__ dataset device new_batch_sampler kwargs)
  <> inl ValueError.
Proof.
  destruct (forwarded_kwargs_lookup params attrs) as (kw & -> & _). simpl.
  destruct (loader_init_cases dataset device new_batch_sampler kw) as [->|[-> _]]; done.
Qed.

(** C8.  With [n <> 0] processes, [__init__] raises [ValueError] exactly
    when [split_batches] is set and [n] does not divide the batch size;
    iterating a shard, however it was built, never ends with [ValueError]; and
    [prepare_data_loader], called for [n] processes (given or read from the
    state) on a data loader that has a batch size [b], raises [ValueError]
    whenever [split_batches] is set and [n] does not divide [b], having built
    no shard.  It raises [ValueError] in no other case than this one and the
    one of the [__init__] it calls when [n] is not 1; on a data loader whose
    batch size is [None] (one that was built from a batch sampler) the check of
    line 203 raises [TypeError] when [split_batches] is set. *)
Theorem value_error_only_at_construction (bs : BatchSampler.t) (n w : Z) (split : bool) :
  n <> 0 ->
  (BatchSamplerShard.__init__ bs n w split = inl ValueError <->
   split = true /\ BatchSampler.batch_size bs `mod` n <> 0) /\
  (forall self, snd (run_generator (BatchSamplerShard.__iter__ self)) <> Some ValueError) /\
  (forall (T D V : Type) state (pytorch_dl_params : list (string * V))
          (dataloader : DataLoader.t T V) (device : option D)
          num_processes process_index put_on_device,
     default (state_num_processes state) num_processes = n ->
     (forall b, DataLoader.batch_size dataloader = Some b -> b `mod` n <> 0 ->
        prepare_data_loader state pytorch_dl_params dataloader device num_processes
          process_index true put_on_device = inl ValueError) /\
     (DataLoader.batch_size dataloader = None ->
      prepare_data_loader state pytorch_dl_params dataloader device num_processes
        process_index true put_on_device = inl TypeError) /\
     (prepare_data_loader state pytorch_dl_params dataloader device num_processes
        process_index split put_on_device = inl ValueError <->
      split = true /\
      exists b, DataLoader.batch_size dataloader = Some b /\
        (b `mod` n <> 0 \/
         n <> 1 /\
         BatchSampler.batch_size (DataLoader.batch_sampler dataloader) `mod` n <> 0))).
Proof.
  intros Hn. split; [|split].
  - unfold BatchSamplerShard.__init__, py_mod.
    destruct (Z.eqb_spec n 0) as [|_]; [done|].
    destruct split; simpl.
    + destruct (Z.eqb_spec (BatchSampler.batch_size bs `mod` n) 0) as [E|E]; simpl.
      * split; [done|]. by intros [_ ?].
      * done.
    + split; [done|]. by intros [? _].
  - intros self. apply run_generator_no_value_error, nve_iter.
  - intros T D V state params dataloader device num_processes process_index put_on_device
      Hdef.
    unfold prepare_data_loader, py_mod_opt, BatchSamplerShard.__init__, py_mod.
    rewrite Hdef. destruct (Z.eqb_spec n 0) as [|_]; [done|].
    pose proof (fun (ds : list Z -> T) (dev : option D) nbs =>
                  loader_call_no_value_error params (DataLoader.attrs dataloader)
                    ds dev nbs) as Hcall.
    split; [|split].
    + intros b -> Hmod. simpl. by destruct (Z.eqb_spec (b `mod` n) 0).
    + by intros ->.
    + destruct split; simpl; cycle 1.
      { split; [|by intros [? _]]. intros H. exfalso. revert H.
        destruct (n =? 1); simpl; apply Hcall. }
      destruct (DataLoader.batch_size dataloader) as [b|]; simpl; cycle 1.
      { split; [done|]. by intros (_ & b & ? & _). }
      destruct (Z.eqb_spec (b `mod` n) 0) as [E|E]; simpl; cycle 1.
      { split; [|done]. intros _. split; [done|]. exists b. split; [done|]. by left. }
      destruct (Z.eqb_spec n 1) as [E1|E1]; simpl.
      { split; [intros H; exfalso; revert H; apply Hcall|].
        intros (_ & b' & [= <-] & [?|[? _]]); done. }
      destruct (Z.eqb_spec
                  (BatchSampler.batch_size (DataLoader.batch_sampler dataloader) `mod` n) 0)
        as [E2|E2]; simpl.
      * split; [intros H; exfalso; revert H; apply Hcall|].
        intros (_ & b' & [= <-] & [?|[_ ?]]); done.
      * split; [|done]. intros _. split; [done|]. exists b. split; [done|]. by right.
Qed.

Lemma value_error_only_at_construction_witness :
  (BatchSamplerShard.__init__ (BatchSampler.Build 4 false [[0;1;2;3];[4;5;6;7]]) 3 0 true
     = inl ValueError <->
   true = true /\ 4 `mod` 3 <> 0) /\
  (forall self, snd (run_generator (BatchSamplerShard.__iter__ self)) <> Some ValueError) /\
  (forall (T D V : Type) state (pytorch_dl_params : list (string * V))
          (dataloader : DataLoader.t T V) (device : option D)
          num_processes process_index put_on_device,
     default (state_num_processes state) num_processes = 3 ->
     (forall b, DataLoader.batch_size dataloader = Some b -> b `mod` 3 <> 0 ->
        prepare_data_loader state pytorch_dl_params dataloader device num_processes
          process_index true put_on_device = inl ValueError) /\
     (DataLoader.batch_size dataloader = None ->
      prepare_data_loader state pytorch_dl_params dataloader device num_processes
        process_index true put_on_device = inl TypeError) /\
     (prepare_data_loader state pytorch_dl_params dataloader device num_processes
        process_index true put_on_device = inl ValueError <->
      true = true /\
      exists b, DataLoader.batch_size dataloader = Some b /\
        (b `mod` 3 <> 0 \/
         3 <> 1 /\
         BatchSampler.batch_size (DataLoader.batch_sampler dataloader) `mod` 3 <> 0))).
Proof.
  apply (value_error_only_at_construction
           (BatchSampler.Build 4 false [[0;1;2;3];[4;5;6;7]]) 3 0 true).
  lia.
Defined.

(** ** One process *)

(** The names of [ignore_kwargs], spelled out. *)
Lemma ignore_kwargs_names (k : string) :
  k ∈ ignore_kwargs <->
  k ∈ ["dataset"; "args"; "kwds"; "batch_size"; "shuffle"; "sampler"; "batch_sampler";
       "drop_last"]%string.
Proof. done. Qed.



(** ** An empty pass *)

(** C10.  For a shard that [__init__] built, with any number of processes,
    process index, mode and [drop_last], over a sampler whose pass has no
    batch: the iteration yields nothing and ends without an exception. *)
Theorem empty_pass_yields_nothing (bs : BatchSampler.t) (n w : Z) (split : bool)
    (self : BatchSamplerShard.t) :
  BatchSamplerShard.__init__ bs n w split = inr self ->
  BatchSampler.batches bs = [] ->
  run_generator (BatchSamplerShard.__iter__ self) = ([], None).
Proof.
  intros Hinit Hempty. unfold BatchSamplerShard.__init__, py_mod in Hinit.
  destruct split; simpl in Hinit.
  - destruct (Z.eqb_spec n 0) as [|Hn]; [done|]. simpl in Hinit.
    destruct (negb _); [done|]. simpl in Hinit. injection Hinit as <-.
    unfold BatchSamplerShard.__iter__, BatchSamplerShard._iter_with_split. simpl.
    unfold run_generator, bind, py_floordiv, lift. simpl.
    destruct (Z.eqb_spec n 0) as [|_]; [done|]. rewrite Hempty. simpl.
    by destruct (BatchSampler.drop_last bs).
  - injection Hinit as <-.
    unfold BatchSamplerShard.__iter__, BatchSamplerShard._iter_with_no_split. simpl.
    unfold run_generator, bind. simpl. rewrite Hempty. simpl.
    by destruct (BatchSampler.drop_last bs).
Qed.

Lemma empty_pass_yields_nothing_witness :
  run_generator
    (BatchSamplerShard.__iter__
       (BatchSamplerShard.Build (BatchSampler.Build 4 false []) 2 1 true 4 false)) = ([], None).
Proof.
  apply (empty_pass_yields_nothing (BatchSampler.Build 4 false []) 2 1 true);
    reflexivity.
Defined.

(** ** Any pass, any process index *)

Lemma closing_positions_snoc B n (pre : list (list Z)) (b : list Z) :
  1 <= n ->
  closing_positions B n (pre ++ [b]) =
  closing_positions B n pre ++
  (if (Z.of_nat (length pre) `mod` n =? n - 1) && is_full B b
   then [Z.of_nat (length pre)] else []).
Proof.
  intros Hn. unfold closing_positions. rewrite length_app, Nat2Z.inj_add. simpl length.
  rewrite seqZ_app by lia. rewrite List.filter_app. f_equal.
  - apply List.filter_ext_in. intros p Hp%list_elem_of_In%elem_of_seqZ.
    unfold handed_over, round_is_full.
    destruct (Z.eqb_spec (p `mod` n) (n - 1)) as [E|E]; [|done]. simpl.
    pose proof (Z.div_mod p n ltac:(lia)). rewrite lookup_app_l by lia. done.
  - change (Z.of_nat 1) with 1. simpl.
    set (k := Z.of_nat (length pre)). unfold handed_over, round_is_full.
    replace (Z.of_nat 0 + (0 + k)) with k by lia.
    destruct (Z.eqb_spec (k `mod` n) (n - 1)) as [E|E]; [|done]. simpl.
    pose proof (Z.div_mod k n ltac:(lia)).
    rewrite lookup_app_r by lia.
    replace (Z.to_nat (k `div` n * n + (n - 1)) - length pre)%nat with 0%nat by lia.
    simpl. by destruct (is_full B b).
Qed.

(** In a pass whose batches are full except possibly the last, the rounds
    that a full batch closes are the first [Lf / n] ones. *)
Lemma closing_positions_uniform B n up :
  1 <= n -> uniform B up ->
  closing_positions B n up =
  map (fun g => g * n + (n - 1)) (seqZ 0 (full_count B up `div` n)).
Proof.
  intros Hn Hun. unfold closing_positions, handed_over.
  rewrite (filter_positions_upto (round_is_full B n up) n (n - 1)); [|lia|lia|].
  - by rewrite full_rounds_uniform.
  - by apply round_is_full_beyond.
Qed.

(** One turn of the loop of lines 124-131, on a store whose objects are
    known to exist only. *)
Lemma wp_wrap_step_safe self init fuel idx batch bv c (Q : unit -> machine -> Prop) st :
  let n := BatchSamplerShard.num_processes self in
  let w := BatchSamplerShard.process_index self in
  1 <= n ->
  (init < length (heap st))%nat -> heap st !! batch = Some bv ->
  (negb (idx `mod` n =? 0) || (0 <? Z.of_nat (length bv)) = true ->
   forall st1 batch' c',
     (init < length (heap st1))%nat -> heap st1 !! batch' = Some [] ->
     (~ (0 <= w < n) -> yielded st1 = yielded st) ->
     wp (BatchSamplerShard.wrap_while fuel self init (idx + 1) batch' c') Q st1) ->
  (negb (idx `mod` n =? 0) || (0 <? Z.of_nat (length bv)) = false -> Q tt st) ->
  wp (BatchSamplerShard.wrap_while (S fuel) self init idx batch c) Q st.
Proof.
  intros n w Hn Hi Hb Hnext Hstop. simpl. fold n w.
  unfold py_mod. destruct (Z.eqb_spec n 0) as [|_]; [lia|].
  apply wp_bind, wp_lift. apply wp_bind.
  apply (wp_mono _ (fun again st1 =>
           again = negb (idx `mod` n =? 0) || (0 <? Z.of_nat (length bv)) /\ st1 = st)).
  { destruct (negb (idx `mod` n =? 0)); [by apply wp_ret|].
    apply wp_bind. eapply wp_len; [exact Hb|]. by apply wp_ret. }
  intros again _ [-> ->].
  destruct (negb (idx `mod` n =? 0) || (0 <? Z.of_nat (length bv))) eqn:Hagain;
    [|by apply wp_ret, Hstop].
  specialize (Hnext eq_refl).
  destruct (lookup_lt_is_Some_2 _ _ Hi) as [iv Hiv].
  pose proof (lookup_lt_Some _ _ _ Hb) as Hblt.
  pose proof (Z.mod_pos_bound idx n ltac:(lia)) as Hr.
  set (B := BatchSamplerShard.batch_size self).
  apply wp_bind. eapply wp_len; [exact Hb|].
  apply wp_bind. eapply wp_getslice; [exact Hiv|].
  set (piece := py_slice iv c (c + B - Z.of_nat (length bv))).
  apply wp_bind. eapply (wp_iadd _ _ bv piece); simpl.
  { by rewrite lookup_app_l. }
  { rewrite lookup_app_r by done. by rewrite Nat.sub_diag. }
  apply wp_bind, wp_lift. apply wp_bind.
  set (h2 := <[batch := bv ++ piece]> (heap st ++ [piece])).
  assert (length h2 = S (length (heap st))) as Hlen2.
  { subst h2. rewrite length_insert, length_app. simpl. lia. }
  assert (h2 !! batch = Some (bv ++ piece)) as Hb2.
  { subst h2. apply list_lookup_insert_eq. rewrite length_app. lia. }
  apply (wp_mono _ (fun _ st1 =>
           heap st1 = h2 /\ (~ (0 <= w < n) -> yielded st1 = yielded st))).
  { destruct (Z.eqb_spec (idx `mod` n) w) as [E|E].
    - eapply wp_yield; [exact Hb2|]. simpl. split; [done|]. intros Hout. lia.
    - by apply wp_ret. }
  intros _ st1 [Hh1 Hy1]. apply wp_bind, wp_new_list. apply Hnext; simpl.
  - rewrite Hh1, length_app. lia.
  - rewrite Hh1, lookup_app_r by lia. by rewrite Nat.sub_diag.
  - done.
Qed.

(** The turns that follow the first one end, and yield nothing to a process
    whose index is not in [0, n). *)
Lemma wp_wrap_rest_safe self init fuel idx batch c st :
  let n := BatchSamplerShard.num_processes self in
  let w := BatchSamplerShard.process_index self in
  1 <= n ->
  (init < length (heap st))%nat -> heap st !! batch = Some [] ->
  idx `mod` n = 0 \/ n - idx `mod` n <= Z.of_nat fuel ->
  wp (BatchSamplerShard.wrap_while fuel self init idx batch c)
     (fun _ st' => ~ (0 <= w < n) -> yielded st' = yielded st) st.
Proof.
  intros n w Hn. revert idx batch c st.
  induction fuel as [|fuel IH]; intros idx batch c st Hi Hb Hfuel.
  - pose proof (Z.mod_pos_bound idx n ltac:(lia)) as Hr.
    destruct Hfuel as [Hz|]; [|lia]. simpl. fold n.
    unfold py_mod. destruct (Z.eqb_spec n 0) as [|_]; [lia|].
    apply wp_bind, wp_lift. rewrite Hz. simpl.
    apply wp_bind, wp_bind. eapply wp_len; [exact Hb|]. apply wp_ret. simpl. by apply wp_ret.
  - pose proof (Z.mod_pos_bound idx n ltac:(lia)) as Hr.
    eapply wp_wrap_step_safe; try done.
    fold n w. simpl. rewrite orb_false_r. intros Hnz%negb_true_iff%Z.eqb_neq.
    intros st1 batch' c' Hi1 Hb1 Hy1.
    eapply wp_mono; [apply IH; try done|].
    + rewrite mod_succ by lia. destruct (Z.eqb_spec (idx `mod` n) (n - 1)); lia.
    + simpl. intros _ st2 Hy2 Hout. by rewrite Hy2, Hy1.
Qed.

(** The loop of lines 95-105 over any pass. *)
Lemma wp_no_split_loop_safe self items init bty st0 :
  let n := BatchSamplerShard.num_processes self in
  1 <= n ->
  heap st0 !! init = Some [] -> heap st0 !! bty = Some [] -> bty <> init ->
  wp (BatchSamplerShard.no_split_loop self items init bty)
     (no_split_safe self init st0 items) st0.
Proof.
  intros n Hn Hinit Hbty Hne.
  unfold BatchSamplerShard.no_split_loop. apply wp_for_enumerate.
  - unfold no_split_safe. simpl.
    split; [by eapply lookup_lt_Some|]. split; [done|].
    split; [by eapply lookup_lt_Some|]. split; [|done].
    intros _. split; [done|]. split; [done|]. by rewrite app_nil_r.
  - intros pre b suf s st _ (Hi & _ & Hb & Hout & Hloc).
    set (B := BatchSamplerShard.batch_size self) in *.
    set (w := BatchSamplerShard.process_index self) in *.
    fold n in Hout.
    set (k := Z.of_nat (length pre)) in *.
    pose proof (Z.mod_pos_bound k n ltac:(lia)) as Hr.
    apply wp_bind, wp_new_list. unfold BatchSamplerShard.no_split_body.
    fold n w B. set (rb := length (heap st)).
    destruct (lookup_lt_is_Some_2 _ _ Hi) as [iv Hiv].
    set (bty0 := BatchSamplerShard.ns_batch_to_yield s) in *.
    apply wp_bind.
    apply (wp_mono _ (fun _ st1 =>
             yielded st1 = yielded st /\ length (heap st1) = S rb /\
             heap st1 !! rb = Some b /\
             (bty0 <> init -> heap st1 !! bty0 = heap st !! bty0))).
    { destruct (negb (BatchSamplerShard.drop_last self) && (k <? n)).
      - eapply (wp_iadd _ _ iv b); simpl.
        + by rewrite lookup_app_l.
        + rewrite lookup_app_r by done. by rewrite Nat.sub_diag.
        + rewrite length_insert, length_app. simpl. split; [done|]. split; [lia|]. split.
          * rewrite list_lookup_insert_ne by (subst rb; lia).
            rewrite lookup_app_r by done. by rewrite Nat.sub_diag.
          * intros Hbi. rewrite list_lookup_insert_ne by done. by rewrite lookup_app_l.
      - apply wp_ret. simpl. rewrite length_app. simpl. split; [done|]. split; [lia|]. split.
        + rewrite lookup_app_r by done. by rewrite Nat.sub_diag.
        + intros _. by rewrite lookup_app_l. }
    intros _ st1 (Hy1 & Hlen1 & Hrb1 & Hb1).
    unfold py_mod. destruct (Z.eqb_spec n 0) as [|_]; [lia|].
    apply wp_bind, wp_lift. apply wp_bind, wp_lift.
    set (r := k `mod` n) in *.
    set (bty1 := if r =? w then rb else bty0).
    assert (bty1 < length (heap st1))%nat as Hbty1.
    { subst bty1. destruct (r =? w); lia. }
    assert (~ (0 <= w < n) ->
            bty1 = bty0 /\ heap st1 !! bty0 = Some [] /\ bty0 <> init /\
            yielded st1 = yielded st0 ++ map (fun _ => []) (closing_positions B n pre))
      as Hout1.
    { intros Hw. destruct (Hout Hw) as (Hb0 & Hbi & Hy). subst bty1.
      destruct (Z.eqb_spec r w); [lia|]. rewrite Hb1 by done. by rewrite Hy1. }
    assert (forall st2 bty2 (ys : list (list Z)),
              (exists ext, heap st2 = heap st1 ++ ext) ->
              (bty2 < length (heap st2))%nat ->
              (~ (0 <= w < n) ->
               heap st2 !! bty2 = Some [] /\ bty2 <> init /\
               yielded st2 = yielded st0 ++
                 map (fun _ => []) (closing_positions B n (pre ++ [b]))) ->
              no_split_safe self init st0 (pre ++ [b])
                (BatchSamplerShard.NoSplitLocals bty2 (Some k) (Some rb)) st2) as Hpost.
    { intros st2 bty2 ys [ext Hext] Hb2 Hout2. unfold no_split_safe. fold B n w. simpl.
      split; [rewrite Hext, length_app; lia|].
      split; [by destruct pre|]. split; [done|]. split; [done|].
      split; [rewrite Hext, length_app; lia|]. eauto. }
    rewrite closing_positions_snoc in Hpost by done. fold k r in Hpost.
    destruct (Z.eqb_spec r (n - 1)) as [Hend|Hend]; simpl in Hpost.
    + apply wp_bind. eapply wp_len; [exact Hrb1|]. fold (is_full B b).
      destruct (is_full B b) eqn:Hfull.
      * destruct (lookup_lt_is_Some_2 _ _ Hbty1) as [yv Hyv].
        apply wp_bind. eapply wp_yield; [exact Hyv|].
        apply wp_bind, wp_new_list, wp_ret. simpl.
        apply (Hpost _ _ []); simpl.
        -- eauto.
        -- rewrite length_app. simpl. lia.
        -- intros Hw. destruct (Hout1 Hw) as (E & Hb0 & Hbi & Hy).
           rewrite lookup_app_r by done. rewrite Nat.sub_diag. split; [done|].
           split; [lia|]. rewrite E, Hb0 in Hyv. injection Hyv as <-.
           by rewrite Hy, map_app, app_assoc.
      * apply wp_ret. apply (Hpost _ _ []).
        -- exists []. by rewrite app_nil_r.
        -- done.
        -- intros Hw. destruct (Hout1 Hw) as (E & Hb0 & Hbi & Hy).
           rewrite E, app_nil_r. done.
    + apply wp_ret. apply (Hpost _ _ []).
      * exists []. by rewrite app_nil_r.
      * done.
      * intros Hw. destruct (Hout1 Hw) as (E & Hb0 & Hbi & Hy).
        rewrite E, app_nil_r. done.
Qed.

(** Lines 107-131 after any pass. *)
Lemma wp_no_split_tail_safe self items init st0 s st :
  let B := BatchSamplerShard.batch_size self in
  let n := BatchSamplerShard.num_processes self in
  let w := BatchSamplerShard.process_index self in
  1 <= n ->
  no_split_safe self init st0 items s st ->
  wp (BatchSamplerShard.no_split_tail self init s)
     (fun _ st' => ~ (0 <= w < n) -> B <> 0 -> yielded st' = yielded st) st.
Proof.
  intros B n w Hn (Hi & Hempty & Hb & Hout & Hloc).
  unfold BatchSamplerShard.no_split_tail. fold B n w in Hout |- *.
  destruct (BatchSamplerShard.drop_last self); simpl; [by apply wp_ret|].
  destruct (lookup_lt_is_Some_2 _ _ Hi) as [iv Hiv].
  apply wp_bind. eapply wp_len; [exact Hiv|].
  destruct (Z.ltb_spec 0 (Z.of_nat (length iv))) as [Hpos|Hpos]; [|by apply wp_ret].
  destruct (BatchSamplerShard.ns_batch s) as [rb|] eqn:Hrb; cycle 1.
  { rewrite (Hempty Hloc) in Hiv. injection Hiv as <-. simpl in Hpos. lia. }
  destruct Hloc as (Hrblt & i & Hidx).
  destruct (lookup_lt_is_Some_2 _ _ Hb) as [yv Hyv].
  apply wp_bind. eapply wp_len; [exact Hyv|].
  apply wp_bind.
  apply (wp_mono _ (fun _ st1 =>
           heap st1 = heap st /\ (~ (0 <= w < n) -> B <> 0 -> yielded st1 = yielded st))).
  { destruct (Z.eqb_spec (Z.of_nat (length yv)) B) as [E|E].
    - eapply wp_yield; [exact Hyv|]. simpl. split; [done|]. intros Hw HB.
      destruct (Hout Hw) as (Hb0 & _). rewrite Hb0 in Hyv. injection Hyv as <-.
      simpl in E. lia.
    - by apply wp_ret. }
  intros _ st1 [Hh1 Hy1].
  apply wp_bind. eapply wp_tile_while; [by rewrite Hh1| |].
  { destruct (decide (n * B <= Z.of_nat (length iv))); [by left|right]. lia. }
  rewrite Hh1.
  set (h2 := <[init := tile_fuel (Z.to_nat (n * B)) (n * B) iv]> (heap st)).
  assert (length h2 = length (heap st)) as Hlen2 by (subst h2; by rewrite length_insert).
  apply wp_bind, wp_ret.
  destruct (lookup_lt_is_Some_2 h2 rb ltac:(lia)) as [bv Hbv].
  apply wp_bind. eapply wp_len; [exact Hbv|]. apply wp_bind.
  apply (wp_mono _ (fun '(batch, oidx) st2 =>
           (exists j, oidx = Some j) /\ yielded st2 = yielded st1 /\
           (init < length (heap st2))%nat /\ (batch < length (heap st2))%nat)).
  { destruct (Z.of_nat (length bv) =? B).
    - apply wp_bind, wp_new_list. rewrite Hidx. apply wp_bind, wp_ret, wp_ret. simpl.
      rewrite length_app. simpl. split; [eauto|]. split; [done|]. lia.
    - apply wp_ret. simpl. split; [eauto|]. split; [done|]. lia. }
  intros [batch oidx] st2 ([j ->] & Hy2 & Hi2 & Hb2). cbn [fst snd].
  apply wp_bind, wp_ret.
  destruct (lookup_lt_is_Some_2 _ _ Hb2) as [cv Hcv].
  eapply (wp_wrap_step_safe self init (Z.to_nat (Z.abs n)) j batch cv 0); try done.
  - fold n w. intros _ st3 batch' c' Hi3 Hb3 Hy3.
    eapply wp_mono; [apply wp_wrap_rest_safe; try done|].
    + fold n. pose proof (Z.mod_pos_bound (j + 1) n ltac:(lia)). lia.
    + simpl. fold n w. intros _ st4 Hy4 Hw HB. rewrite Hy4, Hy3, Hy2 by done. by apply Hy1.
  - intros _ Hw HB. rewrite Hy2. by apply Hy1.
Qed.

Lemma run_generator_ends (g : M unit) (P : machine -> Prop) :
  wp g (fun _ st => P st) (Machine [] []) ->
  exists st, run_generator g = (yielded st, None) /\ P st.
Proof.
  unfold wp, run_generator. destruct (g (Machine [] [])) as [[e|[]] st]; [tauto|]. eauto.
Qed.

(** The whole of [_iter_with_no_split] over any pass. *)
Lemma iter_with_no_split_safe self :
  let B := BatchSamplerShard.batch_size self in
  let n := BatchSamplerShard.num_processes self in
  let w := BatchSamplerShard.process_index self in
  1 <= n ->
  exists ys,
    run_generator (BatchSamplerShard._iter_with_no_split self) = (ys, None) /\
    (~ (0 <= w < n) -> B <> 0 ->
     ys = map (fun _ => [])
            (closing_positions B n
               (BatchSampler.batches (BatchSamplerShard.batch_sampler self)))).
Proof.
  intros B n w Hn.
  destruct (run_generator_ends (BatchSamplerShard._iter_with_no_split self)
              (fun st => ~ (0 <= w < n) -> B <> 0 ->
                 yielded st = map (fun _ => [])
                   (closing_positions B n
                      (BatchSampler.batches (BatchSamplerShard.batch_sampler self)))))
    as (st & Hrun & Hst); [|eauto].
  unfold BatchSamplerShard._iter_with_no_split.
  apply wp_bind, wp_new_list. apply wp_bind, wp_new_list. simpl.
  apply wp_bind.
  eapply wp_mono; [by apply wp_no_split_loop_safe|].
  intros s st Hinv. eapply wp_mono; [by eapply wp_no_split_tail_safe|].
  simpl. fold B n w. intros _ st' Hy Hw HB. rewrite Hy by done.
  destruct Hinv as (_ & _ & _ & Hout & _). by destruct (Hout Hw) as (_ & _ & ->).
Qed.

(** A shard that [__init__] has built for [n >= 1] processes is iterated
    to its end without an exception, in either mode, whatever the process
    index is and whatever the sizes of the batches of the pass are: no local
    variable is read before it is bound, and the two [while] loops end. *)
Theorem iteration_ends_without_exception (bs : BatchSampler.t) (n w : Z) (split : bool)
    (self : BatchSamplerShard.t) :
  1 <= n ->
  BatchSamplerShard.__init__ bs n w split = inr self ->
  snd (run_generator (BatchSamplerShard.__iter__ self)) = None.
Proof.
  intros Hn Hinit. unfold BatchSamplerShard.__init__, py_mod in Hinit.
  destruct (Z.eqb_spec n 0) as [|_]; [lia|].
  destruct split; simpl in Hinit.
  - destruct (negb _); [done|]. simpl in Hinit. injection Hinit as <-.
    unfold BatchSamplerShard.__iter__. simpl. rewrite iter_with_split_spec by lia. done.
  - injection Hinit as <-. unfold BatchSamplerShard.__iter__. simpl.
    destruct (iter_with_no_split_safe
                (BatchSamplerShard.Build bs n w false (BatchSampler.batch_size bs)
                   (BatchSampler.drop_last bs))) as (ys & -> & _); done.
Qed.

Lemma iteration_ends_without_exception_witness :
  snd (run_generator
         (BatchSamplerShard.__iter__
            (BatchSamplerShard.Build (BatchSampler.Build 4 false [[0;1];[];[2;3;4;5;6];[7]])
               3 7 false 4 false))) = None.
Proof.
  apply (iteration_ends_without_exception
           (BatchSampler.Build 4 false [[0;1];[];[2;3;4;5;6];[7]]) 3 7 false).
  - lia.
  - reflexivity.
Defined.

(** The process index is not checked.  In whole-batch mode, for [n >= 1]
    processes, a batch size other than 0 and a process index that is not in
    [0, n), over any pass: the iteration yields one empty batch for every round
    of the pass that a full batch closes (line 104 yields [batch_to_yield],
    which no turn has assigned), and nothing else; when all the batches but the
    last are full that is [Lf / n] empty batches, [Lf] being the number of full
    batches. *)
Theorem out_of_range_index_yields_empty_batches (bs : BatchSampler.t) (n w : Z) :
  let B := BatchSampler.batch_size bs in
  let up := BatchSampler.batches bs in
  1 <= n -> ~ (0 <= w < n) -> B <> 0 ->
  shard_output bs n w false = (map (fun _ => []) (closing_positions B n up), None) /\
  (uniform B up ->
   closing_positions B n up = map (fun g => g * n + (n - 1)) (seqZ 0 (full_count B up `div` n)) /\
   shard_output bs n w false =
     (replicate (Z.to_nat (full_count B up `div` n)) [], None)).
Proof.
  intros B up Hn Hw HB.
  assert (shard_output bs n w false = (map (fun _ => []) (closing_positions B n up), None))
    as Hout.
  { unfold shard_output. simpl. unfold BatchSamplerShard.__iter__. simpl.
    destruct (iter_with_no_split_safe
                (BatchSamplerShard.Build bs n w false (BatchSampler.batch_size bs)
                   (BatchSampler.drop_last bs))) as (ys & -> & Hys); [done|].
    simpl in Hys. by rewrite Hys. }
  split; [done|]. intros Hun.
  pose proof (closing_positions_uniform B n up Hn Hun) as Hcp.
  split; [done|]. rewrite Hout, Hcp. f_equal.
  rewrite map_map.
  assert (forall (l : list Z), map (fun _ : Z => ([] : list Z)) l = replicate (length l) [])
    as Hrep by (induction l as [|? ? IH]; simpl; by rewrite ?IH).
  rewrite Hrep, length_seqZ. done.
Qed.

Lemma out_of_range_index_yields_empty_batches_witness :
  let bs := BatchSampler.Build 4 false [[0;1;2;3];[4;5;6;7];[8;9]] in
  let n := 2 in
  let w := 2 in
  let B := BatchSampler.batch_size bs in
  let up := BatchSampler.batches bs in
  shard_output bs n w false = (map (fun _ => []) (closing_positions B n up), None) /\
  (uniform B up ->
   closing_positions B n up = map (fun g => g * n + (n - 1)) (seqZ 0 (full_count B up `div` n)) /\
   shard_output bs n w false =
     (replicate (Z.to_nat (full_count B up `div` n)) [], None)).
Proof.
  cbv zeta.
  apply (out_of_range_index_yields_empty_batches
           (BatchSampler.Build 4 false [[0;1;2;3];[4;5;6;7];[8;9]]) 2 2).
  - lia.
  - lia.
  - simpl. lia.
Defined.

(** ** A process count of zero *)

(** With [num_processes = 0] nothing is rejected with [ValueError]: the
    first [%] or [//] by the process count raises [ZeroDivisionError].  In
    [prepare_data_loader] with [split_batches] this is so for a data loader
    that has a batch size; for one whose batch size is [None] the same [%]
    raises [TypeError].  Without [split_batches], and when the signature of
    [DataLoader] has no parameter [device], a loader is returned, and iterating
    it raises [ZeroDivisionError] before the first batch. *)
Theorem zero_processes_divide_by_zero (bs : BatchSampler.t) (w : Z)
    (b : list Z) (rest : list (list Z)) :
  BatchSampler.batches bs = b :: rest ->
  (forall self, BatchSamplerShard.num_processes self = 0 ->
     BatchSamplerShard.__len__ self = inl ZeroDivisionError) /\
  BatchSamplerShard.__init__ bs 0 w true = inl ZeroDivisionError /\
  (exists self, BatchSamplerShard.__init__ bs 0 w false = inr self) /\
  shard_output bs 0 w false = ([], Some ZeroDivisionError) /\
  (forall (T D V : Type) state (pytorch_dl_params : list (string * V))
          (dataloader : DataLoader.t T V) (device : option D) process_index put_on_device,
     (forall size, DataLoader.batch_size dataloader = Some size ->
        prepare_data_loader state pytorch_dl_params dataloader device (Some 0) process_index
          true put_on_device = inl ZeroDivisionError) /\
     (DataLoader.batch_size dataloader = None ->
      prepare_data_loader state pytorch_dl_params dataloader device (Some 0) process_index
        true put_on_device = inl TypeError)) /\
  (forall (T D V : Type) (fetch : (list Z -> T) -> gmap string V -> list Z -> T)
          (send_to_device : T -> D -> T) state (pytorch_dl_params : list (string * V))
          (dataloader : DataLoader.t T V) (device : option D) process_index put_on_device,
     DataLoader.batch_sampler dataloader = bs ->
     "device"%string ∉ map fst pytorch_dl_params ->
     exists loader,
       prepare_data_loader state pytorch_dl_params dataloader device (Some 0) process_index
         false put_on_device = inr loader /\
       DataLoaderShard.__iter__ fetch send_to_device loader = ([], Some ZeroDivisionError)).
Proof.
  intros Hup.
  assert (forall w', shard_output bs 0 w' false = ([], Some ZeroDivisionError)) as Hout.
  { intros w'. unfold shard_output. simpl. unfold BatchSamplerShard.__iter__. simpl.
    unfold run_generator, BatchSamplerShard._iter_with_no_split,
      BatchSamplerShard.no_split_loop. simpl. rewrite Hup. simpl.
    unfold bind, new_list, BatchSamplerShard.no_split_body. simpl.
    rewrite andb_false_r. simpl. done. }
  split.
  { intros self Hn. unfold BatchSamplerShard.__len__. by rewrite Hn. }
  split; [done|]. split; [by eexists|]. split; [done|]. split.
  { intros T D V state params dataloader device process_index put_on_device.
    unfold prepare_data_loader. simpl. split; [by intros size ->|by intros ->]. }
  intros T D V fetch send state params dataloader device process_index put_on_device Hbs Hdev.
  unfold prepare_data_loader. simpl.
  destruct (loader_call_returns params (DataLoader.attrs dataloader)
              (DataLoader.dataset dataloader) (if put_on_device then device else None)
              (inr (BatchSamplerShard.Build (DataLoader.batch_sampler dataloader) 0
                      (default (state_process_index state) process_index) false
                      (BatchSampler.batch_size (DataLoader.batch_sampler dataloader))
                      (BatchSampler.drop_last (DataLoader.batch_sampler dataloader))))
              Hdev) as (kw & _ & ->).
  eexists. split; [reflexivity|]. unfold DataLoaderShard.__iter__. simpl.
  rewrite Hbs.
  specialize (Hout (default (state_process_index state) process_index)).
  unfold shard_output in Hout. simpl in Hout. by rewrite Hout.
Qed.

Lemma zero_processes_divide_by_zero_witness :
  let bs := BatchSampler.Build 4 false [[0;1;2;3];[4;5]] in
  (forall self, BatchSamplerShard.num_processes self = 0 ->
     BatchSamplerShard.__len__ self = inl ZeroDivisionError) /\
  BatchSamplerShard.__init__ bs 0 0 true = inl ZeroDivisionError /\
  (exists self, BatchSamplerShard.__init__ bs 0 0 false = inr self) /\
  shard_output bs 0 0 false = ([], Some ZeroDivisionError) /\
  (forall (T D V : Type) state (pytorch_dl_params : list (string * V))
          (dataloader : DataLoader.t T V) (device : option D) process_index put_on_device,
     (forall size, DataLoader.batch_size dataloader = Some size ->
        prepare_data_loader state pytorch_dl_params dataloader device (Some 0) process_index
          true put_on_device = inl ZeroDivisionError) /\
     (DataLoader.batch_size dataloader = None ->
      prepare_data_loader state pytorch_dl_params dataloader device (Some 0) process_index
        true put_on_device = inl TypeError)) /\
  (forall (T D V : Type) (fetch : (list Z -> T) -> gmap string V -> list Z -> T)
          (send_to_device : T -> D -> T) state (pytorch_dl_params : list (string * V))
          (dataloader : DataLoader.t T V) (device : option D) process_index put_on_device,
     DataLoader.batch_sampler dataloader = bs ->
     "device"%string ∉ map fst pytorch_dl_params ->
     exists loader,
       prepare_data_loader state pytorch_dl_params dataloader device (Some 0) process_index
         false put_on_device = inr loader /\
       DataLoaderShard.__iter__ fetch send_to_device loader = ([], Some ZeroDivisionError)).
Proof.
  cbv zeta.
  apply (zero_processes_divide_by_zero (BatchSampler.Build 4 false [[0;1;2;3];[4;5]]) 0
           [0;1;2;3] [[4;5]]).
  reflexivity.
Defined.

(** ** The reported length in split mode *)

Lemma well_formed_full_count B up :
  well_formed_pass B up = true ->
  full_count B up <= Z.of_nat (length up) <= full_count B up + 1 /\ 0 <= full_count B up.
Proof.
  intros Hwf. split; [|unfold full_count; lia].
  destruct (well_formed_cases _ _ Hwf) as [->|(pre & l & -> & Hpre & Hl)]; [done|].
  rewrite full_count_snoc, (full_count_all _ _ Hpre), length_app. simpl.
  destruct (is_full B l); lia.
Qed.

(** In split mode, for [n >= 1] processes with [n] dividing [B], a process
    index in [0, n) and a well-formed pass which, when [drop_last] is set, has
    no short batch (the batch sampler has dropped it): the iteration yields one
    batch per batch of the pass, [__len__] never exceeds that number, and it is
    smaller as soon as there are two processes and two batches. *)
Theorem split_len_underreports (bs : BatchSampler.t) (n w : Z) :
  let B := BatchSampler.batch_size bs in
  let up := BatchSampler.batches bs in
  let yielded_count := Z.of_nat (length (fst (shard_output bs n w true))) in
  1 <= n -> 0 <= w < n -> B `mod` n = 0 -> well_formed_pass B up = true ->
  (BatchSampler.drop_last bs = true -> full_count B up = BatchSampler.__len__ bs) ->
  exists reported,
    BatchSamplerShard.__len__
      (BatchSamplerShard.Build bs n w true B (BatchSampler.drop_last bs)) = inr reported /\
    yielded_count = BatchSampler.__len__ bs /\
    reported <= yielded_count /\
    (2 <= n -> 2 <= BatchSampler.__len__ bs -> reported < yielded_count).
Proof.
  intros B up yc Hn Hw Hdiv Hwf Hdrop.
  destruct (split_mode_count bs n w Hn Hw Hdiv Hwf) as (_ & _ & Hc).
  fold B up yc in Hc.
  destruct (well_formed_full_count _ _ Hwf) as [HLf HLf0]. fold up in HLf.
  unfold BatchSamplerShard.__len__, py_mod, py_floordiv. simpl.
  destruct (Z.eqb_spec n 0) as [|_]; [lia|]. simpl.
  unfold BatchSampler.__len__ in *. fold up in Hdrop |- *.
  set (L := Z.of_nat (length up)) in *. set (Lf := full_count B up) in *.
  assert (yc = L) as HcL.
  { rewrite Hc. destruct (BatchSampler.drop_last bs); [by apply Hdrop|done]. }
  pose proof (Z.div_mod L n ltac:(lia)) as HL.
  pose proof (Z.mod_pos_bound L n ltac:(lia)) as Hr.
  assert (0 <= L `div` n) as Hq by (apply Z.div_pos; lia).
  exists (if L `mod` n =? 0 then L `div` n
          else if BatchSampler.drop_last bs then L `div` n else L `div` n + 1).
  split; [by destruct (L `mod` n =? 0)|]. split; [done|].
  rewrite HcL. split.
  - destruct (Z.eqb_spec (L `mod` n) 0); destruct (BatchSampler.drop_last bs); nia.
  - intros Hn2 HL2.
    destruct (Z.eqb_spec (L `mod` n) 0); destruct (BatchSampler.drop_last bs); nia.
Qed.

Lemma split_len_underreports_witness :
  let bs := BatchSampler.Build 4 false [[0;1;2;3];[4;5;6;7];[8;9]] in
  let n := 2 in
  let w := 1 in
  let B := BatchSampler.batch_size bs in
  let up := BatchSampler.batches bs in
  let yielded_count := Z.of_nat (length (fst (shard_output bs n w true))) in
  exists reported,
    BatchSamplerShard.__len__
      (BatchSamplerShard.Build bs n w true B (BatchSampler.drop_last bs)) = inr reported /\
    yielded_count = BatchSampler.__len__ bs /\
    reported <= yielded_count /\
    (2 <= n -> 2 <= BatchSampler.__len__ bs -> reported < yielded_count).
Proof.
  cbv zeta.
  apply (split_len_underreports (BatchSampler.Build 4 false [[0;1;2;3];[4;5;6;7];[8;9]]) 2 1).
  - lia.
  - lia.
  - reflexivity.
  - reflexivity.
  - discriminate.
Defined.

(** ** Where the yielded indices come from *)

Lemma keeps_ret {A : Type} U (a : A) (P : A -> Prop) : P a -> keeps U (ret a) P.
Proof. intros HP st Hst. split; [done|]. simpl. congruence. Qed.

Lemma keeps_raise {A : Type} U (e : exn) (P : A -> Prop) : keeps U (raise e) P.
Proof. intros st Hst. split; [done|]. simpl. congruence. Qed.

Lemma keeps_lift {A : Type} U (r : result A) : keeps U (lift r) (fun _ => True).
Proof. intros st Hst. split; done. Qed.

Lemma keeps_bind {A B : Type} U (m : M A) (k : A -> M B) (P : A -> Prop) (Q : B -> Prop) :
  keeps U m P -> (forall a, P a -> keeps U (k a) Q) -> keeps U (bind m k) Q.
Proof.
  intros Hm Hk st Hst. unfold bind. destruct (Hm st Hst) as [Hc HP].
  destruct (m st) as [[e|a] st']; simpl in *.
  - split; [done|]. congruence.
  - apply Hk; [by apply HP|done].
Qed.

Lemma keeps_weaken {A : Type} U (m : M A) (P Q : A -> Prop) :
  keeps U m P -> (forall a, P a -> Q a) -> keeps U m Q.
Proof. intros Hm HPQ st Hst. destruct (Hm st Hst) as [Hc HP]. split; [done|]. auto. Qed.

Lemma keeps_new_list U v : v ⊆ U -> keeps U (new_list v) (fun _ => True).
Proof.
  intros Hv st [Hh Hy]. split; [|done]. split; simpl; [|done].
  apply Forall_app. split; [done|]. by constructor.
Qed.

Lemma keeps_load U r : keeps U (load r) (fun v => v ⊆ U).
Proof.
  intros st [Hh Hy]. unfold load. destruct (heap st !! r) as [v|] eqn:Hr; simpl.
  - split; [done|]. intros a [= <-]. by eapply Forall_lookup_1 in Hh.
  - split; [done|]. congruence.
Qed.

Lemma keeps_len U r : keeps U (len r) (fun _ => True).
Proof.
  unfold len. eapply keeps_bind; [apply keeps_load|]. intros v _. by apply keeps_ret.
Qed.

Lemma keeps_iadd U r o : keeps U (iadd r o) (fun _ => True).
Proof.
  unfold iadd. eapply keeps_bind; [apply keeps_load|]. intros v Hv.
  eapply keeps_bind; [apply keeps_load|]. intros w Hw.
  intros st [Hh Hy]. split; [|done]. split; simpl; [|done].
  apply Forall_insert; [done|]. intros x [?|?]%elem_of_app; auto.
Qed.

Lemma keeps_concat_lists U a b : keeps U (concat_lists a b) (fun _ => True).
Proof.
  unfold concat_lists. eapply keeps_bind; [apply keeps_load|]. intros v Hv.
  eapply keeps_bind; [apply keeps_load|]. intros w Hw.
  apply keeps_new_list. intros x [?|?]%elem_of_app; auto.
Qed.

Lemma py_slice_subseteq (l : list Z) (a b : Z) : py_slice l a b ⊆ l.
Proof.
  unfold py_slice. intros x Hx%subseteq_take. by eapply subseteq_drop.
Qed.

Lemma keeps_getslice U r a b : keeps U (getslice r a b) (fun _ => True).
Proof.
  unfold getslice. eapply keeps_bind; [apply keeps_load|]. intros v Hv.
  apply keeps_new_list. intros x Hx%py_slice_subseteq. auto.
Qed.

Lemma keeps_yield U r : keeps U (yield r) (fun _ => True).
Proof.
  unfold yield. eapply keeps_bind; [apply keeps_load|]. intros v Hv.
  intros st [Hh Hy]. split; [|done]. split; simpl; [done|].
  apply Forall_app. split; [done|]. by constructor.
Qed.

Lemma keeps_read_var {A : Type} U (x : option A) : keeps U (read_var x) (fun _ => True).
Proof. destruct x; [by apply keeps_ret|apply keeps_raise]. Qed.

Lemma keeps_for_enumerate {S : Type} U idx items (body : Z -> ref -> S -> M S) s :
  Forall (fun v => v ⊆ U) items ->
  (forall i b s', keeps U (body i b s') (fun _ => True)) ->
  keeps U (for_enumerate idx items body s) (fun _ => True).
Proof.
  intros Hitems Hbody. revert idx s.
  induction Hitems as [|v items Hv _ IH]; intros idx s; simpl.
  - by apply keeps_ret.
  - eapply keeps_bind; [by apply keeps_new_list|]. intros r _.
    eapply keeps_bind; [apply Hbody|]. intros s' _. apply IH.
Qed.

Lemma keeps_tile_while U fuel r bound : keeps U (tile_while fuel r bound) (fun _ => True).
Proof.
  induction fuel as [|fuel IH]; simpl.
  - eapply keeps_bind; [apply keeps_len|]. intros n _.
    destruct (n <? bound); [apply keeps_raise|by apply keeps_ret].
  - eapply keeps_bind; [apply keeps_len|]. intros n _.
    destruct (n <? bound); [|by apply keeps_ret].
    eapply keeps_bind; [apply keeps_iadd|]. intros _ _. apply IH.
Qed.

Ltac keeps_step :=
  lazymatch goal with
  | |- keeps _ (ret _) _ => by apply (keeps_ret _ _ (fun _ => True))
  | |- keeps _ (raise _) _ => apply keeps_raise
  | |- keeps _ (lift _) _ => apply keeps_lift
  | |- keeps _ (new_list []) _ => apply keeps_new_list; by intros ? ?%elem_of_nil
  | |- keeps _ (len _) _ => apply keeps_len
  | |- keeps _ (iadd _ _) _ => apply keeps_iadd
  | |- keeps _ (concat_lists _ _) _ => apply keeps_concat_lists
  | |- keeps _ (getslice _ _ _) _ => apply keeps_getslice
  | |- keeps _ (yield _) _ => apply keeps_yield
  | |- keeps _ (read_var _) _ => apply keeps_read_var
  | |- keeps _ (tile_while _ _ _) _ => apply keeps_tile_while
  | |- keeps _ (bind _ _) _ => eapply keeps_bind; [|intros ? _]
  | |- keeps _ (if ?c then _ else _) _ => destruct c
  | |- keeps _ (match ?x with O => _ | S _ => _ end) _ => destruct x
  end.

Lemma keeps_wrap_while U fuel self init idx batch c :
  keeps U (BatchSamplerShard.wrap_while fuel self init idx batch c) (fun _ => True).
Proof.
  revert idx batch c. induction fuel as [|fuel IH]; intros idx batch c; simpl;
    repeat keeps_step.
  apply IH.
Qed.

Lemma keeps_iter U self :
  Forall (fun v => v ⊆ U) (BatchSampler.batches (BatchSamplerShard.batch_sampler self)) ->
  keeps U (BatchSamplerShard.__iter__ self) (fun _ => True).
Proof.
  intros Hitems. unfold BatchSamplerShard.__iter__.
  destruct (BatchSamplerShard.split_batches self).
  - unfold BatchSamplerShard._iter_with_split. repeat keeps_step.
    + unfold BatchSamplerShard.split_loop. apply keeps_for_enumerate; [done|].
      intros i b s'. unfold BatchSamplerShard.split_body. repeat keeps_step.
    + unfold BatchSamplerShard.split_tail. repeat keeps_step.
  - unfold BatchSamplerShard._iter_with_no_split. repeat keeps_step.
    + unfold BatchSamplerShard.no_split_loop. apply keeps_for_enumerate; [done|].
      intros i b s'. unfold BatchSamplerShard.no_split_body. repeat keeps_step.
    + unfold BatchSamplerShard.no_split_tail. repeat keeps_step.
      apply keeps_wrap_while.
Qed.

(** A shard yields no index of its own making: every element of every batch
    it yields, in either mode, for any number of processes and process index
    and any pass, also when the iteration ends with an exception, is an
    element of a batch of the pass of the batch sampler. *)
Theorem yielded_indices_come_from_the_pass (self : BatchSamplerShard.t) (y : list Z) (x : Z) :
  y ∈ fst (run_generator (BatchSamplerShard.__iter__ self)) -> x ∈ y ->
  exists b, b ∈ BatchSampler.batches (BatchSamplerShard.batch_sampler self) /\ x ∈ b.
Proof.
  intros Hy Hx.
  set (U := concat (BatchSampler.batches (BatchSamplerShard.batch_sampler self))).
  assert (Forall (fun v => v ⊆ U) (BatchSampler.batches (BatchSamplerShard.batch_sampler self)))
    as Hitems.
  { apply Forall_forall. intros v Hv z Hz. apply list_elem_of_In, in_concat.
    exists v. by rewrite <- !list_elem_of_In. }
  destruct (keeps_iter U self Hitems (Machine [] [])) as [[_ Hclosed] _]; [by split|].
  assert (y ∈ yielded (snd (BatchSamplerShard.__iter__ self (Machine [] [])))) as Hy'.
  { unfold run_generator in Hy.
    by destruct (BatchSamplerShard.__iter__ self (Machine [] [])) as [[e|[]] st]. }
  eapply Forall_forall in Hclosed; [|exact Hy'].
  apply Hclosed, list_elem_of_In, in_concat in Hx as (b & Hb & Hxb).
  exists b. by rewrite !list_elem_of_In.
Qed.

Lemma yielded_indices_come_from_the_pass_witness :
  exists b,
    b ∈ BatchSampler.batches
          (BatchSamplerShard.batch_sampler
             (BatchSamplerShard.Build (BatchSampler.Build 4 false [[0;1;2;3];[4;5;6;7];[8;9]])
                2 1 false 4 false)) /\
    3 ∈ b.
Proof.
  apply (yielded_indices_come_from_the_pass
           (BatchSamplerShard.Build (BatchSampler.Build 4 false [[0;1;2;3];[4;5;6;7];[8;9]])
              2 1 false 4 false)
           [2;3;4;5] 3).
  - vm_compute. apply list_elem_of_In. right. left. reflexivity.
  - apply list_elem_of_In. right. left. reflexivity.
Defined.

(** ** Nothing is lost without [drop_last] *)

Lemma well_formed_uniform B up : well_formed_pass B up = true -> uniform B up.
Proof.
  intros Hwf. destruct (well_formed_cases _ _ Hwf) as [->|(pre & l & -> & Hpre & _)].
  - constructor.
  - unfold uniform. by rewrite removelast_last.
Qed.

(** The element at position [i] of a list is in the piece of [sl] elements
    that starts at a multiple of [sl]. *)
Lemma lookup_in_some_piece (l : list Z) (sl n : Z) (i : nat) (x : Z) :
  0 < sl -> l !! i = Some x -> Z.of_nat i < n * sl ->
  exists w, 0 <= w < n /\ x ∈ take (Z.to_nat sl) (drop (Z.to_nat (w * sl)) l).
Proof.
  intros Hsl Hi Hlt.
  pose proof (Z.div_mod (Z.of_nat i) sl ltac:(lia)) as Hdm.
  pose proof (Z.mod_pos_bound (Z.of_nat i) sl Hsl) as Hr.
  assert (0 <= Z.of_nat i `div` sl) as Hq by (apply Z.div_pos; lia).
  exists (Z.of_nat i `div` sl). split; [nia|].
  apply elem_of_take. exists (Z.to_nat (Z.of_nat i `mod` sl)). split; [|lia].
  rewrite lookup_drop. rewrite <- Hi. f_equal. lia.
Qed.

(** A position of the pass, as a round and a place in the round. *)
Lemma position_in_round (p n : Z) :
  1 <= n -> 0 <= p ->
  p = p `div` n * n + p `mod` n /\ 0 <= p `mod` n < n /\ 0 <= p `div` n.
Proof.
  intros Hn Hp. pose proof (Z.div_mod p n ltac:(lia)).
  pose proof (Z.mod_pos_bound p n ltac:(lia)).
  assert (0 <= p `div` n) by (apply Z.div_pos; lia). lia.
Qed.

(** In whole-batch mode without [drop_last], the full batch at position [p]
    of a pass of full batches is handed to process [p mod n]. *)
Lemma full_pass_batch_is_yielded bs n (p : nat) b :
  let B := BatchSampler.batch_size bs in
  let up := BatchSampler.batches bs in
  1 <= n -> BatchSampler.drop_last bs = false ->
  Forall (fun b => is_full B b = true) up -> 0 < B ->
  up !! p = Some b ->
  b ∈ fst (shard_output bs n (Z.of_nat p `mod` n) false).
Proof.
  intros B up Hn Hdrop Hall HB Hp.
  destruct (position_in_round (Z.of_nat p) n Hn ltac:(lia)) as (Hpos & Hw & Hg).
  set (w := Z.of_nat p `mod` n) in *. set (g := Z.of_nat p `div` n) in *.
  assert (up <> []) as Hne by (intros E; by rewrite E in Hp).
  assert (uniform B up) as Hun.
  { unfold uniform. destruct up as [|l up _] using rev_ind; [done|].
    rewrite removelast_last. by apply Forall_app in Hall as [? _]. }
  pose proof (lookup_lt_Some _ _ _ Hp) as Hlen.
  pose proof (full_count_all _ _ Hall) as HLf.
  destruct (position_in_round (Z.of_nat (length up)) n Hn ltac:(lia)) as (Hk & Hj & Hq).
  assert (round_batch n w up g = b) as Hrb.
  { unfold round_batch. replace (Z.to_nat (g * n + w)) with p by lia. by rewrite Hp. }
  rewrite shard_output_no_split by done. fold B up. rewrite Hdrop, HLf. simpl.
  apply elem_of_app.
  destruct (decide (g < Z.of_nat (length up) `div` n)) as [Hlt|Hge].
  - left. apply list_elem_of_fmap. exists g. split; [done|]. apply elem_of_seqZ. lia.
  - right. rewrite no_split_wraparound_full by done.
    assert (g = Z.of_nat (length up) `div` n) as Eg by nia.
    destruct (Z.eqb_spec (Z.of_nat (length up) `mod` n) 0); [nia|].
    destruct (Z.ltb_spec w (Z.of_nat (length up) `mod` n)); [|nia].
    rewrite <- Eg, Hrb. by left.
Qed.

(** Without [drop_last] no index of the pass is lost: for [n >= 1]
    processes and a well-formed pass, in whole-batch mode or in split mode
    (with [n] dividing [B]), every element of every batch of the pass is an
    element of a batch that one of the processes [0 .. n - 1] receives. *)
Theorem no_index_is_lost_without_drop_last (bs : BatchSampler.t) (n : Z) (split : bool)
    (b : list Z) (x : Z) :
  let B := BatchSampler.batch_size bs in
  let up := BatchSampler.batches bs in
  1 <= n -> BatchSampler.drop_last bs = false -> well_formed_pass B up = true ->
  (split = true -> B `mod` n = 0) ->
  b ∈ up -> x ∈ b ->
  exists w y, 0 <= w < n /\ y ∈ fst (shard_output bs n w split) /\ x ∈ y.
Proof.
  intros B up Hn Hdrop Hwf Hdiv Hb Hx.
  destruct (well_formed_cases _ _ Hwf) as [Hup|(pre & l & Hup & Hpre & Hl)].
  { rewrite Hup in Hb. by apply elem_of_nil in Hb. }
  assert (0 < B) as HB.
  { destruct (decide (0 < B)) as [|HB]; [done|]. lia. }
  destruct split.
  - (* split mode *)
    specialize (Hdiv eq_refl).
    assert (0 <= B `div` n) as Hsl0 by (apply Z.div_pos; lia).
    assert (B = n * (B `div` n)) as HBn by (rewrite (Z.div_mod B n) at 1 by lia; lia).
    assert (0 < B `div` n) as Hsl by nia.
    assert (forall c : list Z, Z.of_nat (length c) = B -> x ∈ c ->
              exists w, 0 <= w < n /\ x ∈ shard_slice B n w c) as Hfull.
    { intros c Hc [i Hi]%list_elem_of_lookup.
      pose proof (lookup_lt_Some _ _ _ Hi).
      destruct (lookup_in_some_piece c (B `div` n) n i x Hsl Hi ltac:(lia)) as (w & Hw & Hin).
      exists w. split; [done|]. by rewrite shard_slice_take_drop by lia. }
    destruct (is_full B l) eqn:Hlfull.
    + assert (Forall (fun b => is_full B b = true) up) as Hall.
      { rewrite Hup. apply Forall_app. split; [done|]. by constructor. }
      eapply Forall_forall in Hall as Hbfull; [|exact Hb].
      unfold is_full in Hbfull. apply Z.eqb_eq in Hbfull.
      destruct (Hfull b Hbfull Hx) as (w & Hw & Hin). exists w, (shard_slice B n w b).
      split; [done|]. split; [|done].
      rewrite shard_output_split by (done || lia). fold B up. simpl.
      rewrite (filter_all_full _ _ Hall). apply elem_of_app. left.
      apply list_elem_of_fmap. eauto.
    + assert (0 < Z.of_nat (length l) < B) as Hsh by (unfold is_full in Hlfull; lia).
      destruct (head (pre ++ [l])) as [first|] eqn:Hfirst; [|by destruct pre].
      fold up in Hup. rewrite Hup in Hb. apply elem_of_app in Hb as [Hb|Hb].
      * eapply Forall_forall in Hpre as Hbfull; [|exact Hb].
        unfold is_full in Hbfull. apply Z.eqb_eq in Hbfull.
        destruct (Hfull b Hbfull Hx) as (w & Hw & Hin). exists w, (shard_slice B n w b).
        split; [done|]. split; [|done].
        destruct (shard_output_split_short bs n w pre l first) as (Hout & _ & _); try done.
        rewrite Hout. simpl. apply elem_of_app. left. apply list_elem_of_fmap. eauto.
      * apply list_elem_of_singleton in Hb as ->.
        apply list_elem_of_lookup in Hx as [i Hi].
        pose proof (lookup_lt_Some _ _ _ Hi).
        destruct (lookup_in_some_piece (l ++ tiled B first) (B `div` n) n i x Hsl)
          as (w & Hw & Hin); [by rewrite lookup_app_l|lia|].
        exists w, (shard_slice B n w (l ++ tiled B first)).
        split; [done|]. split; [|by rewrite shard_slice_take_drop by lia].
        destruct (shard_output_split_short bs n w pre l first) as (Hout & _ & _); try done.
        rewrite Hout, Hdrop. simpl. apply elem_of_app. right. by left.
  - (* whole-batch mode *)
    clear Hdiv. destruct (is_full B l) eqn:Hlfull.
    + assert (Forall (fun b => is_full B b = true) up) as Hall.
      { rewrite Hup. apply Forall_app. split; [done|]. by constructor. }
      apply list_elem_of_lookup in Hb as [p Hp].
      exists (Z.of_nat p `mod` n), b.
      split; [by apply position_in_round; lia|]. split; [|done].
      by apply full_pass_batch_is_yielded.
    + assert (0 < Z.of_nat (length l) < B) as Hsh by (unfold is_full in Hlfull; lia).
      fold up in Hup.
      destruct (position_in_round (Z.of_nat (length pre)) n Hn ltac:(lia)) as (Hk & Hj & Hq).
      rewrite Hup in Hb. apply elem_of_app in Hb as [Hb|Hb].
      * apply list_elem_of_lookup in Hb as [p Hp].
        pose proof (lookup_lt_Some _ _ _ Hp) as Hlen.
        destruct (position_in_round (Z.of_nat p) n Hn ltac:(lia)) as (Hpos & Hw & Hg).
        set (w := Z.of_nat p `mod` n) in *. set (g := Z.of_nat p `div` n) in *.
        assert (round_batch n w pre g = b) as Hrb.
        { unfold round_batch. replace (Z.to_nat (g * n + w)) with p by lia. by rewrite Hp. }
        exists w, b. split; [done|]. split; [|done].
        destruct (shard_output_no_split_short bs n w pre l) as (Hout & _ & _); try done.
        rewrite Hout, Hdrop. simpl. apply elem_of_app.
        destruct (decide (g < Z.of_nat (length pre) `div` n)) as [Hlt|Hge].
        -- left. apply list_elem_of_fmap. exists g. split; [done|]. apply elem_of_seqZ. lia.
        -- right. assert (g = Z.of_nat (length pre) `div` n) as Eg by nia.
           destruct (Z.ltb_spec w (Z.of_nat (length pre) `mod` n)); [|nia].
           rewrite <- Eg, Hrb. by left.
      * apply list_elem_of_singleton in Hb as ->.
        set (j := Z.of_nat (length pre) `mod` n) in *.
        destruct (shard_output_no_split_short bs n j pre l) as (Hout & _ & _); try done.
        fold j in Hout. rewrite Z.ltb_irrefl, Z.eqb_refl, Hdrop in Hout.
        eexists j, _. split; [done|]. split.
        -- rewrite Hout. simpl. apply elem_of_app. right. by left.
        -- apply elem_of_app. by left.
Qed.

Lemma no_index_is_lost_without_drop_last_witness :
  exists w y,
    0 <= w < 2 /\
    y ∈ fst (shard_output (BatchSampler.Build 4 false [[0;1;2;3];[4;5;6;7];[8;9]]) 2 w false) /\
    9 ∈ y.
Proof.
  apply (no_index_is_lost_without_drop_last
           (BatchSampler.Build 4 false [[0;1;2;3];[4;5;6;7];[8;9]]) 2 false [8;9] 9).
  - lia.
  - reflexivity.
  - reflexivity.
  - discriminate.
  - apply list_elem_of_In. simpl. tauto.
  - apply list_elem_of_In. simpl. tauto.
Defined.

(** ** The shards, read side by side *)

(** Consecutive batches of a pass. *)
Lemma batches_from (up : list (list Z)) (a m : Z) :
  0 <= a -> 0 <= m -> a + m <= Z.of_nat (length up) ->
  map (fun w => default [] (up !! Z.to_nat (a + w))) (seqZ 0 m) =
  take (Z.to_nat m) (drop (Z.to_nat a) up).
Proof.
  intros Ha Hm Hlen. apply list_eq. intros i.
  rewrite list_lookup_fmap. destruct (decide (Z.of_nat i < m)) as [Hi|Hi].
  - rewrite lookup_seqZ_lt by lia. simpl.
    rewrite lookup_take_lt by lia. rewrite lookup_drop.
    replace (Z.to_nat (a + (0 + Z.of_nat i))) with (Z.to_nat a + i)%nat by lia.
    destruct (lookup_lt_is_Some_2 up (Z.to_nat a + i)) as [b Hb]; [lia|].
    by rewrite Hb.
  - rewrite lookup_seqZ_ge by lia. simpl. symmetry. apply lookup_take_ge. lia.
Qed.

(** Chaining the first [c] rounds of a pass gives back its first [c * n]
    batches. *)
Lemma rounds_rebuild_prefix (up : list (list Z)) (n : Z) (c : nat) :
  1 <= n -> Z.of_nat c * n <= Z.of_nat (length up) ->
  concat (map (fun g => map (fun w => default [] (up !! Z.to_nat (g * n + w))) (seqZ 0 n))
            (seqZ 0 (Z.of_nat c))) =
  take (Z.to_nat (Z.of_nat c * n)) up.
Proof.
  intros Hn. induction c as [|c IH]; intros Hlen.
  - simpl. by rewrite take_0.
  - rewrite seqZ_S, map_app, concat_app, IH by lia. simpl. rewrite app_nil_r, Z.add_0_l.
    rewrite batches_from by lia. rewrite take_take_drop. f_equal. lia.
Qed.

(** The batch number [g] of process [w], for a round [g] of full batches. *)
Lemma shard_output_no_split_lookup bs n w g :
  let B := BatchSampler.batch_size bs in
  let up := BatchSampler.batches bs in
  1 <= n -> 0 <= w < n -> uniform B up -> 0 <= g < full_count B up `div` n ->
  fst (shard_output bs n w false) !! Z.to_nat g = up !! Z.to_nat (g * n + w) /\
  Z.of_nat (Z.to_nat (g * n + w)) < full_count B up.
Proof.
  intros B up Hn Hw Hun Hg.
  assert (0 <= full_count B up) by (unfold full_count; lia).
  pose proof (Z.div_mod (full_count B up) n ltac:(lia)).
  pose proof (Z.mod_pos_bound (full_count B up) n ltac:(lia)).
  split; [|nia].
  destruct (uniform_lookup_full B up (Z.to_nat (g * n + w)) Hun ltac:(nia)) as (b & Hb & Hfull).
  rewrite shard_output_no_split by done. fold B up. simpl.
  rewrite lookup_app_l by (rewrite length_map, length_seqZ; lia).
  rewrite list_lookup_fmap, lookup_seqZ_lt by lia. simpl.
  unfold round_batch. rewrite Z.add_0_l, Z2Nat.id by lia. by rewrite Hb.
Qed.

(** In whole-batch mode, over a pass whose batches are all full except
    possibly the last, with [c] the number of complete rounds of full batches:
    putting the batches number [0 .. c - 1] of the processes [0 .. n - 1] side
    by side, round after round, gives back the first [c * n] batches of the
    pass, in order.  When [drop_last] is set these are all the batches that
    the processes receive: each of the first [c * n] batches goes to exactly
    one process, and the other batches of the pass go to none. *)
Theorem shards_interleave_to_the_pass (bs : BatchSampler.t) (n : Z) :
  let B := BatchSampler.batch_size bs in
  let up := BatchSampler.batches bs in
  let c := full_count B up `div` n in
  1 <= n -> uniform B up ->
  concat (map (fun g =>
                 map (fun w => default [] (fst (shard_output bs n w false) !! Z.to_nat g))
                     (seqZ 0 n))
              (seqZ 0 c)) =
    take (Z.to_nat (c * n)) up /\
  (BatchSampler.drop_last bs = true ->
   forall w, 0 <= w < n -> Z.of_nat (length (fst (shard_output bs n w false))) = c).
Proof.
  intros B up c Hn Hun.
  assert (0 <= full_count B up <= Z.of_nat (length up)) as HLf.
  { unfold full_count. pose proof (List.filter_length_le (is_full B) up). lia. }
  pose proof (Z.div_mod (full_count B up) n ltac:(lia)) as Hdm.
  pose proof (Z.mod_pos_bound (full_count B up) n ltac:(lia)) as Hr.
  assert (0 <= c) as Hc by (apply Z.div_pos; lia).
  split.
  - rewrite (map_ext_in _
               (fun g => map (fun w => default [] (up !! Z.to_nat (g * n + w))) (seqZ 0 n))).
    + replace c with (Z.of_nat (Z.to_nat c)) at 1 by lia.
      rewrite rounds_rebuild_prefix by (fold c in Hdm; lia). f_equal. lia.
    + intros g Hg%list_elem_of_In%elem_of_seqZ. apply map_ext_in.
      intros w Hw%list_elem_of_In%elem_of_seqZ.
      destruct (shard_output_no_split_lookup bs n w g) as [-> _]; try done; lia.
  - intros Hdrop w Hw. rewrite shard_output_no_split by done. rewrite Hdrop. simpl.
    rewrite app_nil_r, length_map, length_seqZ. fold B up c. lia.
Qed.

Lemma shards_interleave_to_the_pass_witness :
  let bs := BatchSampler.Build 4 true [[0;1;2;3];[4;5;6;7];[8;9;10;11];[12;13]] in
  let n := 2 in
  let B := BatchSampler.batch_size bs in
  let up := BatchSampler.batches bs in
  let c := full_count B up `div` n in
  concat (map (fun g =>
                 map (fun w => default [] (fst (shard_output bs n w false) !! Z.to_nat g))
                     (seqZ 0 n))
              (seqZ 0 c)) =
    take (Z.to_nat (c * n)) up /\
  (BatchSampler.drop_last bs = true ->
   forall w, 0 <= w < n -> Z.of_nat (length (fst (shard_output bs n w false))) = c).
Proof.
  cbv zeta.
  apply (shards_interleave_to_the_pass
           (BatchSampler.Build 4 true [[0;1;2;3];[4;5;6;7];[8;9;10;11];[12;13]]) 2).
  - lia.
  - repeat constructor.
Defined.

(** ** What [drop_last] changes *)

(** For [n >= 1] processes, a process index in [0, n) and a well-formed
    pass, in whole-batch mode or in split mode (with [n] dividing [B]): the
    batches a process receives when [drop_last] is not set are the ones it
    receives when [drop_last] is set, followed by at most one more batch. *)
Theorem drop_last_only_cuts_the_end (B : Z) (up : list (list Z)) (n w : Z) (split : bool) :
  1 <= n -> 0 <= w < n -> well_formed_pass B up = true ->
  (split = true -> B `mod` n = 0) ->
  exists extra,
    shard_output (BatchSampler.Build B false up) n w split =
      (fst (shard_output (BatchSampler.Build B true up) n w split) ++ extra, None) /\
    snd (shard_output (BatchSampler.Build B true up) n w split) = None /\
    (length extra <= 1)%nat.
Proof.
  intros Hn Hw Hwf Hdiv. destruct split.
  - specialize (Hdiv eq_refl).
    rewrite !shard_output_split by (done || lia). simpl. rewrite app_nil_r.
    eexists. split; [done|]. split; [done|].
    unfold split_wraparound. destruct (head up); [|simpl; lia].
    destruct (last up); [|simpl; lia]. destruct (_ && _); simpl; lia.
  - clear Hdiv.
    pose proof (well_formed_uniform _ _ Hwf) as Hun.
    destruct (whole_mode_count (BatchSampler.Build B false up) n w Hn Hw Hwf) as (_ & _ & Hc).
    rewrite !shard_output_no_split in * by done. simpl in *. rewrite app_nil_r.
    eexists. split; [done|]. split; [done|].
    rewrite length_app, length_map, length_seqZ in Hc.
    assert (0 <= full_count B up `div` n).
    { apply Z.div_pos; [unfold full_count|]; lia. }
    destruct (_ && _) in Hc; lia.
Qed.

Lemma drop_last_only_cuts_the_end_witness :
  exists extra,
    shard_output (BatchSampler.Build 4 false [[0;1;2;3];[4;5;6;7];[8;9]]) 2 1 false =
      (fst (shard_output (BatchSampler.Build 4 true [[0;1;2;3];[4;5;6;7];[8;9]]) 2 1 false)
         ++ extra, None) /\
    snd (shard_output (BatchSampler.Build 4 true [[0;1;2;3];[4;5;6;7];[8;9]]) 2 1 false)
      = None /\
    (length extra <= 1)%nat.
Proof.
  apply (drop_last_only_cuts_the_end 4 [[0;1;2;3];[4;5;6;7];[8;9]] 2 1 false).
  - lia.
  - lia.
  - reflexivity.
  - discriminate.
Defined.

(** ** The shards without [drop_last], read side by side *)

Lemma length_concat_full B (l : list (list Z)) :
  Forall (fun b => is_full B b = true) l ->
  Z.of_nat (length (concat l)) = Z.of_nat (length l) * B.
Proof.
  induction 1 as [|b l Hb _ IH]; [done|]. simpl. rewrite length_app.
  unfold is_full in Hb. lia.
Qed.

Lemma concat_map_concat {A C : Type} (f : A -> list (list C)) (l : list A) :
  concat (map (fun x => concat (f x)) l) = concat (concat (map f l)).
Proof.
  induction l as [|x l IH]; [done|]. simpl. by rewrite concat_app, IH.
Qed.

(** A prefix that covers the first list. *)
Lemma take_app_beyond {A : Type} (l k : list A) (m : nat) :
  (length l <= m)%nat -> take m (l ++ k) = l ++ take (m - length l) k.
Proof. intros H. rewrite take_app. by rewrite take_ge by lia. Qed.

(** The last round of whole-batch mode, read across the processes: the
    full batches that are left, then [carry] and the buffer, cut after
    [(n - j) * B] elements. *)
Lemma last_round_flat (B n : Z) (pre : list (list Z)) (carry buf : list Z)
    (final : Z -> list Z) :
  let k := Z.of_nat (length pre) in
  let q := k `div` n in
  let j := k `mod` n in
  let s := Z.of_nat (length carry) in
  1 <= n -> 0 < B -> s < B -> n * B <= Z.of_nat (length buf) ->
  (forall w, 0 <= w < n ->
     final w =
       if w <? j then round_batch n w pre q
       else if w =? j then carry ++ py_slice buf 0 (B - s)
       else py_slice buf ((w - j) * B - s) ((w - j) * B - s + B)) ->
  concat (map final (seqZ 0 n)) =
  concat (drop (Z.to_nat (q * n)) pre) ++ take (Z.to_nat ((n - j) * B)) (carry ++ buf).
Proof.
  intros k q j s Hn HB Hs Hbuf Hfinal.
  pose proof (Z.div_mod k n ltac:(lia)) as Hk.
  pose proof (Z.mod_pos_bound k n ltac:(lia)) as Hj.
  assert (0 <= k `div` n) as Hq by (apply Z.div_pos; lia).
  assert (k = Z.of_nat (length pre)) as Hkk by done.
  fold q j in Hk, Hj, Hq.
  replace n with (j + (n - j)) at 1 by lia.
  rewrite seqZ_app by lia. rewrite map_app, concat_app. f_equal.
  - rewrite (map_ext_in _ (fun w => default [] (pre !! Z.to_nat (q * n + w)))).
    + rewrite batches_from by lia. f_equal. apply take_ge. rewrite length_drop. lia.
    + intros w Hw%list_elem_of_In%elem_of_seqZ. rewrite Hfinal by lia.
      destruct (Z.ltb_spec w j); [done|lia].
  - replace (0 + j) with (j + 0) by lia. rewrite <- (fmap_add_seqZ j 0).
    change (map final (Z.add j <$> seqZ 0 (n - j))) with (map final (map (Z.add j) (seqZ 0 (n - j)))).
    rewrite map_map.
    rewrite (map_ext_in _
               (fun i => take (Z.to_nat B) (drop (Z.to_nat (i * B)) (carry ++ buf)))).
    + replace (n - j) with (Z.of_nat (Z.to_nat (n - j))) at 1 by lia.
      rewrite concat_slices by lia. f_equal. lia.
    + intros i Hi%list_elem_of_In%elem_of_seqZ. rewrite Hfinal by lia.
      destruct (Z.ltb_spec (j + i) j); [lia|].
      destruct (Z.eqb_spec (j + i) j) as [E|E].
      * assert (i = 0) as -> by lia. simpl. rewrite drop_0.
        rewrite py_slice_nonneg by lia. rewrite drop_0, Z.sub_0_r.
        rewrite (take_app_beyond carry) by lia. do 2 f_equal. lia.
      * rewrite py_slice_nonneg by nia.
        rewrite drop_app_ge by nia. do 2 f_equal; nia.
Qed.

(** The rounds of full batches, read across the processes, are the first
    batches of the pass. *)
Lemma early_rounds_flat bs n :
  let B := BatchSampler.batch_size bs in
  let up := BatchSampler.batches bs in
  let c := full_count B up `div` n in
  1 <= n -> uniform B up ->
  concat (map (round_of_shards bs n false) (seqZ 0 c)) = concat (take (Z.to_nat (c * n)) up).
Proof.
  intros B up c Hn Hun.
  assert (0 <= full_count B up <= Z.of_nat (length up)) as HLf.
  { unfold full_count. pose proof (List.filter_length_le (is_full B) up). lia. }
  pose proof (Z.div_mod (full_count B up) n ltac:(lia)) as Hdm.
  pose proof (Z.mod_pos_bound (full_count B up) n ltac:(lia)) as Hr.
  assert (0 <= c) as Hc by (apply Z.div_pos; lia).
  unfold round_of_shards. rewrite concat_map_concat. f_equal.
  rewrite (map_ext_in _
             (fun g => map (fun w => default [] (up !! Z.to_nat (g * n + w))) (seqZ 0 n))).
  - replace c with (Z.of_nat (Z.to_nat c)) at 1 by lia.
    rewrite rounds_rebuild_prefix by (fold c in Hdm; lia). f_equal. lia.
  - intros g Hg%list_elem_of_In%elem_of_seqZ. apply map_ext_in.
    intros w Hw%list_elem_of_In%elem_of_seqZ.
    destruct (shard_output_no_split_lookup bs n w g) as [-> _]; try done; lia.
Qed.

Lemma side_by_side_snoc bs n split (R : Z) :
  0 <= R ->
  Z.of_nat (length (fst (shard_output bs n 0 split))) = R + 1 ->
  shards_side_by_side bs n split =
  concat (map (round_of_shards bs n split) (seqZ 0 R)) ++ round_of_shards bs n split R.
Proof.
  intros HR Hlen. unfold shards_side_by_side. rewrite Hlen.
  rewrite seqZ_app by lia. rewrite map_app, concat_app. simpl. by rewrite app_nil_r.
Qed.

(** Whole-batch mode without [drop_last], read across the processes.  For
    [n >= 1] processes and a well-formed pass, every process receiving [R]
    batches: the batches number 0 of the processes [0 .. n - 1] chained, then
    their batches number 1, and so on, are the first [R * n * B] elements of
    the indices of the pass followed by [buf]; these are all the indices of the
    pass, in order, and fewer than [n * B] elements of [buf] after them.
    [buf] is the chain of the first [n] batches of the pass, doubled until it
    has [n * B] elements: it repeats the beginning of the pass. *)
Theorem whole_shards_read_the_pass_then_its_start (bs : BatchSampler.t) (n : Z) :
  let B := BatchSampler.batch_size bs in
  let up := BatchSampler.batches bs in
  let initial := concat (take (Z.to_nat n) up) in
  let buf := tiled (n * B) initial in
  let R := Z.of_nat (length (fst (shard_output bs n 0 false))) in
  1 <= n -> BatchSampler.drop_last bs = false -> well_formed_pass B up = true ->
  shards_side_by_side bs n false = take (Z.to_nat (R * n * B)) (concat up ++ buf) /\
  Z.of_nat (length (concat up)) <= R * n * B /\
  (up <> [] -> R * n * B < Z.of_nat (length (concat up)) + n * B) /\
  (forall i : nat, (i < length buf)%nat -> buf !! i = initial !! (i mod length initial)%nat).
Proof.
  intros B up initial buf R Hn Hdrop Hwf.
  assert (forall i : nat, (i < length buf)%nat ->
            buf !! i = initial !! (i mod length initial)%nat) as Hcyc
    by (intros i Hi; by apply tile_fuel_cycles).
  cut (shards_side_by_side bs n false = take (Z.to_nat (R * n * B)) (concat up ++ buf) /\
       Z.of_nat (length (concat up)) <= R * n * B /\
       (up <> [] -> R * n * B < Z.of_nat (length (concat up)) + n * B)).
  { intros (H1 & H2 & H3). done. }
  clear Hcyc.
  destruct (well_formed_cases _ _ Hwf) as [Hup|(pre & l & Hup & Hpre & Hl)].
  { (* the empty pass *)
    assert (forall w, shard_output bs n w false = ([], None)) as Hout.
    { intros w. unfold shard_output. simpl.
      unfold BatchSamplerShard.__iter__, BatchSamplerShard._iter_with_no_split. simpl.
      unfold run_generator, bind. simpl. fold up. rewrite Hup. simpl. by rewrite Hdrop. }
    subst R. unfold shards_side_by_side. rewrite Hout. fold up. rewrite Hup. simpl.
    split; [done|]. split; [lia|]. done. }
  fold up in Hup.
  assert (0 < B) as HB by lia.
  pose proof (well_formed_uniform _ _ Hwf) as Hun.
  assert (initial <> []) as Hinit.
  { destruct (head up) as [first|] eqn:Hfirst; [|by rewrite Hup in Hfirst; destruct pre].
    eapply initial_data_not_empty; [done|done|].
    rewrite Hup in Hfirst. destruct pre as [|f pre']; simpl in Hfirst; injection Hfirst as <-.
    - intros ->. simpl in Hl. lia.
    - apply Forall_cons in Hpre as [Hf _]. unfold is_full in Hf. apply Z.eqb_eq in Hf.
      intros ->. simpl in Hf. lia. }
  pose proof (tiled_length (n * B) initial Hinit) as Hbuf. fold buf in Hbuf.
  pose proof (length_concat_full B pre Hpre) as Hlenpre.
  assert (concat up = concat pre ++ l) as Hcat.
  { rewrite Hup, concat_app. simpl. by rewrite app_nil_r. }
  assert (Z.of_nat (length up) = Z.of_nat (length pre) + 1) as HL.
  { rewrite Hup, length_app. simpl. lia. }
  destruct (whole_mode_count bs n 0 Hn ltac:(lia) Hwf) as (_ & _ & HR).
  fold B up R in HR. rewrite Hdrop, HL in HR.
  pose proof (early_rounds_flat bs n Hn Hun) as Hearly. fold B up in Hearly.
  destruct (is_full B l) eqn:Hfull.
  - (* every batch is full *)
    assert (Forall (fun b => is_full B b = true) up) as Hall.
    { rewrite Hup. apply Forall_app. split; [done|]. by constructor. }
    assert (up <> []) as Hne by (rewrite Hup; by destruct pre).
    pose proof (length_concat_full B up Hall) as Hlenup.
    pose proof (full_count_all _ _ Hall) as HLf. rewrite HLf in HR, Hearly.
    rewrite <- HL in HR. rewrite Z.eqb_refl, andb_true_r in HR.
    set (k := Z.of_nat (length up)) in *.
    assert (k = Z.of_nat (length up)) as Hkk by done.
    destruct (position_in_round k n Hn ltac:(lia)) as (Hk & Hj & Hq).
    set (q := k `div` n) in *. set (j := k `mod` n) in *.
    destruct (Z.eqb_spec j 0) as [Hz|Hnz].
    + (* the last round is complete *)
      rewrite Z.add_0_r in HR.
      assert (R * n * B = Z.of_nat (length (concat up))) as HRlen by nia.
      split; [|split; [lia|intros _; nia]].
      unfold shards_side_by_side. fold R. rewrite HR, Hearly.
      rewrite take_ge by lia.
      rewrite HR in HRlen. rewrite HRlen, Nat2Z.id, take_app_length. done.
    + (* the last round is completed from the buffer *)
      split; [|split; [nia|intros _; nia]].
      rewrite (side_by_side_snoc bs n false q) by (done || (fold R; lia)).
      rewrite Hearly. unfold round_of_shards.
      rewrite (last_round_flat B n up [] buf); try done; try (simpl; lia).
      * fold k q j. simpl. rewrite app_assoc, <- concat_app, take_drop.
        rewrite HR. rewrite take_app_beyond by nia. do 2 f_equal. nia.
      * intros w Hw. rewrite shard_output_no_split by done. fold B up. rewrite Hdrop, HLf.
        simpl. rewrite no_split_wraparound_full by done. fold buf k q j.
        destruct (Z.eqb_spec j 0); [done|].
        rewrite lookup_app_r by (rewrite length_map, length_seqZ; lia).
        rewrite length_map, length_seqZ.
        replace (Z.to_nat q - Z.to_nat q)%nat with 0%nat by lia.
        simpl. destruct (Z.ltb_spec w j); [done|].
        destruct (Z.eqb_spec w j) as [->|]; f_equal; lia.
  - (* the last batch is short *)
    assert (0 < Z.of_nat (length l) < B) as Hsh by (unfold is_full in Hfull; lia).
    assert (full_count B up = Z.of_nat (length pre)) as HLf.
    { rewrite Hup. unfold full_count. by rewrite filter_full_snoc_short. }
    rewrite HLf in HR, Hearly.
    set (k := Z.of_nat (length pre)) in *.
    assert (k = Z.of_nat (length pre)) as Hkk by done.
    destruct (position_in_round k n Hn ltac:(lia)) as (Hk & Hj & Hq).
    set (q := k `div` n) in *. set (j := k `mod` n) in *.
    assert ((k =? k + 1) = false) as Hkk1 by (apply Z.eqb_neq; lia).
    rewrite Hkk1, andb_false_r in HR.
    rewrite Hcat, length_app.
    split; [|split; [nia|intros _; nia]].
    rewrite (side_by_side_snoc bs n false q) by (done || (fold R; lia)).
    rewrite Hearly. unfold round_of_shards.
    rewrite (last_round_flat B n pre l buf); try done; try lia.
    + fold k q j. rewrite Hup at 1. rewrite take_app_le by lia.
      rewrite app_assoc, <- concat_app, take_drop.
      rewrite HR, <- app_assoc.
      assert ((q + 1) * n * B = k * B + (n - j) * B) as -> by nia.
      assert (0 <= (n - j) * B) by nia. assert (0 <= k * B) by nia.
      rewrite (take_app_beyond (concat pre)) by lia. do 2 f_equal. lia.
    + intros w Hw.
      destruct (shard_output_no_split_short bs n w pre l) as (Hout & _ & _); try done.
      rewrite Hout, Hdrop. fold B k q j up. rewrite <- Hup. fold initial buf. simpl.
      rewrite lookup_app_r by (rewrite length_map, length_seqZ; lia).
      rewrite length_map, length_seqZ.
      replace (Z.to_nat q - Z.to_nat q)%nat with 0%nat by lia. done.
Qed.

Lemma whole_shards_read_the_pass_then_its_start_witness :
  let bs := BatchSampler.Build 4 false [[0;1;2;3];[4;5;6;7];[8;9]] in
  let n := 2 in
  let B := BatchSampler.batch_size bs in
  let up := BatchSampler.batches bs in
  let initial := concat (take (Z.to_nat n) up) in
  let buf := tiled (n * B) initial in
  let R := Z.of_nat (length (fst (shard_output bs n 0 false))) in
  shards_side_by_side bs n false = take (Z.to_nat (R * n * B)) (concat up ++ buf) /\
  Z.of_nat (length (concat up)) <= R * n * B /\
  (up <> [] -> R * n * B < Z.of_nat (length (concat up)) + n * B) /\
  (forall i : nat, (i < length buf)%nat -> buf !! i = initial !! (i mod length initial)%nat).
Proof.
  cbv zeta.
  apply (whole_shards_read_the_pass_then_its_start
           (BatchSampler.Build 4 false [[0;1;2;3];[4;5;6;7];[8;9]]) 2).
  - lia.
  - reflexivity.
  - reflexivity.
Defined.

(** The slices of the processes [0 .. n - 1] of one list, chained. *)
Lemma slices_rebuild (B n : Z) (X : list Z) :
  1 <= n -> 0 <= B -> B `mod` n = 0 ->
  concat (map (fun w => shard_slice B n w X) (seqZ 0 n)) = take (Z.to_nat B) X.
Proof.
  intros Hn HB Hdiv.
  assert (0 <= B `div` n) as Hsl by (apply Z.div_pos; lia).
  assert (B = n * (B `div` n)) as HBn by (rewrite (Z.div_mod B n) at 1 by lia; lia).
  rewrite (map_ext_in _
             (fun w => take (Z.to_nat (B `div` n)) (drop (Z.to_nat (w * (B `div` n))) X))).
  - replace n with (Z.of_nat (Z.to_nat n)) at 1 by lia.
    rewrite concat_slices by done. f_equal. lia.
  - intros w Hw%list_elem_of_In%elem_of_seqZ. apply shard_slice_take_drop; lia.
Qed.

(** In split mode, the round number [g] is the first [B] elements of the
    list that the processes cut their batch number [g] from. *)
Lemma split_round bs n (g : Z) (X : list Z) :
  let B := BatchSampler.batch_size bs in
  1 <= n -> 0 <= B -> B `mod` n = 0 ->
  (forall w, 0 <= w < n ->
     fst (shard_output bs n w true) !! Z.to_nat g = Some (shard_slice B n w X)) ->
  round_of_shards bs n true g = take (Z.to_nat B) X.
Proof.
  intros B Hn HB Hdiv Hout. unfold round_of_shards.
  rewrite (map_ext_in _ (fun w => shard_slice B n w X)).
  - by apply slices_rebuild.
  - intros w Hw%list_elem_of_In%elem_of_seqZ. by rewrite Hout by lia.
Qed.

(** The rounds cut from the full batches [F], chained. *)
Lemma split_early_rounds bs n (F : list (list Z)) :
  let B := BatchSampler.batch_size bs in
  1 <= n -> 0 <= B -> B `mod` n = 0 ->
  Forall (fun b => is_full B b = true) F ->
  (forall w (g : nat) b, 0 <= w < n -> F !! g = Some b ->
     fst (shard_output bs n w true) !! g = Some (shard_slice B n w b)) ->
  concat (map (round_of_shards bs n true) (seqZ 0 (Z.of_nat (length F)))) = concat F.
Proof.
  intros B Hn HB Hdiv Hfull Hout. f_equal.
  transitivity (map (fun g => default [] (F !! Z.to_nat (0 + g)))
                  (seqZ 0 (Z.of_nat (length F)))); cycle 1.
  { rewrite batches_from by lia. simpl. rewrite drop_0. apply take_ge. lia. }
  apply map_ext_in. intros g Hg%list_elem_of_In%elem_of_seqZ. rewrite Z.add_0_l.
  destruct (lookup_lt_is_Some_2 F (Z.to_nat g)) as [b Hb]; [lia|]. rewrite Hb. simpl.
  rewrite (split_round bs n g b); try done.
  - eapply Forall_lookup_1 in Hfull; [|exact Hb]. unfold is_full in Hfull.
    apply take_ge. fold B. lia.
  - intros w Hw. by apply Hout.
Qed.

(** Split mode without [drop_last], read across the processes.  For
    [n >= 1] processes with [n] dividing [B] and a well-formed pass, every
    process receiving [R] batches: the slices number 0 of the processes
    [0 .. n - 1] chained, then their slices number 1, and so on, are the first
    [R * B] elements of the indices of the pass followed by [buf]; [R] is the
    number of batches of the pass, so that these are all the indices of the
    pass, in order, and fewer than [B] elements of [buf] after them.  [buf] is
    the first batch of the pass, doubled until it has [B] elements. *)
Theorem split_shards_read_the_pass_then_its_start (bs : BatchSampler.t) (n : Z) :
  let B := BatchSampler.batch_size bs in
  let up := BatchSampler.batches bs in
  let first := default [] (head up) in
  let buf := tiled B first in
  let R := Z.of_nat (length (fst (shard_output bs n 0 true))) in
  1 <= n -> B `mod` n = 0 -> BatchSampler.drop_last bs = false ->
  well_formed_pass B up = true ->
  shards_side_by_side bs n true = take (Z.to_nat (R * B)) (concat up ++ buf) /\
  R = Z.of_nat (length up) /\
  Z.of_nat (length (concat up)) <= R * B /\
  (up <> [] -> R * B < Z.of_nat (length (concat up)) + B) /\
  (forall i : nat, (i < length buf)%nat -> buf !! i = first !! (i mod length first)%nat).
Proof.
  intros B up first buf R Hn Hdiv Hdrop Hwf.
  assert (forall i : nat, (i < length buf)%nat ->
            buf !! i = first !! (i mod length first)%nat) as Hcyc
    by (intros i Hi; by apply tile_fuel_cycles).
  destruct (split_mode_count bs n 0 Hn ltac:(lia) Hdiv Hwf) as (_ & _ & HR).
  fold B up R in HR. rewrite Hdrop in HR.
  cut (shards_side_by_side bs n true = take (Z.to_nat (R * B)) (concat up ++ buf) /\
       Z.of_nat (length (concat up)) <= R * B /\
       (up <> [] -> R * B < Z.of_nat (length (concat up)) + B)).
  { intros (H1 & H2 & H3). done. }
  clear Hcyc.
  destruct (well_formed_cases _ _ Hwf) as [Hup|(pre & l & Hup & Hpre & Hl)].
  { (* the empty pass *)
    fold up in Hup. unfold shards_side_by_side. fold R. rewrite HR, Hup. simpl.
    split; [done|]. split; [lia|]. done. }
  fold up in Hup.
  assert (0 < B) as HB by lia.
  pose proof (length_concat_full B pre Hpre) as Hlenpre.
  assert (concat up = concat pre ++ l) as Hcat.
  { rewrite Hup, concat_app. simpl. by rewrite app_nil_r. }
  assert (Z.of_nat (length up) = Z.of_nat (length pre) + 1) as HL.
  { rewrite Hup, length_app. simpl. lia. }
  destruct (is_full B l) eqn:Hfull.
  - (* every batch is full *)
    assert (Forall (fun b => is_full B b = true) up) as Hall.
    { rewrite Hup. apply Forall_app. split; [done|]. by constructor. }
    pose proof (length_concat_full B up Hall) as Hlenup.
    split; [|split; [nia|intros _; nia]].
    unfold shards_side_by_side. fold R. rewrite HR.
    rewrite (split_early_rounds bs n up); try done; try lia.
    + rewrite <- Hlenup, Nat2Z.id, take_app_length. done.
    + intros w g b Hw Hb. rewrite shard_output_split by (done || lia). fold B up. simpl.
      rewrite (filter_all_full _ _ Hall).
      rewrite lookup_app_l by (rewrite length_map; by eapply lookup_lt_Some).
      rewrite list_lookup_fmap, Hb. done.
  - (* the last batch is short *)
    assert (0 < Z.of_nat (length l) < B) as Hsh by (unfold is_full in Hfull; lia).
    assert (head (pre ++ [l]) = Some first) as Hfirst.
    { subst first. rewrite Hup. by destruct pre. }
    assert (forall w, 0 <= w < n ->
              fst (shard_output bs n w true) =
                map (shard_slice B n w) pre ++ [shard_slice B n w (l ++ buf)]) as Hout.
    { intros w Hw.
      destruct (shard_output_split_short bs n w pre l first) as (Hout & _ & _); try done.
      rewrite Hout, Hdrop. done. }
    rewrite Hcat, length_app.
    split; [|split; [nia|intros _; nia]].
    rewrite (side_by_side_snoc bs n true (Z.of_nat (length pre))) by (fold R; lia).
    rewrite (split_early_rounds bs n pre); try done; try lia.
    + rewrite (split_round bs n _ (l ++ buf)); try done; try lia.
      * fold B. rewrite HR, HL, <- app_assoc.
        assert ((Z.of_nat (length pre) + 1) * B = Z.of_nat (length pre) * B + B) as -> by lia.
        rewrite (take_app_beyond (concat pre)) by lia. do 2 f_equal. lia.
      * intros w Hw. rewrite Hout by done.
        rewrite lookup_app_r by (rewrite length_map; lia).
        rewrite length_map, Nat2Z.id, Nat.sub_diag. done.
    + intros w g b Hw Hb. rewrite Hout by done.
      rewrite lookup_app_l by (rewrite length_map; by eapply lookup_lt_Some).
      rewrite list_lookup_fmap, Hb. done.
Qed.

Lemma split_shards_read_the_pass_then_its_start_witness :
  let bs := BatchSampler.Build 4 false [[0;1;2;3];[4;5;6;7];[8;9]] in
  let n := 2 in
  let B := BatchSampler.batch_size bs in
  let up := BatchSampler.batches bs in
  let first := default [] (head up) in
  let buf := tiled B first in
  let R := Z.of_nat (length (fst (shard_output bs n 0 true))) in
  shards_side_by_side bs n true = take (Z.to_nat (R * B)) (concat up ++ buf) /\
  R = Z.of_nat (length up) /\
  Z.of_nat (length (concat up)) <= R * B /\
  (up <> [] -> R * B < Z.of_nat (length (concat up)) + B) /\
  (forall i : nat, (i < length buf)%nat -> buf !! i = first !! (i mod length first)%nat).
Proof.
  cbv zeta.
  apply (split_shards_read_the_pass_then_its_start
           (BatchSampler.Build 4 false [[0;1;2;3];[4;5;6;7];[8;9]]) 2).
  - lia.
  - reflexivity.
  - reflexivity.
  - reflexivity.
Defined.

(** ** The loader that [prepare_data_loader] returns *)

(** Several processes.  When the number [n] of
    processes is not 1 and [prepare_data_loader] returns a loader: the loader
    has the dataset of the data loader it was made from; it has the device only
    when [put_on_device] is set; its options are the forwarded ones; its batch
    sampler is the shard that [__init__] builds for [n], the process index and
    [split_batches]; and iterating it draws the index batches of that shard,
    yields for each of them the batch that torch builds from the dataset under
    these options, moved to the device when there is one, and ends as the
    iteration of the shard ends. *)
Theorem several_processes_are_sharded (T D V : Type)
    (fetch : (list Z -> T) -> gmap string V -> list Z -> T) (send_to_device : T -> D -> T)
    (state : AcceleratorState) (pytorch_dl_params : list (string * V))
    (dataloader : DataLoader.t T V) (device : option D)
    (num_processes process_index : option Z) (split_batches put_on_device : bool)
    (loader : DataLoaderShard.t T D V) :
  let n := default (state_num_processes state) num_processes in
  let w := default (state_process_index state) process_index in
  n <> 1 ->
  prepare_data_loader state pytorch_dl_params dataloader device num_processes process_index
    split_batches put_on_device = inr loader ->
  DataLoaderShard.dataset loader = DataLoader.dataset dataloader /\
  DataLoaderShard.device loader = (if put_on_device then device else None) /\
  forwarded_kwargs pytorch_dl_params (DataLoader.attrs dataloader) =
    Some (DataLoaderShard.kwargs loader) /\
  (exists shard,
     BatchSamplerShard.__init__ (DataLoader.batch_sampler dataloader) n w split_batches
       = inr shard /\
     DataLoaderShard.batch_sampler loader = inr shard) /\
  DataLoaderShard.__iter__ fetch send_to_device loader =
    (map (fun index_batch =>
            let batch :=
              fetch (DataLoader.dataset dataloader) (DataLoaderShard.kwargs loader)
                index_batch in
            match (if put_on_device then device else None) with
            | None => batch
            | Some d => send_to_device batch d
            end)
         (fst (shard_output (DataLoader.batch_sampler dataloader) n w split_batches)),
     snd (shard_output (DataLoader.batch_sampler dataloader) n w split_batches)).
Proof.
  intros n w Hn Hprep.
  destruct (prepare_data_loader_returned state pytorch_dl_params dataloader device
              num_processes process_index split_batches put_on_device loader Hprep)
    as (nbs & kw & -> & Hkw & _ & Hshard).
  destruct (Hshard Hn) as (shard & Hinit & ->). fold n w in Hinit. simpl.
  split; [done|]. split; [done|]. split; [done|]. split; [eauto|].
  unfold DataLoaderShard.__iter__, shard_output. simpl. rewrite Hinit.
  by destruct (run_generator (BatchSamplerShard.__iter__ shard)).
Qed.

Lemma several_processes_are_sharded_witness :
  let fetch := fun (ds : list Z -> list Z) (o : gmap string Z) (index_batch : list Z) =>
                 map (Z.add (default 0 (o !! "num_workers"%string))) (ds index_batch) in
  let send_to_device := fun (batch : list Z) (_ : unit) => batch in
  let params := [("dataset", 0); ("batch_size", 1); ("num_workers", 0)]%string in
  let dataloader :=
    DataLoader.Build (fun b : list Z => b) (Some 4)
      (BatchSampler.Build 4 false [[0;1;2;3];[4;5;6;7];[8;9]])
      (<["num_workers"%string := 2]> ∅) in
  let loader :=
    DataLoaderShard.Build (fun b : list Z => b) (None : option unit)
      (inr (BatchSamplerShard.Build (BatchSampler.Build 4 false [[0;1;2;3];[4;5;6;7];[8;9]])
              2 1 true 4 false))
      (<["num_workers"%string := 2]> ∅) in
  DataLoaderShard.dataset loader = DataLoader.dataset dataloader /\
  DataLoaderShard.device loader = (if false then Some tt else None) /\
  forwarded_kwargs params (DataLoader.attrs dataloader) =
    Some (DataLoaderShard.kwargs loader) /\
  (exists shard,
     BatchSamplerShard.__init__ (DataLoader.batch_sampler dataloader) 2 1 true = inr shard /\
     DataLoaderShard.batch_sampler loader = inr shard) /\
  DataLoaderShard.__iter__ fetch send_to_device loader =
    (map (fun index_batch =>
            let batch :=
              fetch (DataLoader.dataset dataloader) (DataLoaderShard.kwargs loader)
                index_batch in
            match (if false then Some tt else None) with
            | None => batch
            | Some d => send_to_device batch d
            end)
         (fst (shard_output (DataLoader.batch_sampler dataloader) 2 1 true)),
     snd (shard_output (DataLoader.batch_sampler dataloader) 2 1 true)).
Proof.
  cbv zeta.
  apply (several_processes_are_sharded (list Z) unit Z
           (fun ds o index_batch =>
              map (Z.add (default 0 (o !! "num_workers"%string))) (ds index_batch))
           (fun batch _ => batch) (Build_AcceleratorState 1 0)
           [("dataset", 0); ("batch_size", 1); ("num_workers", 0)]%string
           (DataLoader.Build (fun b : list Z => b) (Some 4)
              (BatchSampler.Build 4 false [[0;1;2;3];[4;5;6;7];[8;9]])
              (<["num_workers"%string := 2]> ∅))
           (Some tt) (Some 2) (Some 1) true false).
  - simpl. lia.
  - vm_compute. reflexivity.
Defined.

(** A loader yields one batch per index batch, and ends as its sampler
    ends. *)
Lemma loader_iter_shape (T D V : Type)
    (fetch : (list Z -> T) -> gmap string V -> list Z -> T) (send_to_device : T -> D -> T)
    (loader : DataLoaderShard.t T D V) :
  snd (DataLoaderShard.__iter__ fetch send_to_device loader) =
    snd (iter_sampler (DataLoaderShard.batch_sampler loader)) /\
  length (fst (DataLoaderShard.__iter__ fetch send_to_device loader)) =
    length (fst (iter_sampler (DataLoaderShard.batch_sampler loader))).
Proof.
  unfold DataLoaderShard.__iter__.
  destruct (iter_sampler (DataLoaderShard.batch_sampler loader)). simpl.
  by rewrite length_map.
Qed.

Lemma init_split_divides bs n w shard :
  n <> 0 -> BatchSamplerShard.__init__ bs n w true = inr shard ->
  BatchSampler.batch_size bs `mod` n = 0.
Proof.
  intros Hn. unfold BatchSamplerShard.__init__, py_mod.
  destruct (Z.eqb_spec n 0) as [|_]; [done|]. simpl.
  by destruct (Z.eqb_spec (BatchSampler.batch_size bs `mod` n) 0).
Qed.

(** The loaders that [prepare_data_loader] returns for the processes of a
    run stay in step: for [n >= 1] processes and a well-formed pass of the
    batch sampler of the data loader, the loaders prepared for two process
    indices of [0, n), with the same other arguments, are iterated to their
    end without an exception and yield the same number of batches. *)
Theorem prepared_loaders_are_balanced (T D V : Type)
    (fetch : (list Z -> T) -> gmap string V -> list Z -> T) (send_to_device : T -> D -> T)
    (state : AcceleratorState) (pytorch_dl_params : list (string * V))
    (dataloader : DataLoader.t T V) (device : option D)
    (n w w' : Z) (split_batches put_on_device : bool)
    (loader loader' : DataLoaderShard.t T D V) :
  let bs := DataLoader.batch_sampler dataloader in
  1 <= n -> 0 <= w < n -> 0 <= w' < n ->
  well_formed_pass (BatchSampler.batch_size bs) (BatchSampler.batches bs) = true ->
  prepare_data_loader state pytorch_dl_params dataloader device (Some n) (Some w)
    split_batches put_on_device = inr loader ->
  prepare_data_loader state pytorch_dl_params dataloader device (Some n) (Some w')
    split_batches put_on_device = inr loader' ->
  snd (DataLoaderShard.__iter__ fetch send_to_device loader) = None /\
  snd (DataLoaderShard.__iter__ fetch send_to_device loader') = None /\
  length (fst (DataLoaderShard.__iter__ fetch send_to_device loader)) =
    length (fst (DataLoaderShard.__iter__ fetch send_to_device loader')).
Proof.
  intros bs Hn Hw Hw' Hwf Hprep Hprep'.
  destruct (prepare_data_loader_returned state pytorch_dl_params dataloader device
              (Some n) (Some w) split_batches put_on_device loader Hprep)
    as (nbs & kw & Hl & _ & Hone & Hshard).
  destruct (prepare_data_loader_returned state pytorch_dl_params dataloader device
              (Some n) (Some w') split_batches put_on_device loader' Hprep')
    as (nbs' & kw' & Hl' & _ & _ & Hshard').
  simpl in Hone, Hshard, Hshard'.
  destruct (decide (n = 1)) as [->|Hn1].
  - assert (w = w') as <- by lia. rewrite Hprep in Hprep'. injection Hprep' as <-.
    assert (snd (DataLoaderShard.__iter__ fetch send_to_device loader) = None) as Hend;
      [|done].
    destruct (loader_iter_shape T D V fetch send_to_device loader) as [-> _].
    rewrite Hl. simpl. by rewrite Hone.
  - destruct (Hshard Hn1) as (sh & Hsh & Hnbs).
    destruct (Hshard' Hn1) as (sh' & Hsh' & Hnbs').
    destruct (loader_iter_shape T D V fetch send_to_device loader) as [-> ->].
    destruct (loader_iter_shape T D V fetch send_to_device loader') as [-> ->].
    assert (iter_sampler (DataLoaderShard.batch_sampler loader) =
              shard_output bs n w split_batches) as ->.
    { rewrite Hl, Hnbs. unfold shard_output. fold bs in Hsh. by rewrite Hsh. }
    assert (iter_sampler (DataLoaderShard.batch_sampler loader') =
              shard_output bs n w' split_batches) as ->.
    { rewrite Hl', Hnbs'. unfold shard_output. fold bs in Hsh'. by rewrite Hsh'. }
    fold bs in Hsh.
    destruct split_batches.
    + apply init_split_divides in Hsh; [|lia].
      destruct (split_mode_count bs n w Hn Hw Hsh Hwf) as (-> & _ & Hc).
      destruct (split_mode_count bs n w' Hn Hw' Hsh Hwf) as (-> & _ & Hc').
      split; [done|]. split; [done|]. lia.
    + destruct (whole_mode_count bs n w Hn Hw Hwf) as (-> & _ & Hc).
      destruct (whole_mode_count bs n w' Hn Hw' Hwf) as (-> & _ & Hc').
      split; [done|]. split; [done|]. lia.
Qed.

Lemma prepared_loaders_are_balanced_witness :
  let fetch := fun (ds : list Z -> list Z) (o : gmap string Z) (index_batch : list Z) =>
                 map (Z.add (default 0 (o !! "num_workers"%string))) (ds index_batch) in
  let send_to_device := fun (batch : list Z) (_ : unit) => batch in
  let bs := BatchSampler.Build 4 false [[0;1;2;3];[4;5;6;7];[8;9]] in
  let dataloader :=
    DataLoader.Build (fun b : list Z => b) (Some 4) bs (<["num_workers"%string := 2]> ∅) in
  let loader :=
    DataLoaderShard.Build (fun b : list Z => b) (None : option unit)
      (inr (BatchSamplerShard.Build bs 2 0 false 4 false))
      (<["num_workers"%string := 2]> ∅) in
  let loader' :=
    DataLoaderShard.Build (fun b : list Z => b) (None : option unit)
      (inr (BatchSamplerShard.Build bs 2 1 false 4 false))
      (<["num_workers"%string := 2]> ∅) in
  snd (DataLoaderShard.__iter__ fetch send_to_device loader) = None /\
  snd (DataLoaderShard.__iter__ fetch send_to_device loader') = None /\
  length (fst (DataLoaderShard.__iter__ fetch send_to_device loader)) =
    length (fst (DataLoaderShard.__iter__ fetch send_to_device loader')).
Proof.
  cbv zeta.
  apply (prepared_loaders_are_balanced (list Z) unit Z
           (fun ds o index_batch =>
              map (Z.add (default 0 (o !! "num_workers"%string))) (ds index_batch))
           (fun batch _ => batch) (Build_AcceleratorState 1 0)
           [("dataset", 0); ("batch_size", 1); ("num_workers", 0)]%string
           (DataLoader.Build (fun b : list Z => b) (Some 4)
              (BatchSampler.Build 4 false [[0;1;2;3];[4;5;6;7];[8;9]])
              (<["num_workers"%string := 2]> ∅))
           None 2 0 1 false false).
  - lia.
  - lia.
  - lia.
  - reflexivity.
  - vm_compute. reflexivity.
  - vm_compute. reflexivity.
Defined.
